(** * Harry: matrix object and string functions

    A shallow embedding of [src/hmatrix.c], [src/str.c] and
    [src/output/output.c] of Harry, a tool for measuring string
    similarity, together with the properties its specification states
    about range parsing, block splitting, the packed matrix storage, the
    compute loop, the delimiter table, the tokenizer and the pair hash,
    and further properties of the code.

    Conventions of the embedding:
    - a C [int] is a [Z] and every arithmetic operation is followed by the
      two's-complement wrap to 32 bits ([CInt.to_int]); signed overflow is
      undefined in C, so properties are stated where no operation wraps;
    - a C string is a [string]; the bytes after a NUL are cut off by
      [CString.cstr];
    - an array is a [list] read with [!!] and written with [<[ _ := _ ]>];
      a read or write outside the array, a failed [assert] and a NULL
      dereference make the operation return [None];
    - [error()] and [warning()] print and return, so a function that may
      call them returns its result together with the messages in order;
      [fatal()] ends the process, so a function that may call it returns
      an [outcome]. *)

From Stdlib Require Import ZArith List String Ascii Bool Lia.
From stdpp Require Import base list.
Import ListNotations.

Local Open Scope Z_scope.

(** ** C integers *)

Module CInt.

Definition INT_MAX : Z := 2147483647.
Definition INT_MIN : Z := -2147483648.
Definition LONG_MAX : Z := 9223372036854775807.
Definition LONG_MIN : Z := -9223372036854775808.

(** Conversion to [int]: the value modulo 2^32 in [INT_MIN, INT_MAX]. *)
Definition to_int (z : Z) : Z := (z + 2147483648) mod 4294967296 - 2147483648.

Definition add (a b : Z) : Z := to_int (a + b).
Definition sub (a b : Z) : Z := to_int (a - b).
Definition mul (a b : Z) : Z := to_int (a * b).
(** Division of C truncates towards zero. *)
Definition div (a b : Z) : Z := to_int (Z.quot a b).

Definition in_int (z : Z) : Prop := INT_MIN <= z <= INT_MAX.

End CInt.

(** The operators of [int], with the precedence of C. *)
Infix "[+]" := CInt.add (at level 50, left associativity).
Infix "[-]" := CInt.sub (at level 50, left associativity).
Infix "[*]" := CInt.mul (at level 40, left associativity).
Infix "[/]" := CInt.div (at level 40, left associativity).

(** ** C strings and the library functions the source calls *)

Module CString.

Definition code (c : ascii) : Z := Z.of_N (N_of_ascii c).

(** The C string held in a buffer ends at the first NUL. *)
Fixpoint cstr (s : string) : string :=
  match s with
  | EmptyString => EmptyString
  | String c t => if code c =? 0 then EmptyString else String c (cstr t)
  end.

Definition strlen (s : string) : Z := Z.of_nat (String.length s).

(** [strchr(str, ch)] followed by [*ptr = '\0']: the part before the first
    [ch] and the part after it ([ptr + 1]); [None] when [ch] is absent. *)
Fixpoint strchr_split (s : string) (ch : ascii) : option (string * string) :=
  match s with
  | EmptyString => None
  | String c t =>
      if Ascii.eqb c ch then Some (EmptyString, t)
      else match strchr_split t ch with
           | Some (l, r) => Some (String c l, r)
           | None => None
           end
  end.

Definition isspace (c : ascii) : bool :=
  (code c =? 32) || ((9 <=? code c) && (code c <=? 13)).

Definition isdigit (c : ascii) : bool :=
  (48 <=? code c) && (code c <=? 57).

Fixpoint skip_space (s : string) : string :=
  match s with
  | String c t => if isspace c then skip_space t else s
  | EmptyString => s
  end.

(** Reads decimal digits; returns the accumulated value and what follows. *)
Fixpoint scan_digits (acc : Z) (s : string) : Z * string :=
  match s with
  | String c t =>
      if isdigit c then scan_digits (10 * acc + (code c - 48)) t else (acc, s)
  | EmptyString => (acc, s)
  end.

(** An optional sign. *)
Definition scan_sign (s : string) : bool * string :=
  match s with
  | String c t =>
      if code c =? 45 then (true, t)
      else if code c =? 43 then (false, t)
      else (false, s)
  | EmptyString => (false, s)
  end.

Definition starts_with_digit (s : string) : bool :=
  match s with
  | String c _ => isdigit c
  | EmptyString => false
  end.

Definition clamp_long (z : Z) : Z := Z.max CInt.LONG_MIN (Z.min CInt.LONG_MAX z).

(** [strtol(s, &end, 10)] with a 64-bit [long]: white space, an optional
    sign, decimal digits; the value is clamped to the range of [long].
    The second component is the string at [end]; with no digit to read,
    the value is 0 and [end] is [s] itself. *)
Definition strtol (s : string) : Z * string :=
  let (neg, s2) := scan_sign (skip_space s) in
  if starts_with_digit s2 then
    let (v, rest) := scan_digits 0 s2 in
    (clamp_long (if neg then - v else v), rest)
  else (0, s).

(** One [%d] conversion of [sscanf]: as [strtol], stored in an [int];
    [None] is a matching failure or the end of the input. *)
Definition scan_d (s : string) : option (Z * string) :=
  let (neg, s2) := scan_sign (skip_space s) in
  if starts_with_digit s2 then
    let (v, rest) := scan_digits 0 s2 in
    Some (CInt.to_int (clamp_long (if neg then - v else v)), rest)
  else None.

(** [sscanf(str, "%d:%d", &a, &b) == 2]: both numbers, or [None] when
    fewer than two conversions succeed. *)
Definition sscanf_d_colon_d (s : string) : option (Z * Z) :=
  match scan_d s with
  | Some (a, String c t) =>
      if code c =? 58 then
        match scan_d t with
        | Some (b, _) => Some (a, b)
        | None => None
        end
      else None
  | _ => None
  end.

End CString.

(** ** Messages and outcomes *)

(** Modelled from the spec: the macros [error], [warning] and [fatal] are
    defined in [util.h], which is not among the sources.  An error or a
    warning is reported and the function goes on (the sources continue
    after [error()], as in [parse_range] and [output_config]); a fatal
    error terminates the process.  A message is kept as its format
    string. *)
Inductive msg : Type :=
| Error (fmt : string)
| Warning (fmt : string).

(** A computation that may print messages. *)
Definition logged (A : Type) : Type := (A * list msg)%type.

Definition ret {A} (a : A) : logged A := (a, []).
Definition bind {A B} (c : logged A) (k : A -> logged B) : logged B :=
  let (a, l1) := c in let (b, l2) := k a in (b, l1 ++ l2).
Definition error (fmt : string) : logged unit := (tt, [Error fmt]).
Definition warning (fmt : string) : logged unit := (tt, [Warning fmt]).

Notation "x <- c ;; k" := (bind c (fun x => k))
  (at level 100, c at next level, right associativity).
Notation "c ;;; k" := (bind c (fun _ => k))
  (at level 100, right associativity).

(** The result of a function that may call [fatal()]: it returns, or the
    process ends with the message. *)
Inductive outcome (A : Type) : Type :=
| Done (a : A)
| Fatal (fmt : string).
Arguments Done {A} a.
Arguments Fatal {A} fmt.

(** ** Single precision, as far as [hmatrix_split] uses it

    [ceil((m->y.n - m->y.i) / (float) blocks)] converts both integers to
    [float], divides in [float] and rounds the quotient up.  A finite
    [float] is [m * 2^e] with a significand [m] of at most 24 bits;
    conversion and division round to the nearest such value, ties to the
    even significand.  Quotients of two [int]s stay far inside the exponent
    range of the format, so the exponent is not bounded here. *)

Module Float32.

Inductive float32 : Type :=
| Finite (neg : bool) (m e : Z)
| NotFinite.

(** The integer nearest to [p / q], ties to even ([0 <= p], [0 < q]). *)
Definition rne (p q : Z) : Z :=
  let d := p / q in
  let r := p mod q in
  if 2 * r <? q then d
  else if q <? 2 * r then d + 1
  else if Z.even d then d else d + 1.

(** [2^k <= p / q]. *)
Definition ge_pow2 (p q k : Z) : bool :=
  if 0 <=? k then q * 2 ^ k <=? p else q <=? p * 2 ^ (- k).

(** The binary exponent of [p / q]: the [f] with [2^f <= p/q < 2^(f+1)]. *)
Definition ilog2_ratio (p q : Z) : Z :=
  let d := Z.log2 p - Z.log2 q in
  if ge_pow2 p q d then d else d - 1.

(** The [float] nearest to [p / q] for [0 < p], [0 < q], as [(m, e)]. *)
Definition round_pos (p q : Z) : Z * Z :=
  let e := ilog2_ratio p q - 23 in
  let m := if 0 <=? e then rne p (q * 2 ^ e) else rne (p * 2 ^ (- e)) q in
  (m, e).

(** [(float) a] for an [int] [a]. *)
Definition of_int (a : Z) : float32 :=
  if a =? 0 then Finite false 0 0
  else let (m, e) := round_pos (Z.abs a) 1 in Finite (a <? 0) m e.

(** [x / y] in [float]; a zero divisor gives an infinity or a NaN. *)
Definition fdiv (x y : float32) : float32 :=
  match x, y with
  | Finite sx mx ex, Finite sy my ey =>
      if my =? 0 then NotFinite
      else if mx =? 0 then Finite (xorb sx sy) 0 0
      else
        let (p, q) :=
          if ey <=? ex then (mx * 2 ^ (ex - ey), my)
          else (mx, my * 2 ^ (ey - ex)) in
        let (m, e) := round_pos p q in
        Finite (xorb sx sy) m e
  | _, _ => NotFinite
  end.

(** [(int) ceil(x)].  The conversion of an infinity or a NaN is undefined
    in C; x86 yields [INT_MIN]. *)
Definition ceil_to_int (x : float32) : Z :=
  match x with
  | Finite s m e =>
      let v := if s then - m else m in
      if 0 <=? e then CInt.to_int (v * 2 ^ e)
      else CInt.to_int (- ((- v) / 2 ^ (- e)))
  | NotFinite => CInt.INT_MIN
  end.

End Float32.

(** ** Arrays and counting loops *)

(** An array element [a[z]] for an [int] index. *)
Definition at_index {A} (a : list A) (z : Z) : option A :=
  if z <? 0 then None else a !! Z.to_nat z.

(** [for (int i = lo; i < hi; i++) body], the body failing with [None]. *)
Fixpoint for_loop {S} (steps : nat) (i : Z) (body : Z -> S -> option S) (st : S)
  : option S :=
  match steps with
  | O => Some st
  | Datatypes.S k =>
      match body i st with
      | Some st' => for_loop k (i + 1) body st'
      | None => None
      end
  end.

Definition for_int {S} (lo hi : Z) (body : Z -> S -> option S) (st : S) : option S :=
  for_loop (Z.to_nat (hi - lo)) lo body st.

(** ** The matrix object ([src/hmatrix.c]) *)

Module HMatrix.
Import CString.

(** Modelled from the spec: [range_t] and [hmatrix_t] are declared in
    [hmatrix.h], which is not among the sources; the fields are those the
    functions of [hmatrix.c] use.  [range_t] is the half-open interval
    from [i] to [n]. *)
Record range_t : Type := mk_range { r_i : Z; r_n : Z }.

Definition set_i (r : range_t) (v : Z) : range_t := mk_range v (r_n r).
Definition set_n (r : range_t) (v : Z) : range_t := mk_range (r_i r) v.

(** [hmatrix_t].  A pointer is an [option]: [None] is NULL. *)
Record hmatrix_t {float : Type} : Type := mk_hmatrix {
  num : Z;
  x : range_t;
  y : range_t;
  triangular : bool;
  size : Z;
  values : option (list float);
  labels : option (list float);
  srcs : option (list (option string))
}.
Arguments hmatrix_t : clear implicits.
Arguments mk_hmatrix {float}.

Section Matrix.
Context {float double hstring_t : Type}.
(** The [float] zero with which [calloc] fills an array. *)
Variable fzero : float.
(** The conversion of [float f = measure(...)]. *)
Variable d2f : double -> float.
(** The fields [label] and [src] of [hstring_t]. *)
Variable label : hstring_t -> float.
Variable src : hstring_t -> option string.

Local Abbreviation hmatrix := (hmatrix_t float).

Definition set_x (m : hmatrix) (r : range_t) : hmatrix :=
  mk_hmatrix (num m) r (y m) (triangular m) (size m) (values m) (labels m) (srcs m).
Definition set_y (m : hmatrix) (r : range_t) : hmatrix :=
  mk_hmatrix (num m) (x m) r (triangular m) (size m) (values m) (labels m) (srcs m).
Definition set_shape (m : hmatrix) (t : bool) (sz : Z) : hmatrix :=
  mk_hmatrix (num m) (x m) (y m) t sz (values m) (labels m) (srcs m).
Definition set_values (m : hmatrix) (v : option (list float)) : hmatrix :=
  mk_hmatrix (num m) (x m) (y m) (triangular m) (size m) v (labels m) (srcs m).

(** The loop of [hmatrix_init] that copies the details of the strings. *)
Definition copy_details (s : list hstring_t) (i : Z)
  (st : list float * list (option string))
  : option (list float * list (option string)) :=
  match at_index s i with
  | Some h =>
      Some (<[Z.to_nat i := label h]> (fst st), <[Z.to_nat i := src h]> (snd st))
  | None => None
  end.

(** [hmatrix_init(s, n)].  [raw] is what [malloc] returns: NULL or a block
    of indeterminate content; [calloc_labels] and [calloc_srcs] tell
    whether the two [calloc] calls succeed.  The result is the returned
    pointer with the messages printed; the outer [None] is the failed
    [assert] or a read outside [s]. *)
Definition hmatrix_init (raw : option hmatrix) (calloc_labels calloc_srcs : bool)
  (s : list hstring_t) (n : Z) : option (logged (option hmatrix)) :=
  if n <? 0 then None
  else
    match raw with
    | None => Some (error "Could not allocate matrix object" ;;; ret None)
    | Some m0 =>
        let lab := if calloc_labels then Some (replicate (Z.to_nat n) fzero) else None in
        let sr := if calloc_srcs then Some (replicate (Z.to_nat n) None) else None in
        let m := mk_hmatrix n (mk_range 0 n) (mk_range 0 n) true (size m0) None lab sr in
        match sr, lab with
        | Some sr0, Some lab0 =>
            match for_int 0 n (copy_details s) (lab0, sr0) with
            | Some (lab1, sr1) =>
                Some (ret (Some (mk_hmatrix n (mk_range 0 n) (mk_range 0 n) true
                                   (size m0) None (Some lab1) (Some sr1))))
            | None => None
            end
        | _, _ =>
            Some (error "Failed to initialize matrix for similarity values" ;;;
                  ret (Some m))
        end
    end.

(** One side of a range string: [strtol] on the side, then the three-way
    test of the source; [store] writes the field. *)
Definition parse_side (r : range_t) (side : string) (dflt : Z)
  (store : range_t -> Z -> range_t) (fmt : string) : logged range_t :=
  let (l, end_) := strtol side in
  if strlen side =? 0 then ret (store r dflt)
  else if strlen end_ =? 0 then ret (store r (CInt.to_int l))
  else (error fmt ;;; ret r).

(** The end of [parse_range]: the negative end index and the sanity
    checks. *)
Definition range_checks (r : range_t) (n : Z) : logged range_t :=
  let r := if r_n r <? 0 then set_n r (n [+] r_n r) else r in
  if (r_n r <? 0) || (r_i r <? 0) || (r_n r >? n)
     || (r_i r >? n [-] 1) || (r_i r >=? r_n r)
  then error "Invalid range '%s:%s'. Using default '0:%d'." ;;;
       ret (mk_range 0 n)
  else ret r.

(** [parse_range(r, str, n)]. *)
Definition parse_range (r : range_t) (str : string) (n : Z) : logged range_t :=
  let str := cstr str in
  if strlen str =? 0 then ret r
  else
    match strchr_split str ":" with
    | None => error "Invalid range string '%s'." ;;; ret r
    | Some (str, ptr1) =>
        r <- parse_side r str 0 set_i "Could not parse range '%s:...'." ;;
        r <- parse_side r ptr1 n set_n "Could not parse range '...:%s'." ;;
        range_checks r n
    end.

(** [hmatrix_split] from the computation of [height] on. *)
Definition hmatrix_split_blocks (m : hmatrix) (blocks index : Z) : outcome hmatrix :=
  let yl := (r_n (y m) [-] r_i (y m)) in
  let height :=
    Float32.ceil_to_int (Float32.fdiv (Float32.of_int yl) (Float32.of_int blocks)) in
  if (blocks <=? 0) || (blocks >? yl) then
    Fatal "Invalid number of blocks (%d)."
  else if (height <=? 0) || (height >? yl) then
    Fatal "Block height too small (%d)."
  else if (index <? 0) || (index >? (blocks [-] 1)) then
    Fatal "Block index out of range (%d)."
  else
    let yi := (r_i (y m) [+] index [*] height) in
    let yn := if r_n (y m) >? (yi [+] height) then (yi [+] height)
              else r_n (y m) in
    Done (set_y m (mk_range yi yn)).

(** [hmatrix_split(m, str)]. *)
Definition hmatrix_split (m : hmatrix) (str : string) : outcome hmatrix :=
  let str := cstr str in
  if strlen str =? 0 then Done m
  else
    match sscanf_d_colon_d str with
    | None => Fatal "Invalid split string '%s'."
    | Some (blocks, index) => hmatrix_split_blocks m blocks index
    end.

(** [hmatrix_xrange(m, x)] and [hmatrix_yrange(m, y)]. *)
Definition hmatrix_xrange (m : hmatrix) (xs : string) : logged hmatrix :=
  r <- parse_range (x m) xs (num m) ;; ret (set_x m r).

Definition hmatrix_yrange (m : hmatrix) (ys : string) : logged hmatrix :=
  r <- parse_range (y m) ys (num m) ;; ret (set_y m r).

(** [hmatrix_alloc(m)]: the matrix after the call; [values] is the pointer
    the function returns.  [calloc_ok] tells whether [calloc] succeeds. *)
Definition hmatrix_alloc (calloc_ok : bool) (m : hmatrix) : logged hmatrix :=
  let xl := (r_n (x m) [-] r_i (x m)) in
  let yl := (r_n (y m) [-] r_i (y m)) in
  let m :=
    if (r_n (x m) =? r_n (y m)) && (r_i (x m) =? r_i (y m))
    then set_shape m true (xl [*] (xl [-] 1) [/] 2 [+] xl)
    else set_shape m false (xl [*] yl) in
  if calloc_ok then ret (set_values m (Some (replicate (Z.to_nat (size m)) fzero)))
  else error "Could not allocate matrix for similarity values" ;;;
       ret (set_values m None).

(** The index [idx] that [hmatrix_set] computes. *)
Definition hmatrix_set_idx (m : hmatrix) (x0 y0 : Z) : Z :=
  if triangular m then
    let (i, j) :=
      if (x0 [-] r_i (x m)) >? (y0 [-] r_i (y m))
      then ((y0 [-] r_i (y m)), (x0 [-] r_i (x m)))
      else ((x0 [-] r_i (x m)), (y0 [-] r_i (y m))) in
    ((j [-] i) [+] i [*] (r_n (x m) [-] r_i (x m)) [-] i [*] (i [-] 1) [/] 2)
  else
    ((x0 [-] r_i (x m)) [+] (y0 [-] r_i (y m)) [*] (r_n (x m) [-] r_i (x m))).

(** The index [idx] that [hmatrix_get] computes: the base of a row uses
    [m->x.n - m->y.i]. *)
Definition hmatrix_get_idx (m : hmatrix) (x0 y0 : Z) : Z :=
  if triangular m then
    let (i, j) :=
      if (x0 [-] r_i (x m)) >? (y0 [-] r_i (y m))
      then ((y0 [-] r_i (y m)), (x0 [-] r_i (x m)))
      else ((x0 [-] r_i (x m)), (y0 [-] r_i (y m))) in
    ((j [-] i) [+] i [*] (r_n (x m) [-] r_i (y m)) [-] i [*] (i [-] 1) [/] 2)
  else
    ((x0 [-] r_i (x m)) [+] (y0 [-] r_i (y m)) [*] (r_n (x m) [-] r_i (x m))).

(** [hmatrix_set(m, x, y, f)]. *)
Definition hmatrix_set (m : hmatrix) (x0 y0 : Z) (f : float) : option hmatrix :=
  let idx := hmatrix_set_idx m x0 y0 in
  if idx <? size m then
    match values m with
    | Some v =>
        if (0 <=? idx) && (idx <? Z.of_nat (length v))
        then Some (set_values m (Some (<[Z.to_nat idx := f]> v)))
        else None
    | None => None
    end
  else None.

(** [hmatrix_get(m, x, y)]. *)
Definition hmatrix_get (m : hmatrix) (x0 y0 : Z) : option float :=
  let idx := hmatrix_get_idx m x0 y0 in
  if idx <? size m then
    match values m with
    | Some v => at_index v idx
    | None => None
    end
  else None.

(** The body of the two loops of [hmatrix_compute].  The state is the
    matrix and the pairs on which [measure] has been called, in order.
    The progress bar and the log line do not touch the matrix and are
    left out. *)
Definition compute_cell (s : list hstring_t)
  (measure : hstring_t -> hstring_t -> double) (i j : Z)
  (st : hmatrix * list (Z * Z)) : option (hmatrix * list (Z * Z)) :=
  let (m, calls) := st in
  let xi := (i [+] r_i (x m)) in
  let yi := (j [+] r_i (y m)) in
  if triangular m && (yi >? xi) then Some st
  else
    match at_index s xi, at_index s yi with
    | Some sx, Some sy =>
        let f := d2f (measure sx sy) in
        match hmatrix_set m xi yi f with
        | Some m' => Some (m', calls ++ [(xi, yi)])
        | None => None
        end
    | _, _ => None
    end.

(** [hmatrix_compute(m, s, measure)], the iterations taken in the order of
    the loops. *)
Definition hmatrix_compute (m : hmatrix) (s : list hstring_t)
  (measure : hstring_t -> hstring_t -> double)
  : option (hmatrix * list (Z * Z)) :=
  for_int 0 (r_n (x m) [-] r_i (x m))
    (fun i => for_int 0 (r_n (y m) [-] r_i (y m)) (compute_cell s measure i))
    (m, []).

End Matrix.

End HMatrix.

(** ** String functions ([src/str.c]) *)

Module Str.
Import CString.

(** Modelled from the spec: [str_t] and the tags [TYPE_CHAR] and
    [TYPE_SYM] are declared in [str.h], which is not among the sources; a
    string is a tagged union of a byte sequence and a token sequence with
    the attributes [len], [idx] and [src]. *)
Inductive str_type : Type := TYPE_CHAR | TYPE_SYM.

(** What the pointer of the union [str] points to: characters, as byte
    values from 0 to 255, or symbols. *)
Inductive payload : Type :=
| Chars (c : list Z)
| Syms (s : list Z).

(** [str_t].  [None] in [str] is the NULL pointer. *)
Record str_t : Type := mk_str {
  type : str_type;
  str : option payload;
  len : Z;
  idx : Z;
  src : option string
}.

(** The byte values of a string literal. *)
Definition bytes_of (s : string) : list Z := map code (list_ascii_of_string s).

(** A [char] holding the byte [b], promoted to [int] ([char] is signed). *)
Definition char_to_int (b : Z) : Z := if b <? 128 then b else b - 256.

(** [(unsigned int) c] for a [char] holding the byte [b]. *)
Definition char_to_uint (b : Z) : Z := char_to_int b mod 4294967296.

(** [(char) v] as a byte value. *)
Definition int_to_byte (v : Z) : Z := v mod 256.

(** The value of a hexadecimal digit. *)
Definition hexval (c : Z) : option Z :=
  if (48 <=? c) && (c <=? 57) then Some (c - 48)
  else if (97 <=? c) && (c <=? 102) then Some (c - 87)
  else if (65 <=? c) && (c <=? 70) then Some (c - 55)
  else None.

(** [sscanf(buf, "%x", &j)] on [buf = "0x" c1 c2]: the digits after the
    prefix up to the first byte that is no hexadecimal digit.  With no
    digit after [0x] the C library that the program runs with (glibc)
    takes the [0] of the prefix as the number: the conversion succeeds
    and 0 is stored.  [None] is a conversion that stores nothing. *)
Definition sscanf_x (c1 c2 : Z) : option Z :=
  match hexval c1 with
  | None => Some 0
  | Some h1 =>
      match hexval c2 with
      | Some h2 => Some (16 * h1 + h2)
      | None => Some h1
      end
  end.

(** [delim[k] = 1] for an [unsigned int] index. *)
Definition flag (delim : list Z) (k : Z) : option (list Z) :=
  if (0 <=? k) && (k <? Z.of_nat (length delim))
  then Some (<[Z.to_nat k := 1]> delim) else None.

(** The loop of [str_delim_set] from position [i] on; [s] is the string
    from [s[i]] and [j] the current content of the variable [j]. *)
Fixpoint delim_loop (s : string) (j : Z) (delim : list Z) : option (list Z) :=
  match s with
  | EmptyString => Some delim
  | String c t =>
      if negb (code c =? 37) then
        match flag delim (char_to_uint (code c)) with
        | Some d => delim_loop t j d
        | None => None
        end
      else
        match t with
        | EmptyString => Some delim
        | String c1 t1 =>
            let c2 := match t1 with String c2 _ => code c2 | EmptyString => 0 end in
            let j := match sscanf_x (code c1) c2 with Some v => v | None => j end in
            match flag delim j with
            | Some d =>
                match t1 with
                | String _ t2 => delim_loop t2 j d
                | EmptyString => Some d
                end
            | None => None
            end
        end
  end.

Section Strings.
(** The constant [DELIM_NOT_INIT] of [str.h]. *)
Variable DELIM_NOT_INIT : Z.
(** [hash_str(s, l)] on the [l] bytes at [s]. *)
Variable hash_str : list Z -> Z.
(** The conversion [(sym_t) hash]. *)
Variable sym_of_hash : Z -> Z.
(** [MurmurHash64B(key, len, seed)] on the [len] bytes at [key]. *)
Variable MurmurHash64B : list Z -> Z -> Z.
(** The bytes that an array of [sym_t] occupies, and [sizeof(sym_t)]. *)
Variable sym_bytes : list Z -> list Z.
Variable sizeof_sym : Z.

(** [char delim[256] = { DELIM_NOT_INIT }]. *)
Definition delim_initial : list Z := DELIM_NOT_INIT :: replicate 255 0.

(** [str_delim_reset()]. *)
Definition str_delim_reset (delim : list Z) : list Z := <[0%nat := DELIM_NOT_INIT]> delim.

(** [str_has_delim()]. *)
Definition str_has_delim (delim : list Z) : bool :=
  match delim !! 0%nat with
  | Some v => negb (v =? DELIM_NOT_INIT)
  | None => false
  end.

(** [str_delim_set(s)] on the table [delim]; [j0] is the indeterminate
    initial content of the variable [j]. *)
Definition str_delim_set (j0 : Z) (delim : list Z) (s : string) : option (list Z) :=
  let s := cstr s in
  if strlen s =? 0 then Some (str_delim_reset delim)
  else delim_loop s j0 (replicate (length delim) 0).

(** Whether the table flags the byte [b]: [delim[b]] is not zero. *)
Definition is_delim (delim : list Z) (b : Z) : option bool :=
  match at_index delim b with
  | Some v => Some (negb (v =? 0))
  | None => None
  end.

(** [for (dlm = 0; !delim[(unsigned char) dlm] && dlm < 256; dlm++);] *)
Fixpoint find_dlm (steps : nat) (dlm : Z) (delim : list Z) : option Z :=
  match steps with
  | O => None
  | S k =>
      match is_delim delim (dlm mod 256) with
      | Some d =>
          if negb d && (dlm <? 256) then find_dlm k (dlm + 1) delim else Some dlm
      | None => None
      end
  end.

(** The body of the loop that removes redundant delimiters; the state is
    the buffer [x.str.c] and [j]. *)
Definition squeeze (delim : list Z) (dlm : Z) (i : Z) (st : list Z * Z)
  : option (list Z * Z) :=
  let (c, j) := st in
  match at_index c i with
  | None => None
  | Some ci =>
      match is_delim delim ci with
      | None => None
      | Some true =>
          if j =? 0 then Some st
          else
            match at_index c (j - 1) with
            | None => None
            | Some cj =>
                match is_delim delim cj with
                | None => None
                | Some true => Some st
                | Some false => Some (<[Z.to_nat j := int_to_byte dlm]> c, j + 1)
                end
            end
      | Some false => Some (<[Z.to_nat j := ci]> c, j + 1)
      end
  end.

(** The bytes [c + wstart] up to [c + i]. *)
Definition slice (c : list Z) (wstart i : Z) : list Z :=
  take (Z.to_nat (i - wstart)) (drop (Z.to_nat wstart) c).

(** The body of the loop that extracts words; the state is [wstart] and
    the symbols written to [sym] so far, [cap] the length of [sym]. *)
Definition extract (c : list Z) (j dlm cap : Z) (i : Z) (st : Z * list Z)
  : option (Z * list Z) :=
  let (wstart, sym) := st in
  let at_end :=
    if i =? j then Some true
    else match at_index c i with
         | Some ci => Some (char_to_int ci =? dlm)
         | None => None
         end in
  match at_end with
  | None => None
  | Some b =>
      if b && (i - wstart >? 0) then
        if Z.of_nat (length sym) <? cap
        then Some (i + 1, sym ++ [sym_of_hash (hash_str (slice c wstart i))])
        else None
      else Some st
  end.

(** [realloc(sym, k * sizeof(sym_t))] for the [k] symbols written: the
    block shrunk to the symbols.  With [k = 0] the size is 0, and the C
    library that the program runs with (glibc) frees the block and
    returns NULL. *)
Definition realloc_syms (sym : list Z) : option payload :=
  match sym with
  | [] => None
  | _ :: _ => Some (Syms sym)
  end.

(** [str_symbolize(x)] with the delimiter table [delim]; [malloc_ok] tells
    whether [malloc] succeeds.  The outer [None] is an access outside an
    array or through a pointer that does not point to characters. *)
Definition str_symbolize (malloc_ok : bool) (delim : list Z) (x : str_t)
  : option (logged str_t) :=
  if negb malloc_ok then
    Some (error "Failed to allocate memory for symbols" ;;; ret x)
  else
    match find_dlm 257 0 delim, str x with
    | Some dlm, Some (Chars c) =>
        match for_int 0 (len x) (squeeze delim dlm) (c, 0) with
        | Some (c', j) =>
            match for_int 0 (j + 1) (extract c' j dlm (Z.quot (len x) 2 + 1)) (0, []) with
            | Some (_, sym) =>
                Some (ret (mk_str TYPE_SYM (realloc_syms sym) (Z.of_nat (length sym))
                             (idx x) (src x)))
            | None => None
            end
        | None => None
        end
    | Some dlm, None =>
        if len x <=? 0 then
          Some (ret (mk_str TYPE_SYM (realloc_syms []) 0 (idx x) (src x)))
        else None
    | _, _ => None
    end.

(** [str_convert(x, s)]: [strdup] copies the characters and the NUL that
    ends them. *)
Definition str_convert (x : str_t) (s : string) : str_t :=
  mk_str TYPE_CHAR (Some (Chars (bytes_of (cstr s) ++ [0]))) (strlen (cstr s)) 0 None.

(** The bytes of the memory a payload occupies. *)
Definition mem_bytes (p : payload) : list Z :=
  match p with
  | Chars c => c
  | Syms s => sym_bytes s
  end.

Definition hash_mem (p : payload) (nbytes : Z) : Z :=
  MurmurHash64B (take (Z.to_nat nbytes) (mem_bytes p)) 12648430.

(** [str_hash1(x)]. *)
Definition str_hash1 (x : str_t) : logged Z :=
  match type x, str x with
  | TYPE_CHAR, Some p => ret (hash_mem p (1 * len x))
  | TYPE_SYM, Some p => ret (hash_mem p (sizeof_sym * len x))
  | _, None => warning "Nothing to hash. String is missing" ;;; ret 0
  end.

(** [str_hash2(x, y)]. *)
Definition str_hash2 (x y : str_t) : logged Z :=
  match type x, type y, str x, str y with
  | TYPE_CHAR, TYPE_CHAR, Some px, Some py =>
      let a := hash_mem px (1 * len x) in
      let b := hash_mem py (1 * len y) in
      ret (Z.lxor a b)
  | TYPE_SYM, TYPE_SYM, Some px, Some py =>
      let a := hash_mem px (sizeof_sym * len x) in
      let b := hash_mem py (sizeof_sym * len y) in
      ret (Z.lxor a b)
  | _, _, _, _ =>
      warning "Nothing to hash. Strings are missing or incompatible." ;;; ret 0
  end.

End Strings.

End Str.

(** ** The output interface ([src/output/output.c]) *)

Module Output.
Import CString.

(** [tolower] in the C locale. *)
Definition tolower (c : Z) : Z :=
  if (65 <=? c) && (c <=? 90) then c + 32 else c.

(** [strcasecmp(a, b)]: the difference of the first two bytes that differ
    after [tolower], 0 when there is none. *)
Fixpoint strcasecmp (a b : string) : Z :=
  match a, b with
  | EmptyString, EmptyString => 0
  | EmptyString, String y _ => 0 - tolower (code y)
  | String x _, EmptyString => tolower (code x)
  | String x a', String y b' =>
      if tolower (code x) =? tolower (code y) then strcasecmp a' b'
      else tolower (code x) - tolower (code y)
  end.

(** Modelled from the spec: the functions of the two output modules are
    declared in [output_text.h] and [output_libsvm.h], which are not among
    the sources.  A function pointer is the name of the function it
    points to. *)
Inductive open_fn : Type := output_text_open | output_libsvm_open.
Inductive write_fn : Type := output_text_write | output_libsvm_write.
Inductive close_fn : Type := output_text_close | output_libsvm_close.

(** [output_t]; [None] is the NULL pointer. *)
Record output_t : Type := mk_output {
  output_open_ptr : option open_fn;
  output_write_ptr : option write_fn;
  output_close_ptr : option close_fn
}.

(** [static output_t func]: an object of static storage starts with NULL
    pointers. *)
Definition func_initial : output_t := mk_output None None None.

(** [output_config(format)] on the table [func]: the table after the call
    and the messages printed.  The function calls itself; [fuel] bounds
    the depth of the calls, and [None] is a depth that exceeds it. *)
Fixpoint output_config (fuel : nat) (func : output_t) (format : string)
  : option (logged output_t) :=
  match fuel with
  | O => None
  | S k =>
      let format := cstr format in
      if strcasecmp format "text" =? 0 then
        Some (ret (mk_output (Some output_text_open) (Some output_text_write)
                     (Some output_text_close)))
      else if strcasecmp format "libsvm" =? 0 then
        Some (ret (mk_output (Some output_libsvm_open) (Some output_libsvm_write)
                     (Some output_libsvm_close)))
      else
        match output_config k func "text" with
        | Some c =>
            Some (error "Unknown ouptut format '%s', using 'text' instead." ;;; c)
        | None => None
        end
  end.

(** The wrappers [output_open(name)], [output_write(m)] and
    [output_close()]: the call that each makes, the function with its
    argument; [None] is a call through a NULL pointer. *)
Definition output_open {A} (func : output_t) (name : A) : option (open_fn * A) :=
  match output_open_ptr func with
  | Some f => Some (f, name)
  | None => None
  end.

Definition output_write {M} (func : output_t) (m : M) : option (write_fn * M) :=
  match output_write_ptr func with
  | Some f => Some (f, m)
  | None => None
  end.

Definition output_close (func : output_t) : option close_fn :=
  output_close_ptr func.

End Output.

(** * Notions used in the statements *)

(** ** The packed triangle *)

Module Triangle.

(** The index of the cell in row [i] and column [j] of a packed triangle
    with rows of length [xl], [xl - 1], ... *)
Definition tri (xl i j : Z) : Z := (j - i) + i * xl - Z.quot (i * (i - 1)) 2.

(** The number of cells of a triangle, as [hmatrix_alloc] computes it. *)
Definition tri_size (xl : Z) : Z := Z.quot (xl * (xl - 1)) 2 + xl.

(** The first index of row [k]. *)
Definition row_base (xl k : Z) : Z := k * xl - Z.quot (k * (k - 1)) 2.

End Triangle.

(** ** Configured and allocated matrices *)

Module MatrixSpec.
Import HMatrix.

Section Spec.
Context {float : Type}.
Local Abbreviation hmatrix := (hmatrix_t float).

(** [z] lies in the half-open interval [r]. *)
Definition in_range (r : range_t) (z : Z) : Prop := r_i r <= z < r_n r.

Definition xlen (m : hmatrix) : Z := r_n (x m) - r_i (x m).
Definition ylen (m : hmatrix) : Z := r_n (y m) - r_i (y m).

(** The test of [hmatrix_alloc] for a symmetric matrix. *)
Definition same_range (m : hmatrix) : bool :=
  (r_n (x m) =? r_n (y m)) && (r_i (x m) =? r_i (y m)).

(** The ranges of a configured matrix hold values of type [int], the
    x range is not inverted and no range starts below 0. *)
Definition ranges_ok (m : hmatrix) : Prop :=
  0 <= r_i (x m) <= r_n (x m) /\ r_n (x m) <= CInt.INT_MAX /\
  0 <= r_i (y m) <= CInt.INT_MAX /\ 0 <= r_n (y m) <= CInt.INT_MAX.

(** The products that [hmatrix_alloc] and [hmatrix_set] form fit in an
    [int]. *)
Definition fits_int (m : hmatrix) : Prop :=
  if same_range m then xlen m * (xlen m - 1) <= CInt.INT_MAX
  else - CInt.INT_MAX <= xlen m * ylen m <= CInt.INT_MAX.

(** The matrices that [hmatrix_set] produces from [m1]. *)
Inductive filled (m1 : hmatrix) : hmatrix -> Prop :=
| filled_start : filled m1 m1
| filled_set m a b f m' :
    filled m1 m -> hmatrix_set m a b f = Some m' -> filled m1 m'.

(** What [hmatrix_alloc] establishes on [m0] and [hmatrix_set] keeps. *)
Definition shaped (m0 m : hmatrix) : Prop :=
  x m = x m0 /\ y m = y m0 /\ triangular m = same_range m0 /\
  size m = (if same_range m0 then Triangle.tri_size (xlen m0)
            else xlen m0 * ylen m0).

Definition allocated (m0 m : hmatrix) : Prop :=
  shaped m0 m /\
  exists v, values m = Some v /\ Z.of_nat (length v) = Z.max 0 (size m).

End Spec.
End MatrixSpec.

(** ** The state of the compute loops *)

Module ComputeSpec.
Import HMatrix MatrixSpec.

Section Spec.
Context {float double hstring_t : Type}.
Variable d2f : double -> float.
Variable s : list hstring_t.
Variable measure : hstring_t -> hstring_t -> double.
Variable m0 : hmatrix_t float.

(** The pair is one that the loops evaluate. *)
Definition kept (xi yi : Z) : Prop :=
  in_range (x m0) xi /\ in_range (y m0) yi /\ (same_range m0 = true -> yi <= xi).

(** The pair comes before [(xi, yi)] in the order of the loops. *)
Definition before (xi yi a b : Z) : Prop := a < xi \/ (a = xi /\ b < yi).

(** The state of the loops on reaching the pair [(xi, yi)]: the matrix is
    allocated, the pairs evaluated so far hold their values, and
    [measure] was called on pairs that are kept only. *)
Definition compute_inv (xi yi : Z) (st : hmatrix_t float * list (Z * Z)) : Prop :=
  allocated m0 (fst st) /\
  (forall a b sx sy, kept a b -> before xi yi a b ->
     at_index s a = Some sx -> at_index s b = Some sy ->
     exists vs, values (fst st) = Some vs /\
       vs !! Z.to_nat (hmatrix_set_idx (fst st) a b) = Some (d2f (measure sx sy))) /\
  (forall a b, In (a, b) (snd st) -> kept a b).

End Spec.
End ComputeSpec.

(** ** Range strings *)

Module RangeSpec.
Import HMatrix CString.

(** The constraints of a range within [0, N). *)
Definition valid_range (N : Z) (r : range_t) : Prop :=
  0 <= r_i r /\ r_n r <= N /\ r_i r < r_n r.

Definition valid_rangeb (N : Z) (r : range_t) : bool :=
  (0 <=? r_i r) && (r_n r <=? N) && (r_i r <? r_n r).

(** A side of a range string that is not empty and that [strtol] does not
    read to its end: the side for which [parse_range] prints that it
    could not parse it. *)
Definition junk (side : string) : bool :=
  negb (strlen side =? 0) && negb (strlen (snd (strtol side)) =? 0).

(** What [parse_range] stores for a side: the default for an empty side,
    the result of [strtol] converted to [int] for a side that [strtol]
    reads to its end, and the default it came with otherwise. *)
Definition stored_value (side : string) (dflt : Z) : Z :=
  if strlen side =? 0 then dflt
  else if strlen (snd (strtol side)) =? 0 then CInt.to_int (fst (strtol side))
  else dflt.

(** The range that [parse_range] holds on reaching the sanity checks,
    with [N] added to a negative end. *)
Definition stored_range (N : Z) (l rt : string) : range_t :=
  let n := stored_value rt N in
  mk_range (stored_value l 0) (if n <? 0 then N + n else n).

(** The grammar of the specification, [range := int? ':' int?].  The
    value of a sequence of decimal digits; [None] when a character is no
    digit. *)
Fixpoint digits_value (acc : Z) (s : string) : option Z :=
  match s with
  | EmptyString => Some acc
  | String c t =>
      if isdigit c then digits_value (10 * acc + (code c - 48)) t else None
  end.

(** The integer that a side denotes when it is an int: optional white
    space, an optional sign and one or more decimal digits.  The value is
    the number written, however large; [None] for a side that is no
    int. *)
Definition number (side : string) : option Z :=
  let (neg, s2) := scan_sign (skip_space side) in
  match s2 with
  | EmptyString => None
  | String _ _ =>
      match digits_value 0 s2 with
      | Some v => Some (if neg then - v else v)
      | None => None
      end
  end.

(** The value of a side: a missing int means the default, and so does a
    side that is no int. *)
Definition side_denotes (side : string) (dflt : Z) : Z :=
  match number side with
  | Some v => v
  | None => dflt
  end.

(** The range that the two sides of a range string denote: a negative
    right int means [N + value]. *)
Definition denoted_range (N : Z) (l rt : string) : range_t :=
  let n := side_denotes rt N in
  mk_range (side_denotes l 0) (if n <? 0 then N + n else n).

End RangeSpec.

(** ** Blocks of a split *)

Module SplitSpec.
Import HMatrix MatrixSpec.

(** The integer above [a / b]. *)
Definition ceil_div (a b : Z) : Z := (a + b - 1) / b.

(** The block of the specification: with [height] the integer above
    [(y.n - y.i) / blocks], the range from [y.i + index * height] to the
    smaller of [y.n] and [y.i + (index + 1) * height]. *)
Definition split_block {float} (m : hmatrix_t float) (blocks index : Z) : range_t :=
  let height := ceil_div (ylen m) blocks in
  mk_range (r_i (y m) + index * height)
           (Z.min (r_n (y m)) (r_i (y m) + (index + 1) * height)).

(** The height as the source computes it, in single precision. *)
Definition c_height {float} (m : hmatrix_t float) (blocks : Z) : Z :=
  Float32.ceil_to_int
    (Float32.fdiv (Float32.of_int (ylen m)) (Float32.of_int blocks)).

End SplitSpec.

(** ** Configurations *)

Module ConfigSpec.
Import HMatrix.

(** The configuration of a matrix in the order of the specification: the
    x range, the y range, the split; an empty string leaves the matrix as
    it is.  [None] when [hmatrix_split] is fatal. *)
Definition configure {float} (m : hmatrix_t float) (xs ys sp : string)
  : option (hmatrix_t float) :=
  let m1 := fst (hmatrix_xrange m xs) in
  let m2 := fst (hmatrix_yrange m1 ys) in
  match hmatrix_split m2 sp with
  | Done m3 => Some m3
  | Fatal _ => None
  end.

End ConfigSpec.

(** ** Delimiter specifications *)

Module DelimSpec.
Import Str CString.

(** The bytes that a delimiter specification denotes: [%HH] denotes the
    byte with the hexadecimal value [HH], every other byte denotes
    itself.  A ['%'] that is not followed by two hexadecimal digits
    denotes nothing and ends the denotation. *)
Fixpoint denoted (s : string) : list Z :=
  match s with
  | EmptyString => []
  | String c t =>
      if negb (code c =? 37) then code c :: denoted t
      else
        match t with
        | String c1 (String c2 t2) =>
            match hexval (code c1), hexval (code c2) with
            | Some h1, Some h2 => (16 * h1 + h2) :: denoted t2
            | _, _ => []
            end
        | _ => []
        end
  end.

(** A specification in which every byte that stands for itself is a
    character of ASCII other than NUL, and every ['%'] is followed by two
    hexadecimal digits. *)
Fixpoint well_formed (s : string) : bool :=
  match s with
  | EmptyString => true
  | String c t =>
      if negb (code c =? 37) then (0 <? code c) && (code c <? 128) && well_formed t
      else
        match t with
        | String c1 (String c2 t2) =>
            match hexval (code c1), hexval (code c2) with
            | Some _, Some _ => well_formed t2
            | _, _ => false
            end
        | _ => false
        end
  end.

End DelimSpec.

(** ** Matrices and tables of the examples *)

Module Examples.
Import HMatrix.

(** A matrix over three strings as [hmatrix_init] leaves it, with [Z] for
    the type [float]. *)
Definition m3 : hmatrix_t Z :=
  mk_hmatrix 3 (mk_range 0 3) (mk_range 0 3) true 0 None None None.

(** A matrix over ten strings as [hmatrix_init] leaves it. *)
Definition m10 : hmatrix_t Z :=
  mk_hmatrix 10 (mk_range 0 10) (mk_range 0 10) true 0 None None None.

(** A matrix over 46342 strings as [hmatrix_init] leaves it. *)
Definition m46342 : hmatrix_t Z :=
  mk_hmatrix 46342 (mk_range 0 46342) (mk_range 0 46342) true 0 None None None.

(** A matrix over 2^24 + 1 strings as [hmatrix_init] leaves it, and the
    same with the x range 0:1. *)
Definition m_all : hmatrix_t Z :=
  mk_hmatrix 16777217 (mk_range 0 16777217) (mk_range 0 16777217) true 0
    None None None.

Definition m_big : hmatrix_t Z :=
  mk_hmatrix 16777217 (mk_range 0 1) (mk_range 0 16777217) true 0 None None None.

(** A matrix whose flag [triangular] is set although its ranges differ;
    [hmatrix_alloc] never leaves such a matrix. *)
Definition m_off : hmatrix_t Z :=
  mk_hmatrix 3 (mk_range 1 3) (mk_range 0 3) true 3 (Some [0; 0; 0]) None None.

(** The delimiter table in which the space is the only delimiter. *)
Definition space_only : list Z := <[32%nat := 1]> (replicate 256 0).

End Examples.

(** ** The calls of the compute loops *)

Module CallSpec.
Import HMatrix MatrixSpec ComputeSpec.

Section Spec.
Context {float : Type}.
Variable m0 : hmatrix_t float.

(** The number of pairs that the loops evaluate before they reach row
    [i] and column [j], both counted from the start of the ranges. *)
Definition evaluated (i j : Z) : Z :=
  if same_range m0 then Triangle.tri_size i + Z.min j (i + 1)
  else i * Z.max 0 (ylen m0) + j.

(** The calls made on reaching row [i] and column [j]: the pairs kept
    that come before, each once. *)
Definition calls_inv (i j : Z) (calls : list (Z * Z)) : Prop :=
  NoDup calls /\
  (forall a b, In (a, b) calls <->
     kept m0 a b /\ before (i + r_i (x m0)) (j + r_i (y m0)) a b) /\
  Z.of_nat (length calls) = evaluated i j.

End Spec.
End CallSpec.

(** ** Numbers in decimal *)

Module DecimalSpec.
Import CString.

(** The character of a decimal digit. *)
Definition digit (d : Z) : ascii := ascii_of_N (Z.to_N (48 + d)).

Fixpoint decimal_fuel (fuel : nat) (n : Z) : string :=
  match fuel with
  | O => EmptyString
  | S k =>
      if n <? 10 then String (digit n) EmptyString
      else (decimal_fuel k (n / 10) ++ String (digit (n mod 10)) EmptyString)%string
  end.

(** A natural number written in decimal, without a sign and without
    leading zeros. *)
Definition decimal (n : Z) : string := decimal_fuel (S (Z.to_nat (Z.log2 n))) n.

(** An integer written in decimal, with a minus sign when negative. *)
Definition signed_decimal (z : Z) : string :=
  if z <? 0 then String "-" (decimal (- z)) else decimal z.

(** The string [a:b] of a range or of a split. *)
Definition colon_string (a b : Z) : string :=
  (decimal a ++ String ":" (signed_decimal b))%string.

(** A string of decimal digits. *)
Fixpoint all_digits (s : string) : bool :=
  match s with
  | EmptyString => true
  | String c t => isdigit c && all_digits t
  end.

End DecimalSpec.

(** ** Delimiter tables *)

Module TableSpec.
Import Str CString.

(** A specification of ASCII characters only. *)
Fixpoint ascii_only (s : string) : bool :=
  match s with
  | EmptyString => true
  | String c t => (code c <? 128) && ascii_only t
  end.

(** A sequence of characters of ASCII that stand for themselves. *)
Fixpoint literal (s : string) : bool :=
  match s with
  | EmptyString => true
  | String c t =>
      (0 <? code c) && (code c <? 128) && negb (code c =? 37) && literal t
  end.

(** A table whose entries are 0 or 1. *)
Definition binary (d : list Z) : Prop := Forall (fun v => v = 0 \/ v = 1) d.

(** A byte value. *)
Definition byte (b : Z) : Prop := 0 <= b < 256.

(** The table flags the byte [b]. *)
Definition flagged (delim : list Z) (b : Z) : bool :=
  match is_delim delim b with
  | Some true => true
  | _ => false
  end.

(** The byte [b] is one that the delimiter specification denotes. *)
Definition delimiter_of (spec : string) (b : Z) : bool :=
  existsb (Z.eqb b) (DelimSpec.denoted spec).

End TableSpec.

(** ** Words *)

Module WordSpec.
Import Str.

(** The words of a byte sequence: its maximal runs of bytes that are no
    delimiters, in order; [cur] is the run being read. *)
Fixpoint words_from (isd : Z -> bool) (cur : list Z) (c : list Z) : list (list Z) :=
  match c with
  | [] => match cur with [] => [] | _ => [cur] end
  | b :: t =>
      if isd b then
        match cur with
        | [] => words_from isd [] t
        | _ => cur :: words_from isd [] t
        end
      else words_from isd (cur ++ [b]) t
  end.

Definition words (isd : Z -> bool) (c : list Z) : list (list Z) :=
  words_from isd [] c.

(** The same, reading from the left: the words completed and the run
    being read. *)
Definition word_step (isd : Z -> bool) (st : list (list Z) * list Z) (b : Z)
  : list (list Z) * list Z :=
  let (ws, cur) := st in
  if isd b then
    match cur with
    | [] => (ws, [])
    | _ => (ws ++ [cur], [])
    end
  else (ws, cur ++ [b]).

(** What the first loop of [str_symbolize] has written after each byte it
    reads: a delimiter adds the byte [dlmb] unless the output is empty or
    ends with a delimiter, any other byte is copied. *)
Definition squeeze_step (isd : Z -> bool) (dlmb : Z) (out : list Z) (b : Z) : list Z :=
  if isd b then
    match list.last out with
    | None => out
    | Some p => if isd p then out else out ++ [dlmb]
    end
  else out ++ [b].

Definition squeezed (isd : Z -> bool) (dlmb : Z) (c : list Z) : list Z :=
  fold_left (squeeze_step isd dlmb) c [].

(** What the second loop has done after each byte: the bytes since
    [wstart] and the symbols written. *)
Definition extract_step (h : list Z -> Z) (dlm : Z) (st : list Z * list Z) (b : Z)
  : list Z * list Z :=
  let (cur, sym) := st in
  if (char_to_int b =? dlm) && (0 <? Z.of_nat (length cur))
  then ([], sym ++ [h cur])
  else (cur ++ [b], sym).

Definition extracted (h : list Z -> Z) (dlm : Z) (out : list Z) : list Z :=
  let (cur, sym) := fold_left (extract_step h dlm) out ([], []) in
  if 0 <? Z.of_nat (length cur) then sym ++ [h cur] else sym.

End WordSpec.

(** ** Output modules *)

Module OutputSpec.
Import CString Output.

(** The bytes of a string in lower case. *)
Definition lowercase (s : string) : list Z :=
  map (fun c => tolower (code c)) (list_ascii_of_string s).

(** The output modules. *)
Inductive module : Type := Text | Libsvm.

(** The table of a module. *)
Definition table (m : module) : output_t :=
  match m with
  | Text => mk_output (Some output_text_open) (Some output_text_write)
              (Some output_text_close)
  | Libsvm => mk_output (Some output_libsvm_open) (Some output_libsvm_write)
                (Some output_libsvm_close)
  end.

(** The module that a format name selects, and whether the name is
    known. *)
Definition selected (format : string) : module * bool :=
  if decide (lowercase (cstr format) = lowercase "text") then (Text, true)
  else if decide (lowercase (cstr format) = lowercase "libsvm") then (Libsvm, true)
  else (Text, false).

End OutputSpec.

(** ** More matrices, tables and strings of the examples *)

Module MoreExamples.
Import HMatrix Str.

(** The matrix over three strings with the x range 0:2, as
    [hmatrix_xrange] leaves it. *)
Definition m_rect : hmatrix_t Z :=
  mk_hmatrix 3 (mk_range 0 2) (mk_range 0 3) true 0 None None None.

(** The delimiter table in which the byte 200 is the only delimiter. *)
Definition high_only : list Z := <[200%nat := 1]> (replicate 256 0).

(** The three bytes ['a'], 200, ['b'] as a string structure. *)
Definition a200b : str_t := mk_str TYPE_CHAR (Some (Chars [97; 200; 98])) 3 0 None.

(** A hash for the examples: the sum of the bytes. *)
Definition sum_hash (key : list Z) : Z := fold_right Z.add 0 key.

End MoreExamples.

(** * Properties *)

(** ** C integers: operations that stay in range do not wrap *)

Module CIntFacts.
Import CInt.

Ltac int_bounds := unfold CInt.in_int, CInt.INT_MIN, CInt.INT_MAX in *.

Lemma to_int_id z : in_int z -> to_int z = z.
Proof.
  unfold in_int, INT_MIN, INT_MAX, to_int. intros H.
  rewrite Z.mod_small by lia. lia.
Qed.

Lemma to_int_range z : in_int (to_int z).
Proof.
  unfold in_int, INT_MIN, INT_MAX, to_int.
  pose proof (Z.mod_pos_bound (z + 2147483648) 4294967296). lia.
Qed.

Lemma add_exact a b : in_int (a + b) -> add a b = a + b.
Proof. apply to_int_id. Qed.

Lemma sub_exact a b : in_int (a - b) -> sub a b = a - b.
Proof. apply to_int_id. Qed.

Lemma mul_exact a b : in_int (a * b) -> mul a b = a * b.
Proof. apply to_int_id. Qed.

Lemma div_exact a b : in_int (Z.quot a b) -> div a b = Z.quot a b.
Proof. apply to_int_id. Qed.

End CIntFacts.

(** ** The packed triangle is a bijection *)

Module TriangleFacts.
Import Triangle.

Lemma twice_half i : 2 * Z.quot (i * (i - 1)) 2 = i * (i - 1).
Proof.
  assert (E : Z.rem (i * (i - 1)) 2 = 0).
  { apply Z.rem_divide; [lia|].
    destruct (Z.Even_or_Odd i) as [[k ->] | [k ->]].
    - exists (k * (2 * k - 1)). lia.
    - exists ((2 * k + 1) * k). lia. }
  pose proof (Z.quot_rem' (i * (i - 1)) 2). lia.
Qed.

Lemma tri_size_spec xl : 0 <= xl -> tri_size xl = xl * (xl + 1) / 2.
Proof.
  intros H. unfold tri_size. pose proof (twice_half xl) as E.
  apply Z.div_unique with (r := 0); lia.
Qed.

Lemma tri_range xl i j :
  0 <= i <= j -> j < xl -> 0 <= tri xl i j < tri_size xl.
Proof.
  intros H1 H2. unfold tri, tri_size.
  pose proof (twice_half i). pose proof (twice_half xl). nia.
Qed.

(** The rows follow one another: a cell of an earlier row is below every
    cell of a later row. *)
Lemma tri_rows xl i j i' j' :
  0 <= i <= j -> j < xl -> 0 <= i' <= j' -> j' < xl -> i < i' ->
  tri xl i j < tri xl i' j'.
Proof.
  intros H1 H2 H3 H4 H5. unfold tri.
  pose proof (twice_half i). pose proof (twice_half i'). nia.
Qed.

Lemma tri_inj xl i j i' j' :
  0 <= i <= j -> j < xl -> 0 <= i' <= j' -> j' < xl ->
  tri xl i j = tri xl i' j' -> i = i' /\ j = j'.
Proof.
  intros H1 H2 H3 H4 E.
  assert (i = i').
  { destruct (Z.lt_trichotomy i i') as [L | [L | L]]; [| exact L |].
    - pose proof (tri_rows xl i j i' j' H1 H2 H3 H4 L). lia.
    - pose proof (tri_rows xl i' j' i j H3 H4 H1 H2 L). lia. }
  subst i'. unfold tri in E. lia.
Qed.

Lemma row_base_succ xl k : row_base xl (k + 1) = row_base xl k + (xl - k).
Proof.
  unfold row_base. pose proof (twice_half k). pose proof (twice_half (k + 1)).
  replace (k + 1 - 1) with k in * by lia. nia.
Qed.

Lemma tri_onto_rows xl (n : nat) k :
  Z.of_nat n <= xl -> 0 <= k < row_base xl (Z.of_nat n) ->
  exists i j, 0 <= i <= j /\ j < xl /\ tri xl i j = k.
Proof.
  induction n as [| n IH]; intros Hn Hk.
  - unfold row_base in Hk. simpl in Hk. rewrite Z.quot_0_l in Hk; lia.
  - rewrite Nat2Z.inj_succ in Hk, Hn. unfold Z.succ in Hk.
    rewrite row_base_succ in Hk.
    destruct (Z_lt_le_dec k (row_base xl (Z.of_nat n))) as [L | L].
    + apply IH; lia.
    + exists (Z.of_nat n), (k - row_base xl (Z.of_nat n) + Z.of_nat n).
      unfold tri, row_base in *. lia.
Qed.

Lemma tri_onto xl k :
  0 <= xl -> 0 <= k < tri_size xl ->
  exists i j, 0 <= i <= j /\ j < xl /\ tri xl i j = k.
Proof.
  intros Hx Hk. apply (tri_onto_rows xl (Z.to_nat xl)); [lia|].
  rewrite Z2Nat.id by lia. unfold row_base, tri_size in *.
  pose proof (twice_half xl). nia.
Qed.

End TriangleFacts.

(** ** The index of [hmatrix_set] in an allocated matrix *)

Module MatrixFacts.
Import HMatrix MatrixSpec CIntFacts Triangle TriangleFacts.

Section Facts.
Context {float : Type}.
Variable fzero : float.
Local Abbreviation hmatrix := (hmatrix_t float).

Lemma same_range_true (m : hmatrix) :
  same_range m = true -> r_n (y m) = r_n (x m) /\ r_i (y m) = r_i (x m).
Proof. unfold same_range. intros H. apply andb_true_iff in H. lia. Qed.

Lemma tri_size_exact xl :
  0 <= xl -> xl * (xl - 1) <= CInt.INT_MAX ->
  xl [*] (xl [-] 1) [/] 2 [+] xl = tri_size xl.
Proof.
  intros H0 H1. unfold tri_size. pose proof (twice_half xl) as E.
  int_bounds.
  rewrite (sub_exact xl 1) by (int_bounds; nia).
  rewrite mul_exact by (int_bounds; nia).
  rewrite div_exact by (int_bounds; nia).
  rewrite add_exact by (int_bounds; nia). reflexivity.
Qed.

Lemma alloc_shaped (m0 : hmatrix) ok :
  ranges_ok m0 -> fits_int m0 -> shaped m0 (fst (hmatrix_alloc fzero ok m0)).
Proof.
  intros (Hx & Hxn & Hy & Hyn) Hf. unfold fits_int in Hf.
  unfold hmatrix_alloc, shaped. fold (same_range m0).
  rewrite !(sub_exact (r_n _) (r_i _)) by (int_bounds; lia).
  fold (xlen m0) (ylen m0).
  destruct (same_range m0) eqn:Hs, ok; cbn.
  1,2: rewrite tri_size_exact by (unfold xlen in *; lia); repeat split; reflexivity.
  all: rewrite mul_exact by (int_bounds; lia); repeat split; reflexivity.
Qed.

Lemma alloc_allocated (m0 : hmatrix) :
  ranges_ok m0 -> fits_int m0 -> allocated m0 (fst (hmatrix_alloc fzero true m0)).
Proof.
  intros Hr Hf. split; [apply alloc_shaped; assumption|].
  unfold hmatrix_alloc. cbn.
  eexists; split; [reflexivity|]. rewrite length_replicate. lia.
Qed.

Lemma set_allocated (m0 m m' : hmatrix) a b f :
  allocated m0 m -> hmatrix_set m a b f = Some m' -> allocated m0 m'.
Proof.
  intros ((Hx & Hy & Ht & Hs) & v & Hv & Hl) H. unfold hmatrix_set in H.
  destruct (hmatrix_set_idx m a b <? size m); [|discriminate].
  rewrite Hv in H.
  destruct ((0 <=? hmatrix_set_idx m a b) &&
            (hmatrix_set_idx m a b <? Z.of_nat (length v))); [|discriminate].
  injection H as <-. unfold allocated, shaped; cbn.
  repeat split; try assumption.
  eexists; split; [reflexivity|]. rewrite length_insert. exact Hl.
Qed.

Lemma filled_allocated (m0 m1 m : hmatrix) :
  allocated m0 m1 -> filled m1 m -> allocated m0 m.
Proof.
  intros H0 F. induction F as [| m a b f m' F IH S]; [exact H0|].
  eapply set_allocated; eassumption.
Qed.

(** In a matrix that [hmatrix_alloc] has shaped, the two index
    computations agree: the matrix is triangular only when the ranges are
    the same, and then [m->y.i] is [m->x.i]. *)
Lemma get_idx_set_idx (m0 m : hmatrix) a b :
  shaped m0 m -> hmatrix_get_idx m a b = hmatrix_set_idx m a b.
Proof.
  intros (Hx & Hy & Ht & _). unfold hmatrix_get_idx, hmatrix_set_idx.
  destruct (triangular m) eqn:T; [|reflexivity].
  symmetry in Ht. apply same_range_true in Ht. destruct Ht as [_ E].
  rewrite Hx, Hy, E. reflexivity.
Qed.

Lemma set_idx_tri (m0 m : hmatrix) a b :
  ranges_ok m0 -> fits_int m0 -> shaped m0 m -> same_range m0 = true ->
  in_range (x m0) a -> in_range (x m0) b ->
  hmatrix_set_idx m a b =
  tri (xlen m0) (Z.min (a - r_i (x m0)) (b - r_i (x m0)))
                (Z.max (a - r_i (x m0)) (b - r_i (x m0))).
Proof.
  intros (Hx & Hxn & Hy & Hyn) Hf (Ex & Ey & Et & _) Hs Ha Hb.
  unfold fits_int in Hf. rewrite Hs in Hf.
  destruct (same_range_true _ Hs) as [En Ei].
  unfold hmatrix_set_idx. rewrite Et, Hs, Ex, Ey, Ei.
  unfold in_range, xlen in *.
  set (o := r_i (x m0)) in *. set (e := r_n (x m0)) in *.
  rewrite (sub_exact a o), (sub_exact b o), (sub_exact e o) by (int_bounds; lia).
  assert (G : forall i j, 0 <= i <= j -> j < e - o ->
    (j [-] i) [+] i [*] (e - o) [-] i [*] (i [-] 1) [/] 2 = tri (e - o) i j).
  { intros i j H1 H2. unfold tri. pose proof (twice_half i) as E.
    rewrite (sub_exact j i) by (int_bounds; lia).
    rewrite (mul_exact i (e - o)) by (int_bounds; nia).
    rewrite (add_exact (j - i)) by (int_bounds; nia).
    rewrite (sub_exact i 1) by (int_bounds; lia).
    rewrite (mul_exact i (i - 1)) by (int_bounds; nia).
    rewrite div_exact by (int_bounds; nia).
    rewrite sub_exact by (int_bounds; nia). reflexivity. }
  destruct (Z.gtb_spec (a - o) (b - o)).
  - rewrite Z.min_r, Z.max_l by lia. apply G; lia.
  - rewrite Z.min_l, Z.max_r by lia. apply G; lia.
Qed.

Lemma set_idx_rect (m0 m : hmatrix) a b :
  ranges_ok m0 -> fits_int m0 -> shaped m0 m -> same_range m0 = false ->
  in_range (x m0) a -> in_range (y m0) b ->
  hmatrix_set_idx m a b = (a - r_i (x m0)) + (b - r_i (y m0)) * xlen m0.
Proof.
  intros (Hx & Hxn & Hy & Hyn) Hf (Ex & Ey & Et & _) Hs Ha Hb.
  unfold fits_int in Hf. rewrite Hs in Hf.
  unfold hmatrix_set_idx. rewrite Et, Hs, Ex, Ey.
  unfold in_range, xlen, ylen in *.
  rewrite (sub_exact a), (sub_exact b), (sub_exact (r_n _)) by (int_bounds; lia).
  rewrite mul_exact by (int_bounds; nia).
  rewrite add_exact by (int_bounds; nia). reflexivity.
Qed.

Lemma set_idx_range (m0 m : hmatrix) a b :
  ranges_ok m0 -> fits_int m0 -> shaped m0 m ->
  in_range (x m0) a -> in_range (y m0) b ->
  0 <= hmatrix_set_idx m a b < size m.
Proof.
  intros Hr Hf Hs Ha Hb. pose proof Hs as (Ex & Ey & Et & Esz). rewrite Esz.
  destruct (same_range m0) eqn:S.
  - destruct (same_range_true _ S) as [En Ei].
    assert (Hb' : in_range (x m0) b) by (unfold in_range in *; lia).
    rewrite (set_idx_tri m0 m a b) by assumption.
    unfold in_range, xlen in *. apply tri_range; lia.
  - rewrite (set_idx_rect m0 m a b) by assumption.
    unfold in_range, xlen, ylen in *. nia.
Qed.

Lemma set_idx_inj (m0 m : hmatrix) a b a' b' :
  ranges_ok m0 -> fits_int m0 -> shaped m0 m ->
  in_range (x m0) a -> in_range (y m0) b ->
  in_range (x m0) a' -> in_range (y m0) b' ->
  hmatrix_set_idx m a b = hmatrix_set_idx m a' b' ->
  (a = a' /\ b = b') \/ (same_range m0 = true /\ a = b' /\ b = a').
Proof.
  intros Hr Hf Hs Ha Hb Ha' Hb' E.
  destruct (same_range m0) eqn:S.
  - destruct (same_range_true _ S) as [En Ei].
    assert (in_range (x m0) b) by (unfold in_range in *; lia).
    assert (in_range (x m0) b') by (unfold in_range in *; lia).
    rewrite (set_idx_tri m0 m a b), (set_idx_tri m0 m a' b') in E by assumption.
    unfold in_range, xlen in *.
    apply tri_inj in E; lia.
  - left. rewrite (set_idx_rect m0 m a b), (set_idx_rect m0 m a' b') in E by assumption.
    unfold in_range, xlen in *.
    assert (b = b') by nia. subst b'. lia.
Qed.

Lemma set_idx_onto (m0 m : hmatrix) k :
  ranges_ok m0 -> fits_int m0 -> shaped m0 m -> 0 <= k < size m ->
  exists a b, in_range (x m0) a /\ in_range (y m0) b /\ hmatrix_set_idx m a b = k.
Proof.
  intros Hr Hf Hs Hk. pose proof Hs as (Ex & Ey & Et & Esz). rewrite Esz in Hk.
  destruct (same_range m0) eqn:S.
  - destruct (same_range_true _ S) as [En Ei].
    destruct (tri_onto (xlen m0) k) as (i & j & Hi & Hj & E);
      [unfold xlen; destruct Hr; lia | exact Hk |].
    exists (j + r_i (x m0)), (i + r_i (x m0)).
    assert (A : in_range (x m0) (j + r_i (x m0))) by (unfold in_range, xlen in *; lia).
    assert (B : in_range (x m0) (i + r_i (x m0))) by (unfold in_range, xlen in *; lia).
    split; [exact A|]. split; [unfold in_range in *; lia|].
    rewrite (set_idx_tri m0 m) by assumption.
    rewrite Z.min_r, Z.max_l by lia. rewrite <- E. f_equal; lia.
  - assert (Hx : 0 < xlen m0).
    { destruct (Z.eq_dec (xlen m0) 0) as [Z0 | NZ]; [rewrite Z0 in Hk; lia|].
      destruct Hr as [? _]. unfold xlen in *. lia. }
    exists (k mod xlen m0 + r_i (x m0)), (k / xlen m0 + r_i (y m0)).
    pose proof (Z.mod_pos_bound k (xlen m0) Hx).
    pose proof (Z.div_mod k (xlen m0)).
    assert (0 <= k / xlen m0 < ylen m0).
    { split; [apply Z.div_pos; lia|]. apply Z.div_lt_upper_bound; lia. }
    assert (A : in_range (x m0) (k mod xlen m0 + r_i (x m0)))
      by (unfold in_range, xlen in *; lia).
    assert (B : in_range (y m0) (k / xlen m0 + r_i (y m0)))
      by (unfold in_range, ylen in *; lia).
    split; [exact A|]. split; [exact B|].
    rewrite (set_idx_rect m0 m) by assumption. lia.
Qed.

End Facts.
End MatrixFacts.

(** ** Counting loops *)

Module LoopFacts.

Lemma for_loop_inv {St} (P : Z -> St -> Prop) (body : Z -> St -> option St) :
  forall (steps : nat) (lo : Z) (st : St),
  P lo st ->
  (forall i st, lo <= i < lo + Z.of_nat steps -> P i st ->
     exists st', body i st = Some st' /\ P (i + 1) st') ->
  exists st', for_loop steps lo body st = Some st' /\ P (lo + Z.of_nat steps) st'.
Proof.
  induction steps as [| k IH]; intros lo st H0 Hstep.
  - exists st. split; [reflexivity|]. rewrite Z.add_0_r. exact H0.
  - destruct (Hstep lo st) as (st1 & E1 & P1); [lia | exact H0 |].
    destruct (IH (lo + 1) st1 P1) as (st2 & E2 & P2).
    { intros i st' Hi. apply Hstep. lia. }
    exists st2. split.
    + simpl. rewrite E1. exact E2.
    + replace (lo + Z.of_nat (S k)) with (lo + 1 + Z.of_nat k) by lia. exact P2.
Qed.

Lemma for_int_inv {St} (P : Z -> St -> Prop) (body : Z -> St -> option St) hi st :
  P 0 st ->
  (forall i st, 0 <= i < hi -> P i st ->
     exists st', body i st = Some st' /\ P (i + 1) st') ->
  exists st', for_int 0 hi body st = Some st' /\ P (Z.max 0 hi) st'.
Proof.
  intros H0 Hstep. unfold for_int.
  destruct (for_loop_inv P body (Z.to_nat (hi - 0)) 0 st H0) as (st' & E & HP).
  { intros i st1 Hi. apply Hstep. lia. }
  exists st'. split; [exact E|].
  replace (Z.max 0 hi) with (0 + Z.of_nat (Z.to_nat (hi - 0))) by lia. exact HP.
Qed.

End LoopFacts.

(** ** The compute loops *)

Module ComputeFacts.
Import HMatrix MatrixSpec MatrixFacts CIntFacts LoopFacts ComputeSpec.

Section Compute.
Context {float double hstring_t : Type}.
Variable d2f : double -> float.
Variable s : list hstring_t.
Variable measure : hstring_t -> hstring_t -> double.
Variable m0 : hmatrix_t float.
Local Abbreviation hmatrix := (hmatrix_t float).

Hypothesis Hr : ranges_ok m0.
Hypothesis Hf : fits_int m0.
Hypothesis Hsx : r_n (x m0) <= Z.of_nat (length s).
Hypothesis Hsy : r_n (y m0) <= Z.of_nat (length s).

Local Abbreviation kept := (ComputeSpec.kept m0).
Local Abbreviation compute_inv := (ComputeSpec.compute_inv d2f s measure m0).

Lemma at_index_some (a : Z) :
  0 <= a < Z.of_nat (length s) -> exists h, at_index s a = Some h.
Proof.
  intros H. unfold at_index.
  destruct (Z.ltb_spec a 0); [lia|].
  apply lookup_lt_is_Some. lia.
Qed.

Lemma compute_cell_step (i j : Z) (st : hmatrix * list (Z * Z)) :
  0 <= i < xlen m0 -> 0 <= j < ylen m0 ->
  compute_inv (i + r_i (x m0)) (j + r_i (y m0)) st ->
  exists st', compute_cell d2f s measure i j st = Some st' /\
    compute_inv (i + r_i (x m0)) (j + 1 + r_i (y m0)) st'.
Proof.
  intros Hi Hj (Al & Hd & Hc). destruct st as [mm calls]. cbn [fst snd] in *.
  pose proof Al as [Hs (vs & Hv & Hl)].
  pose proof Hs as (Ex & Ey & Et & Esz).
  pose proof Hr as (Hx1 & Hx2 & Hy1 & Hy2).
  unfold xlen, ylen in Hi, Hj.
  unfold compute_cell. rewrite Ex, Ey, Et.
  rewrite !add_exact by (int_bounds; lia).
  replace (j + 1 + r_i (y m0)) with (j + r_i (y m0) + 1) by lia.
  remember (i + r_i (x m0)) as xi eqn:Exi.
  remember (j + r_i (y m0)) as yi eqn:Eyi.
  assert (Ix : in_range (x m0) xi) by (unfold in_range; lia).
  assert (Iy : in_range (y m0) yi) by (unfold in_range; lia).
  destruct (same_range m0 && (yi >? xi)) eqn:Skip.
  - (* the pair is skipped *)
    exists (mm, calls). split; [reflexivity|].
    apply andb_true_iff in Skip. destruct Skip as [S1 S2].
    split; [exact Al|]. split; [|exact Hc].
    intros a b sx sy K B. apply Hd; [exact K|].
    destruct K as (_ & _ & K). specialize (K S1).
    unfold before in *. destruct B as [B | [B1 B2]]; [left; exact B|].
    right. split; [exact B1|]. subst a. lia.
  - (* the pair is evaluated *)
    assert (Kn : kept xi yi).
    { split; [exact Ix|]. split; [exact Iy|]. intros S1. rewrite S1 in Skip.
      cbn in Skip. lia. }
    destruct (at_index_some xi) as (hx & Ehx); [unfold in_range in Ix; lia|].
    destruct (at_index_some yi) as (hy & Ehy); [unfold in_range in Iy; lia|].
    rewrite Ehx, Ehy.
    pose proof (set_idx_range m0 mm xi yi Hr Hf Hs Ix Iy) as Hidx.
    unfold hmatrix_set. rewrite Hv.
    destruct (Z.ltb_spec (hmatrix_set_idx mm xi yi) (size mm)) as [_ | ?]; [|lia].
    destruct (Z.leb_spec 0 (hmatrix_set_idx mm xi yi)) as [_ | ?]; [|lia].
    destruct (Z.ltb_spec (hmatrix_set_idx mm xi yi) (Z.of_nat (length vs)))
      as [_ | ?]; [|lia].
    cbn [andb]. eexists; split; [reflexivity|].
    unfold ComputeSpec.compute_inv. cbn [fst snd].
    split; [|split].
    + split; [exact Hs|]. eexists; split; [reflexivity|].
      rewrite length_insert. exact Hl.
    + intros a b sx sy K B Ea Eb.
      change (hmatrix_set_idx (set_values mm _) a b) with (hmatrix_set_idx mm a b).
      eexists; split; [reflexivity|].
      destruct (Z.eq_dec a xi) as [-> | Na].
      * destruct (Z.eq_dec b yi) as [-> | Nb].
        -- rewrite Ehx in Ea. rewrite Ehy in Eb.
           injection Ea as <-. injection Eb as <-.
           apply list_lookup_insert_eq. lia.
        -- assert (B' : before xi yi xi b) by (unfold before in *; lia).
           destruct (Hd xi b sx sy K B' Ea Eb) as (vs' & Hv' & Hl').
           rewrite Hv in Hv'. injection Hv' as <-.
           rewrite list_lookup_insert_ne; [exact Hl'|].
           destruct K as (Ka & Kb & Kt).
           pose proof (set_idx_range m0 mm xi b Hr Hf Hs Ka Kb).
           intros E. apply Z2Nat.inj in E; [|lia|lia].
           destruct (set_idx_inj m0 mm xi yi xi b Hr Hf Hs Ix Iy Ka Kb E)
             as [[_ ?] | (S1 & ? & ?)]; lia.
      * assert (B' : before xi yi a b) by (unfold before in *; lia).
        destruct (Hd a b sx sy K B' Ea Eb) as (vs' & Hv' & Hl').
        rewrite Hv in Hv'. injection Hv' as <-.
        rewrite list_lookup_insert_ne; [exact Hl'|].
        destruct K as (Ka & Kb & Kt).
        pose proof (set_idx_range m0 mm a b Hr Hf Hs Ka Kb).
        intros E. apply Z2Nat.inj in E; [|lia|lia].
        destruct (set_idx_inj m0 mm xi yi a b Hr Hf Hs Ix Iy Ka Kb E)
          as [[? _] | (S1 & ? & ?)]; [lia|].
        destruct Kn as (_ & _ & Kn). specialize (Kn S1). specialize (Kt S1).
        unfold before in B. lia.
    + intros a b Hin. apply in_app_or in Hin. destruct Hin as [Hin | Hin].
      * apply Hc. exact Hin.
      * destruct Hin as [E | []]. injection E as <- <-. exact Kn.
Qed.

Lemma compute_inv_next_row (xi : Z) (st : hmatrix * list (Z * Z)) :
  compute_inv xi (Z.max 0 (ylen m0) + r_i (y m0)) st ->
  compute_inv (xi + 1) (0 + r_i (y m0)) st.
Proof.
  intros (Al & Hd & Hc). split; [exact Al|]. split; [|exact Hc].
  intros a b sx sy K B. apply Hd; [exact K|].
  destruct K as (Ka & Kb & _). unfold before, in_range, ylen in *. lia.
Qed.

Lemma compute_row (m : hmatrix) (i : Z) (st : hmatrix * list (Z * Z)) :
  y m = y m0 -> 0 <= i < xlen m0 ->
  compute_inv (i + r_i (x m0)) (0 + r_i (y m0)) st ->
  exists st',
    for_int 0 (r_n (y m) [-] r_i (y m)) (compute_cell d2f s measure i) st = Some st' /\
    compute_inv (i + 1 + r_i (x m0)) (0 + r_i (y m0)) st'.
Proof.
  intros Ey Hi H0. rewrite Ey.
  pose proof Hr as (Hx1 & Hx2 & Hy1 & Hy2).
  rewrite sub_exact by (int_bounds; lia). fold (ylen m0).
  destruct (for_int_inv
              (fun j st => compute_inv (i + r_i (x m0)) (j + r_i (y m0)) st)
              (compute_cell d2f s measure i) (ylen m0) st H0)
    as (st' & E & HP).
  { intros j st1 Hj H1. apply compute_cell_step; assumption. }
  exists st'. split; [exact E|].
  replace (i + 1 + r_i (x m0)) with (i + r_i (x m0) + 1) by lia.
  apply compute_inv_next_row. exact HP.
Qed.

Lemma compute_all (m : hmatrix) :
  allocated m0 m ->
  exists st', hmatrix_compute d2f m s measure = Some st' /\
    compute_inv (r_n (x m0)) (0 + r_i (y m0)) st'.
Proof.
  intros Al. pose proof Al as [(Ex & Ey & _) _].
  pose proof Hr as (Hx1 & Hx2 & Hy1 & Hy2).
  unfold hmatrix_compute. rewrite Ex.
  rewrite sub_exact by (int_bounds; lia). fold (xlen m0).
  destruct (for_int_inv
              (fun i st => compute_inv (i + r_i (x m0)) (0 + r_i (y m0)) st)
              (fun i => for_int 0 (r_n (y m) [-] r_i (y m))
                          (compute_cell d2f s measure i))
              (xlen m0) (m, []))
    as (st' & E & HP).
  - split; [exact Al|]. split.
    + intros a b sx sy (Ka & Kb & _) B.
      unfold before, in_range in *. lia.
    + intros a b [].
  - intros i st1 Hi H1. apply compute_row; assumption.
  - exists st'. split; [exact E|].
    replace (r_n (x m0)) with (Z.max 0 (xlen m0) + r_i (x m0))
      by (unfold xlen; lia).
    exact HP.
Qed.

End Compute.
End ComputeFacts.

(** ** Range strings *)

Module RangeFacts.
Import HMatrix CString CIntFacts RangeSpec MatrixFacts.

Lemma valid_rangeb_spec N r : valid_rangeb N r = true <-> valid_range N r.
Proof.
  unfold valid_rangeb, valid_range. rewrite !andb_true_iff. lia.
Qed.

Lemma bind_eq {A B} (c : logged A) (k : A -> logged B) :
  bind c k = (fst (k (fst c)), snd c ++ snd (k (fst c))).
Proof. destruct c as [a l]. unfold bind. cbn. destruct (k a). reflexivity. Qed.

Lemma parse_side_fst (r : range_t) side dflt store fmt :
  store r dflt = r ->
  fst (parse_side r side dflt store fmt) = store r (stored_value side dflt).
Proof.
  intros Hd. unfold parse_side, stored_value.
  destruct (strtol side) as [l e]. cbn [fst snd].
  destruct (strlen side =? 0); [reflexivity|].
  destruct (strlen e =? 0); [reflexivity|]. cbn. symmetry. exact Hd.
Qed.

Lemma parse_side_snd (r : range_t) side dflt store fmt :
  snd (parse_side r side dflt store fmt) = if junk side then [Error fmt] else [].
Proof.
  unfold parse_side, junk.
  destruct (strtol side) as [l e]. cbn [fst snd].
  destruct (strlen side =? 0); [reflexivity|].
  destruct (strlen e =? 0); reflexivity.
Qed.

Lemma stored_value_int side dflt : CInt.in_int dflt -> CInt.in_int (stored_value side dflt).
Proof.
  intros H. unfold stored_value.
  destruct (strlen side =? 0); [exact H|].
  destruct (strlen _ =? 0); [apply to_int_range | exact H].
Qed.

(** The checks at the end of [parse_range] accept exactly the ranges that
    satisfy the constraints, after the negative end index is resolved. *)
Lemma range_checks_spec (r : range_t) (N : Z) :
  0 <= N <= CInt.INT_MAX -> CInt.in_int (r_n r) ->
  let r' := mk_range (r_i r) (if r_n r <? 0 then N + r_n r else r_n r) in
  range_checks r N =
  if valid_rangeb N r' then (r', [])
  else (mk_range 0 N, [Error "Invalid range '%s:%s'. Using default '0:%d'."]).
Proof.
  intros HN Hn r'. unfold range_checks.
  rewrite sub_exact by (int_bounds; lia).
  replace (if r_n r <? 0 then set_n r (N [+] r_n r) else r) with r'.
  2: { unfold r', set_n. destruct r as [ri rn]. cbn [r_i r_n] in *.
       destruct (Z.ltb_spec rn 0); [|reflexivity].
       rewrite add_exact by (int_bounds; lia). reflexivity. }
  unfold valid_rangeb.
  destruct (Z.ltb_spec (r_n r') 0), (Z.ltb_spec (r_i r') 0),
    (Z.gtb_spec (r_n r') N), (Z.gtb_spec (r_i r') (N - 1)),
    (Z.geb_spec (r_i r') (r_n r')), (Z.leb_spec 0 (r_i r')),
    (Z.leb_spec (r_n r') N), (Z.ltb_spec (r_i r') (r_n r'));
    cbn; try reflexivity; lia.
Qed.

Lemma strlen_nonempty s : (strlen s =? 0) = false <-> s <> EmptyString.
Proof.
  unfold strlen. destruct s as [| c t]; cbn [String.length].
  - split; [discriminate | congruence].
  - split; [discriminate |]. intros _. apply Z.eqb_neq. lia.
Qed.

(** [parse_range] on the default range and a string with a separator. *)
Lemma parse_range_sides (N : Z) (str l rt : string) :
  0 <= N <= CInt.INT_MAX ->
  cstr str <> EmptyString -> strchr_split (cstr str) ":" = Some (l, rt) ->
  parse_range (mk_range 0 N) str N =
  ((if valid_rangeb N (stored_range N l rt) then stored_range N l rt else mk_range 0 N),
   (if junk l then [Error "Could not parse range '%s:...'."] else []) ++
   (if junk rt then [Error "Could not parse range '...:%s'."] else []) ++
   (if valid_rangeb N (stored_range N l rt) then []
    else [Error "Invalid range '%s:%s'. Using default '0:%d'."])).
Proof.
  intros HN Hne Hsp. unfold parse_range.
  apply strlen_nonempty in Hne. rewrite Hne, Hsp.
  rewrite !bind_eq.
  rewrite !parse_side_snd.
  rewrite (parse_side_fst (mk_range 0 N) l 0 set_i) by reflexivity.
  rewrite parse_side_fst by reflexivity.
  rewrite range_checks_spec;
    [| exact HN | cbn; apply stored_value_int; int_bounds; lia].
  cbn [set_n set_i r_i r_n]. fold (stored_range N l rt).
  destruct (valid_rangeb N (stored_range N l rt)); reflexivity.
Qed.

(** The digits that the grammar reads are those that [strtol] reads. *)
Lemma digits_value_scan (s : string) : forall acc v,
  digits_value acc s = Some v -> scan_digits acc s = (v, EmptyString).
Proof.
  induction s as [| c t IH]; intros acc v H; cbn in *.
  - congruence.
  - destruct (isdigit c); [apply IH; exact H | discriminate].
Qed.

Lemma digits_value_none (s : string) : forall acc,
  digits_value acc s = None -> snd (scan_digits acc s) <> EmptyString.
Proof.
  induction s as [| c t IH]; intros acc H; cbn in *.
  - discriminate.
  - destruct (isdigit c); [apply IH; exact H | cbn; discriminate].
Qed.

(** [strtol] reads an int of the grammar to its end. *)
Lemma number_strtol (side : string) (v : Z) :
  number side = Some v ->
  side <> EmptyString /\ strtol side = (clamp_long v, EmptyString).
Proof.
  unfold number, strtol.
  destruct (scan_sign (skip_space side)) as [neg s2] eqn:E.
  destruct s2 as [| c t]; [discriminate|].
  destruct (digits_value 0 (String c t)) as [w |] eqn:D; [|discriminate].
  intros [= <-]. split.
  - intros ->. cbn in E. discriminate.
  - assert (Hd : starts_with_digit (String c t) = true).
    { cbn in D |- *. destruct (isdigit c); [reflexivity | discriminate]. }
    rewrite Hd, (digits_value_scan _ _ _ D). reflexivity.
Qed.

(** [strtol] stops before the end of a side that is no int. *)
Lemma no_number_strtol (side : string) :
  number side = None -> side <> EmptyString ->
  snd (strtol side) <> EmptyString.
Proof.
  unfold number, strtol.
  destruct (scan_sign (skip_space side)) as [neg s2].
  destruct s2 as [| c t]; [intros _ H; exact H|].
  destruct (digits_value 0 (String c t)) as [w |] eqn:D; [discriminate|].
  intros _ Hne.
  destruct (starts_with_digit (String c t)); [|exact Hne].
  pose proof (digits_value_none _ _ D) as Hr.
  destruct (scan_digits 0 (String c t)) as [v rest]. exact Hr.
Qed.

Lemma clamp_long_id (z : Z) : CInt.in_int z -> clamp_long z = z.
Proof.
  unfold clamp_long, CInt.LONG_MIN, CInt.LONG_MAX. int_bounds. lia.
Qed.

(** [parse_range] prints that it could not parse a side exactly when the
    side is not empty and no int. *)
Lemma junk_no_number (side : string) :
  junk side = true <-> side <> EmptyString /\ number side = None.
Proof.
  unfold junk. split.
  - intros H. apply andb_true_iff in H. destruct H as [H1 H2].
    apply negb_true_iff in H1, H2. apply strlen_nonempty in H1, H2.
    split; [exact H1|].
    destruct (number side) as [v |] eqn:E; [|reflexivity].
    destruct (number_strtol _ _ E) as [_ Hs]. rewrite Hs in H2.
    exfalso. apply H2. reflexivity.
  - intros [Hne Hn]. pose proof (no_number_strtol _ Hn Hne) as Hs.
    apply strlen_nonempty in Hne, Hs. rewrite Hne, Hs. reflexivity.
Qed.

(** What [parse_range] stores for a side is the value that the side
    denotes, when that value fits in an [int]. *)
Lemma stored_value_denotes (side : string) (dflt : Z) :
  CInt.in_int (side_denotes side dflt) ->
  stored_value side dflt = side_denotes side dflt.
Proof.
  unfold side_denotes, stored_value.
  destruct (number side) as [v |] eqn:E; intros Hv.
  - destruct (number_strtol _ _ E) as [Hne Hs].
    apply strlen_nonempty in Hne. rewrite Hne, Hs. cbn [fst snd].
    change (strlen EmptyString =? 0) with true. cbv iota.
    rewrite (clamp_long_id _ Hv). apply to_int_id. exact Hv.
  - destruct (strlen side =? 0) eqn:E0; [reflexivity|].
    apply strlen_nonempty in E0.
    pose proof (no_number_strtol _ E E0) as Hs.
    apply strlen_nonempty in Hs. rewrite Hs. reflexivity.
Qed.

Lemma stored_range_denoted (N : Z) (l rt : string) :
  CInt.in_int (side_denotes l 0) -> CInt.in_int (side_denotes rt N) ->
  stored_range N l rt = denoted_range N l rt.
Proof.
  intros Hl Hr. unfold stored_range, denoted_range.
  rewrite (stored_value_denotes _ _ Hl), (stored_value_denotes _ _ Hr).
  reflexivity.
Qed.

End RangeFacts.

(** ** Single precision: the block height is exact below 2^24 *)

Module Float32Facts.
Import Float32 CIntFacts.

Lemma rne_nearest p q : 0 <= p -> 0 < q -> - q <= 2 * (rne p q * q - p) <= q.
Proof.
  intros Hp Hq. unfold rne.
  pose proof (Z.div_mod p q ltac:(lia)) as E.
  pose proof (Z.mod_pos_bound p q Hq) as B.
  destruct (Z.ltb_spec (2 * (p mod q)) q); [nia|].
  destruct (Z.ltb_spec q (2 * (p mod q))); [nia|].
  destruct (Z.even (p / q)); nia.
Qed.

Lemma rne_one p : rne p 1 = p.
Proof.
  unfold rne. rewrite Z.mod_1_r, Z.div_1_r. reflexivity.
Qed.

(** The exponent that [ilog2_ratio] finds is not above the quotient. *)
Lemma ilog2_ratio_lower p q :
  0 < p -> 0 < q ->
  let f := ilog2_ratio p q in
  (0 <= f -> q * 2 ^ f <= p) /\ (f < 0 -> q <= p * 2 ^ (- f)).
Proof.
  intros Hp Hq f. unfold ilog2_ratio in f.
  pose proof (Z.log2_spec p Hp) as [Lp Up].
  pose proof (Z.log2_spec q Hq) as [Lq Uq].
  pose proof (Z.log2_nonneg p). pose proof (Z.log2_nonneg q).
  set (d := Z.log2 p - Z.log2 q) in *.
  destruct (ge_pow2 p q d) eqn:G; subst f.
  - unfold ge_pow2 in G. destruct (Z.leb_spec 0 d); split; intros; try lia.
  - split; intros Hd.
    + (* q * 2^(d-1) < 2^(log2 q + 1 + d - 1) = 2^(log2 p) <= p *)
      assert (E : 2 ^ Z.succ (Z.log2 q) * 2 ^ (d - 1) = 2 ^ Z.log2 p).
      { rewrite <- Z.pow_add_r by lia. f_equal. unfold d. lia. }
      assert (0 < 2 ^ (d - 1)) by (apply Z.pow_pos_nonneg; lia).
      nia.
    + (* q < 2^(log2 q + 1) = 2^(log2 p) * 2^(1 - d) <= p * 2^(1 - d) *)
      assert (E : 2 ^ Z.log2 p * 2 ^ (- (d - 1)) = 2 ^ Z.succ (Z.log2 q)).
      { rewrite <- Z.pow_add_r by lia. f_equal. unfold d. lia. }
      assert (0 < 2 ^ (- (d - 1))) by (apply Z.pow_pos_nonneg; lia).
      nia.
Qed.

(** An [int] below 2^24 is a [float]. *)
Lemma of_int_small a :
  0 < a < 2 ^ 24 ->
  of_int a = Finite false (a * 2 ^ (23 - Z.log2 a)) (Z.log2 a - 23).
Proof.
  intros Ha. unfold of_int.
  destruct (Z.eqb_spec a 0); [lia|].
  destruct (Z.ltb_spec a 0); [lia|].
  rewrite Z.abs_eq by lia.
  pose proof (Z.log2_spec a ltac:(lia)) as [L U].
  pose proof (Z.log2_nonneg a).
  assert (Z.log2 a < 24).
  { apply Z.log2_lt_pow2; lia. }
  unfold round_pos, ilog2_ratio. change (Z.log2 1) with 0. rewrite Z.sub_0_r.
  assert (G : ge_pow2 a 1 (Z.log2 a) = true).
  { unfold ge_pow2. destruct (Z.leb_spec 0 (Z.log2 a)); [|lia].
    apply Z.leb_le. lia. }
  rewrite G.
  destruct (Z.leb_spec 0 (Z.log2 a - 23)).
  - assert (E : Z.log2 a = 23) by lia. rewrite E. cbn [Z.sub Z.pow Z.opp Z.add Z.pos_sub].
    change (2 ^ 0) with 1. rewrite !Z.mul_1_r, rne_one. reflexivity.
  - rewrite rne_one. do 2 f_equal. f_equal. lia.
Qed.

(** Rounding a quotient [a / b] with [a < 2^24] up to an integer after
    rounding it to a [float] gives the integer above [a / b]. *)
Lemma ceil_round_pos a b c :
  0 < a < 2 ^ 24 -> 0 < b -> 0 < c ->
  ceil_to_int (Finite false (fst (round_pos (a * c) (b * c)))
                            (snd (round_pos (a * c) (b * c))))
  = (a + b - 1) / b.
Proof.
  intros Ha Hb Hc.
  unfold round_pos. cbn [fst snd].
  pose proof (ilog2_ratio_lower (a * c) (b * c) ltac:(nia) ltac:(nia)) as [L1 L2].
  set (f := ilog2_ratio (a * c) (b * c)) in *.
  (* the exponent is at most 23 *)
  assert (F : f <= 23).
  { destruct (Z_le_gt_dec f 23) as [? | G]; [assumption|]. exfalso.
    specialize (L1 ltac:(lia)).
    assert (P : 2 ^ 24 <= 2 ^ f) by (apply Z.pow_le_mono_r; lia).
    assert (b * c * 2 ^ 24 <= b * c * 2 ^ f)
      by (apply Z.mul_le_mono_nonneg_l; [nia | exact P]).
    assert (c * 2 ^ 24 <= b * c * 2 ^ 24) by nia.
    assert (a * c < 2 ^ 24 * c) by nia.
    lia. }
  (* with W = 2^(23 - f): a * W >= 2^23 * b *)
  set (W := 2 ^ (23 - f)).
  assert (HW : 0 < W) by (apply Z.pow_pos_nonneg; lia).
  assert (Big : 2 ^ 23 * b <= a * W).
  { destruct (Z_le_gt_dec 0 f) as [P | Q].
    - specialize (L1 P).
      assert (E : 2 ^ f * W = 2 ^ 23).
      { unfold W. rewrite <- Z.pow_add_r by lia. f_equal. lia. }
      assert (0 < 2 ^ f) by (apply Z.pow_pos_nonneg; lia).
      assert (b * 2 ^ f <= a) by nia.
      assert (b * 2 ^ f * W <= a * W)
        by (apply Z.mul_le_mono_nonneg_r; lia).
      replace (b * 2 ^ f * W) with (b * (2 ^ f * W)) in * by ring.
      rewrite E in *. lia.
    - specialize (L2 ltac:(lia)).
      assert (E : W = 2 ^ 23 * 2 ^ (- f)).
      { unfold W. rewrite <- Z.pow_add_r by lia. f_equal; lia. }
      assert (0 < 2 ^ (- f)) by (apply Z.pow_pos_nonneg; lia).
      assert (b <= a * 2 ^ (- f)) by nia.
      rewrite E. nia. }
  (* the significand is the integer nearest to a * W / b *)
  set (m := if 0 <=? f - 23 then rne (a * c) (b * c * 2 ^ (f - 23))
            else rne (a * c * 2 ^ (- (f - 23))) (b * c)).
  assert (Em : m = rne (a * c * W) (b * c)).
  { unfold m, W. destruct (Z.leb_spec 0 (f - 23)).
    - replace (f - 23) with 0 by lia. replace (23 - f) with 0 by lia.
      change (2 ^ 0) with 1. rewrite !Z.mul_1_r. reflexivity.
    - do 3 f_equal. lia. }
  pose proof (rne_nearest (a * c * W) (b * c) ltac:(nia) ltac:(nia)) as Near.
  rewrite <- Em in Near.
  assert (Near' : - b <= 2 * (m * b - a * W) <= b) by nia.
  (* the integer above a / b *)
  set (T := (a + b - 1) / b).
  pose proof (Z.div_mod (a + b - 1) b ltac:(lia)) as DM.
  pose proof (Z.mod_pos_bound (a + b - 1) b Hb) as MB.
  fold T in DM.
  assert (T1 : a <= b * T) by lia.
  assert (T2 : b * T < a + b) by lia.
  assert (T3 : 1 <= T <= a) by nia.
  assert (Up : m <= T * W) by nia.
  assert (Lo : (T - 1) * W < m).
  { destruct (Z_lt_le_dec ((T - 1) * W) m) as [? | G]; [assumption|]. exfalso.
    assert (2 * W <= b) by nia.
    assert (2 ^ 24 * W <= a * W) by (change (2 ^ 24) with (2 ^ 23 * 2); nia).
    nia. }
  unfold ceil_to_int.
  destruct (Z.leb_spec 0 (f - 23)).
  - assert (W = 1) by (unfold W; replace (23 - f) with 0 by lia; reflexivity).
    replace (f - 23) with 0 by lia. change (2 ^ 0) with 1.
    rewrite Z.mul_1_r. rewrite to_int_id by (int_bounds; nia). nia.
  - replace (- (f - 23)) with (23 - f) by lia. fold W.
    assert (D : - m / W = - T).
    { symmetry. apply Z.div_unique with (r := T * W - m); nia. }
    rewrite D. rewrite to_int_id by (int_bounds; lia). lia.
Qed.

(** The height that [hmatrix_split] computes. *)
Lemma height_exact a b :
  0 < a < 2 ^ 24 -> 0 < b < 2 ^ 24 ->
  ceil_to_int (fdiv (of_int a) (of_int b)) = (a + b - 1) / b.
Proof.
  intros Ha Hb.
  rewrite (of_int_small a Ha), (of_int_small b Hb).
  pose proof (Z.log2_nonneg a). pose proof (Z.log2_nonneg b).
  assert (Z.log2 a < 24) by (apply Z.log2_lt_pow2; lia).
  assert (Z.log2 b < 24) by (apply Z.log2_lt_pow2; lia).
  set (ta := 23 - Z.log2 a). set (tb := 23 - Z.log2 b).
  assert (0 < 2 ^ ta) by (apply Z.pow_pos_nonneg; lia).
  assert (0 < 2 ^ tb) by (apply Z.pow_pos_nonneg; lia).
  unfold fdiv.
  destruct (Z.eqb_spec (b * 2 ^ tb) 0); [nia|].
  destruct (Z.eqb_spec (a * 2 ^ ta) 0); [nia|].
  cbn [xorb].
  destruct (Z.leb_spec (Z.log2 b - 23) (Z.log2 a - 23)).
  - replace (a * 2 ^ ta * 2 ^ (Z.log2 a - 23 - (Z.log2 b - 23))) with (a * 2 ^ tb).
    2: { rewrite <- Z.mul_assoc, <- Z.pow_add_r by lia. do 2 f_equal. lia. }
    pose proof (ceil_round_pos a b (2 ^ tb) Ha ltac:(lia) ltac:(lia)) as C.
    destruct (round_pos (a * 2 ^ tb) (b * 2 ^ tb)) as [m e]. exact C.
  - replace (b * 2 ^ tb * 2 ^ (Z.log2 b - 23 - (Z.log2 a - 23))) with (b * 2 ^ ta).
    2: { rewrite <- Z.mul_assoc, <- Z.pow_add_r by lia. do 2 f_equal. lia. }
    pose proof (ceil_round_pos a b (2 ^ ta) Ha ltac:(lia) ltac:(lia)) as C.
    destruct (round_pos (a * 2 ^ ta) (b * 2 ^ ta)) as [m e]. exact C.
Qed.

End Float32Facts.

(** ** Splitting *)

Module SplitFacts.
Import HMatrix CString MatrixSpec MatrixFacts CIntFacts SplitSpec Float32Facts.

Lemma scan_d_int s v rest : scan_d s = Some (v, rest) -> CInt.in_int v.
Proof.
  unfold scan_d. destruct (scan_sign (skip_space s)) as [neg s2].
  destruct (starts_with_digit s2); [|discriminate].
  destruct (scan_digits 0 s2) as [d r]. intros H. injection H as <- _.
  apply to_int_range.
Qed.

Lemma sscanf_int s a b :
  sscanf_d_colon_d s = Some (a, b) -> CInt.in_int a /\ CInt.in_int b.
Proof.
  unfold sscanf_d_colon_d.
  destruct (scan_d s) as [[a' [| c t]] |] eqn:E1; try discriminate.
  destruct (code c =? 58); [|discriminate].
  destruct (scan_d t) as [[b' r] |] eqn:E2; [|discriminate].
  intros H. injection H as <- <-.
  split; eapply scan_d_int; eassumption.
Qed.

Lemma sscanf_nonempty s a b :
  sscanf_d_colon_d s = Some (a, b) -> (strlen s =? 0) = false.
Proof.
  destruct s; [discriminate|]. intros _. unfold strlen. cbn [String.length].
  apply Z.eqb_neq. lia.
Qed.

Lemma hmatrix_split_parsed {float} (m : hmatrix_t float) str blocks index :
  sscanf_d_colon_d (cstr str) = Some (blocks, index) ->
  hmatrix_split m str = hmatrix_split_blocks m blocks index.
Proof.
  intros H. unfold hmatrix_split.
  rewrite (sscanf_nonempty _ _ _ H), H. reflexivity.
Qed.

Lemma ceil_div_bounds a b :
  1 <= b <= a -> 1 <= ceil_div a b <= a /\ a <= b * ceil_div a b < a + b.
Proof.
  intros H. unfold ceil_div.
  pose proof (Z.div_mod (a + b - 1) b ltac:(lia)).
  pose proof (Z.mod_pos_bound (a + b - 1) b ltac:(lia)).
  split; [|lia]. split; nia.
Qed.

Section Split.
Context {float : Type}.
Variable m : hmatrix_t float.
Hypothesis Hyi : 0 <= r_i (y m) <= 2 ^ 30.
Hypothesis Hyn : 0 <= r_n (y m) <= 2 ^ 30.

Lemma ylen_exact : r_n (y m) [-] r_i (y m) = ylen m.
Proof.
  unfold ylen. apply sub_exact. int_bounds.
  change (2 ^ 30) with 1073741824 in *. lia.
Qed.

Lemma split_blocks_fatal blocks index :
  CInt.in_int blocks ->
  blocks <= 0 \/ blocks > ylen m \/ c_height m blocks <= 0 \/
  index < 0 \/ index >= blocks ->
  exists fmt, hmatrix_split_blocks m blocks index = Fatal fmt.
Proof.
  intros Hb H. unfold hmatrix_split_blocks. rewrite ylen_exact.
  fold (c_height m blocks).
  destruct (Z.leb_spec blocks 0); [eexists; reflexivity|].
  destruct (Z.gtb_spec blocks (ylen m)); [eexists; reflexivity|].
  cbn [orb].
  destruct (Z.leb_spec (c_height m blocks) 0); [eexists; reflexivity|].
  destruct (Z.gtb_spec (c_height m blocks) (ylen m)); [eexists; reflexivity|].
  cbn [orb].
  rewrite sub_exact by (int_bounds; lia).
  destruct (Z.ltb_spec index 0); [eexists; reflexivity|].
  destruct (Z.gtb_spec index (blocks - 1)); [eexists; reflexivity|].
  lia.
Qed.

Hypothesis Hyl : ylen m < 2 ^ 24.

Lemma c_height_exact blocks :
  1 <= blocks <= ylen m -> c_height m blocks = ceil_div (ylen m) blocks.
Proof.
  intros H. unfold c_height, ceil_div. apply height_exact; lia.
Qed.

Lemma split_blocks_done blocks index :
  1 <= blocks <= ylen m -> 0 <= index < blocks ->
  hmatrix_split_blocks m blocks index = Done (set_y m (split_block m blocks index)).
Proof.
  intros Hb Hi. unfold hmatrix_split_blocks. rewrite ylen_exact.
  fold (c_height m blocks). rewrite (c_height_exact blocks Hb).
  pose proof (ceil_div_bounds (ylen m) blocks Hb) as [[H1 H2] [H3 H4]].
  unfold split_block. set (h := ceil_div (ylen m) blocks) in *.
  change (2 ^ 30) with 1073741824 in *. change (2 ^ 24) with 16777216 in *.
  assert (Hih : 0 <= index * h <= ylen m + blocks) by nia.
  unfold ylen in *.
  destruct (Z.leb_spec blocks 0); [lia|].
  destruct (Z.gtb_spec blocks (r_n (y m) - r_i (y m))); [lia|].
  destruct (Z.leb_spec h 0); [lia|].
  destruct (Z.gtb_spec h (r_n (y m) - r_i (y m))); [lia|].
  cbn [orb].
  rewrite sub_exact by (int_bounds; lia).
  destruct (Z.ltb_spec index 0); [lia|].
  destruct (Z.gtb_spec index (blocks - 1)); [lia|].
  cbn [orb].
  rewrite mul_exact by (int_bounds; lia).
  rewrite !(add_exact (r_i (y m))) by (int_bounds; lia).
  rewrite !add_exact by (int_bounds; lia).
  do 3 f_equal.
  destruct (Z.gtb_spec (r_n (y m)) (r_i (y m) + index * h + h)); lia.
Qed.

Lemma split_block_cover blocks z :
  1 <= blocks <= ylen m ->
  in_range (y m) z <->
  exists index, 0 <= index < blocks /\ in_range (split_block m blocks index) z.
Proof.
  intros Hb.
  pose proof (ceil_div_bounds (ylen m) blocks Hb) as [[H1 H2] [H3 H4]].
  unfold split_block, in_range. cbn [r_i r_n].
  set (h := ceil_div (ylen m) blocks) in *. unfold ylen in *.
  split.
  - intros Hz. exists ((z - r_i (y m)) / h).
    pose proof (Z.div_mod (z - r_i (y m)) h ltac:(lia)).
    pose proof (Z.mod_pos_bound (z - r_i (y m)) h ltac:(lia)).
    assert (0 <= (z - r_i (y m)) / h) by (apply Z.div_pos; lia).
    assert ((z - r_i (y m)) / h < blocks) by (apply Z.div_lt_upper_bound; nia).
    split; [lia|]. split; [nia|]. apply Z.min_glb_lt; nia.
  - intros (index & Hi & Hz1 & Hz2).
    apply Z.min_glb_lt_iff in Hz2. nia.
Qed.

Lemma split_block_disjoint blocks i1 i2 z :
  1 <= blocks <= ylen m -> 0 <= i1 -> i1 < i2 ->
  ~ (in_range (split_block m blocks i1) z /\ in_range (split_block m blocks i2) z).
Proof.
  intros Hb H1 H2 [[A1 A2] [B1 B2]].
  pose proof (ceil_div_bounds (ylen m) blocks Hb) as [[C1 C2] _].
  unfold split_block in *. cbn [r_i r_n] in *.
  apply Z.min_glb_lt_iff in A2. nia.
Qed.

End Split.
End SplitFacts.

(** ** Configurations *)

Module ConfigFacts.
Import HMatrix CString MatrixSpec MatrixFacts CIntFacts RangeSpec RangeFacts
  SplitSpec SplitFacts ConfigSpec.

(** [parse_range] returns the range it was given, a range that satisfies
    the constraints, or the full range. *)
Lemma parse_range_keeps (r : range_t) (str : string) (N : Z) :
  0 <= N <= CInt.INT_MAX -> CInt.in_int (r_n r) ->
  let r' := fst (parse_range r str N) in
  r' = r \/ valid_range N r' \/ r' = mk_range 0 N.
Proof.
  intros HN Hr. cbv zeta. unfold parse_range.
  destruct (strlen (cstr str) =? 0); [left; reflexivity|].
  destruct (strchr_split (cstr str) ":") as [[l rt] |]; [|left; reflexivity].
  right. rewrite !bind_eq. cbn [fst].
  set (r1 := fst (parse_side r l 0 set_i _)).
  set (r2 := fst (parse_side r1 rt N set_n _)).
  assert (H2 : CInt.in_int (r_n r2)).
  { unfold r2, r1, parse_side.
    destruct (strtol l) as [v1 e1], (strtol rt) as [v2 e2].
    destruct (strlen l =? 0), (strlen e1 =? 0), (strlen rt =? 0),
      (strlen e2 =? 0); cbn;
      try apply to_int_range; try exact Hr; int_bounds; lia. }
  rewrite (range_checks_spec r2 N HN H2).
  destruct (valid_rangeb N _) eqn:V; cbn [fst].
  - left. apply valid_rangeb_spec. exact V.
  - right. reflexivity.
Qed.

Lemma split_blocks_passed {float} (m m' : hmatrix_t float) blocks index :
  0 <= r_i (y m) <= 2 ^ 30 -> 0 <= r_n (y m) <= 2 ^ 30 ->
  CInt.in_int blocks ->
  hmatrix_split_blocks m blocks index = Done m' ->
  1 <= blocks <= ylen m /\ 0 <= index < blocks.
Proof.
  intros Hi Hn Hb H.
  destruct (Z_le_gt_dec blocks 0) as [A | A].
  { destruct (split_blocks_fatal m Hi Hn blocks index Hb) as [f E]; [lia|].
    congruence. }
  destruct (Z_le_gt_dec blocks (ylen m)) as [B | B].
  2: { destruct (split_blocks_fatal m Hi Hn blocks index Hb) as [f E]; [lia|].
       congruence. }
  destruct (Z_lt_le_dec index 0) as [C | C].
  { destruct (split_blocks_fatal m Hi Hn blocks index Hb) as [f E]; [lia|].
    congruence. }
  destruct (Z_lt_le_dec index blocks) as [D | D]; [lia|].
  destruct (split_blocks_fatal m Hi Hn blocks index Hb) as [f E]; [lia|].
  congruence.
Qed.

(** For a batch of at most 46340 strings, every configuration of the
    matrix that [hmatrix_init] returns has ranges of the kind the
    properties of the storage assume, and products that fit. *)
Lemma configure_fits {float} (m0 m : hmatrix_t float) (xs ys sp : string) :
  0 <= num m0 <= 46340 ->
  x m0 = mk_range 0 (num m0) -> y m0 = mk_range 0 (num m0) ->
  configure m0 xs ys sp = Some m ->
  ranges_ok m /\ fits_int m.
Proof.
  intros HN Ex Ey. unfold configure, hmatrix_xrange, hmatrix_yrange.
  rewrite !bind_eq. unfold ret. cbn [fst set_x set_y x y num].
  set (N := num m0) in *.
  assert (HN' : 0 <= N <= CInt.INT_MAX) by (int_bounds; lia).
  pose proof (parse_range_keeps (x m0) xs N HN') as Px.
  pose proof (parse_range_keeps (y m0) ys N HN') as Py.
  rewrite Ex in Px. rewrite Ey in Py. cbn [r_n] in Px, Py.
  specialize (Px ltac:(int_bounds; lia)). specialize (Py ltac:(int_bounds; lia)).
  cbv zeta in Px, Py. rewrite Ex, Ey.
  set (rx := fst (parse_range (mk_range 0 N) xs N)) in *.
  set (ry := fst (parse_range (mk_range 0 N) ys N)) in *.
  assert (Bx : 0 <= r_i rx <= r_n rx /\ r_n rx <= N).
  { destruct Px as [-> | [(? & ? & ?) | ->]]; cbn; lia. }
  assert (By : 0 <= r_i ry <= r_n ry /\ r_n ry <= N).
  { destruct Py as [-> | [(? & ? & ?) | ->]]; cbn; lia. }
  clearbody rx ry. clear Px Py.
  set (m2 := set_y (set_x m0 rx) ry).
  assert (Done_ok : forall m' : hmatrix_t float, x m' = rx -> 0 <= r_i (y m') <= N + N ->
            0 <= r_n (y m') <= N -> - N <= ylen m' <= N ->
            ranges_ok m' /\ fits_int m').
  { intros m' Hx Hi Hn Hl. unfold ranges_ok, fits_int, xlen, ylen in *.
    rewrite Hx. int_bounds. split; [lia|].
    destruct (same_range m'); nia. }
  unfold hmatrix_split.
  destruct (strlen (cstr sp) =? 0).
  { intros H. injection H as <-.
    apply Done_ok; unfold ylen, m2; cbn; try reflexivity; lia. }
  destruct (sscanf_d_colon_d (cstr sp)) as [[blocks index] |] eqn:Es;
    [|discriminate].
  destruct (hmatrix_split_blocks m2 blocks index) as [m3 | f] eqn:Eb;
    [|discriminate].
  intros H. injection H as <-.
  assert (Hi2 : 0 <= r_i (y m2) <= 2 ^ 30)
    by (unfold m2; cbn; change (2 ^ 30) with 1073741824; lia).
  assert (Hn2 : 0 <= r_n (y m2) <= 2 ^ 30)
    by (unfold m2; cbn; change (2 ^ 30) with 1073741824; lia).
  assert (Hl2 : ylen m2 < 2 ^ 24)
    by (unfold ylen, m2; cbn; change (2 ^ 24) with 16777216; lia).
  destruct (split_blocks_passed m2 m3 blocks index Hi2 Hn2
              (proj1 (sscanf_int _ _ _ Es)) Eb) as [Hb Hidx].
  rewrite (split_blocks_done m2 Hi2 Hn2 Hl2 blocks index Hb Hidx) in Eb.
  injection Eb as <-.
  pose proof (ceil_div_bounds (ylen m2) blocks Hb) as [[H1 H2] [H3 H4]].
  unfold ylen, m2 in H1, H2, H3, H4, Hb. cbn in H1, H2, H3, H4, Hb.
  apply Done_ok; unfold split_block, ylen, m2; cbn; try reflexivity.
  - nia.
  - lia.
  - set (h := ceil_div (r_n ry - r_i ry) blocks) in *.
    assert (index * h <= r_n ry - r_i ry + blocks) by nia.
    lia.
Qed.

End ConfigFacts.

(** ** Delimiter specifications *)

Module DelimFacts.
Import Str CString DelimSpec.

Lemma hexval_range c h : hexval c = Some h -> 0 <= h < 16.
Proof.
  unfold hexval.
  destruct ((48 <=? c) && (c <=? 57)) eqn:E1.
  { apply andb_true_iff in E1. intros E. injection E as <-. lia. }
  destruct ((97 <=? c) && (c <=? 102)) eqn:E2.
  { apply andb_true_iff in E2. intros E. injection E as <-. lia. }
  destruct ((65 <=? c) && (c <=? 70)) eqn:E3; [|discriminate].
  apply andb_true_iff in E3. intros E. injection E as <-. lia.
Qed.

Lemma is_delim_flag (d : list Z) (k b : Z) :
  Z.of_nat (length d) = 256 -> 0 <= k < 256 -> 0 <= b < 256 ->
  is_delim (<[Z.to_nat k := 1]> d) b = Some true <->
  b = k \/ is_delim d b = Some true.
Proof.
  intros Hl Hk Hb. unfold is_delim, at_index.
  destruct (Z.ltb_spec b 0); [lia|].
  destruct (Z.eq_dec b k) as [-> | Hne].
  - rewrite list_lookup_insert_eq by lia. cbn. tauto.
  - rewrite list_lookup_insert_ne by lia.
    split; [intros X; right; exact X | intros [E | X]; [contradiction | exact X]].
Qed.

(** Induction on the length of a string: an escape takes three
    characters at once. *)
Lemma string_length_ind (P : string -> Prop) :
  (forall s, (forall t, (String.length t < String.length s)%nat -> P t) -> P s) ->
  forall s, P s.
Proof.
  intros H s. remember (String.length s) as n eqn:E. revert s E.
  induction n as [n IH] using lt_wf_ind. intros s ->.
  apply H. intros t Ht. apply (IH _ Ht). reflexivity.
Qed.

Lemma cstr_well_formed s : well_formed s = true -> cstr s = s.
Proof.
  induction s as [s IH] using string_length_ind.
  destruct s as [| c t]; [reflexivity|].
  cbn [well_formed cstr].
  destruct (Z.eqb_spec (code c) 37) as [E | N]; cbn [negb].
  - rewrite E. cbn. destruct t as [| c1 [| c2 t2]]; try discriminate.
    destruct (hexval (code c1)) eqn:H1; [|discriminate].
    destruct (hexval (code c2)) eqn:H2; [|discriminate].
    intros W. f_equal. cbn [cstr].
    assert (code c1 <> 0) by (intros Z0; rewrite Z0 in H1; discriminate).
    assert (code c2 <> 0) by (intros Z0; rewrite Z0 in H2; discriminate).
    destruct (Z.eqb_spec (code c1) 0); [contradiction|].
    destruct (Z.eqb_spec (code c2) 0); [contradiction|].
    do 2 f_equal. apply IH; [cbn; lia | exact W].
  - intros W. apply andb_true_iff in W. destruct W as [W1 W2].
    apply andb_true_iff in W1. destruct W1 as [W0 _].
    destruct (Z.eqb_spec (code c) 0); [lia|].
    f_equal. apply IH; [cbn; lia | exact W2].
Qed.

(** On a well-formed specification the loop of [str_delim_set] ends with
    a table that flags what it flagged before and the bytes denoted. *)
Lemma delim_loop_denoted (s : string) :
  forall (j : Z) (d0 : list Z),
  well_formed s = true -> Z.of_nat (length d0) = 256 ->
  exists d, delim_loop s j d0 = Some d /\ Z.of_nat (length d) = 256 /\
    forall b, 0 <= b < 256 ->
      (is_delim d b = Some true <-> is_delim d0 b = Some true \/ In b (denoted s)).
Proof.
  induction s as [s IH] using string_length_ind.
  intros j d0 W Hl. destruct s as [| c t].
  - exists d0. split; [reflexivity|]. split; [exact Hl|]. intros b _. cbn. tauto.
  - cbn [well_formed delim_loop denoted] in *.
    destruct (Z.eqb_spec (code c) 37) as [E | N]; cbn [negb] in *.
    + destruct t as [| c1 [| c2 t2]]; try discriminate.
      destruct (hexval (code c1)) as [h1 |] eqn:H1; [|discriminate].
      destruct (hexval (code c2)) as [h2 |] eqn:H2; [|discriminate].
      unfold sscanf_x. rewrite H1, H2.
      pose proof (hexval_range _ _ H1). pose proof (hexval_range _ _ H2).
      unfold flag.
      destruct (Z.leb_spec 0 (16 * h1 + h2)); [|lia].
      destruct (Z.ltb_spec (16 * h1 + h2) (Z.of_nat (length d0))); [|lia].
      cbn [andb].
      destruct (IH t2 ltac:(cbn; lia) (16 * h1 + h2)
                  (<[Z.to_nat (16 * h1 + h2) := 1]> d0) W
                  ltac:(rewrite length_insert; exact Hl))
        as (d & Ed & Ld & Hd).
      exists d. split; [exact Ed|]. split; [exact Ld|].
      intros b Hb. rewrite (Hd b Hb), is_delim_flag by lia.
      cbn [In]. intuition congruence.
    + apply andb_true_iff in W. destruct W as [W1 W2].
      apply andb_true_iff in W1. destruct W1 as [W0 W1].
      apply Z.ltb_lt in W0, W1.
      assert (Eu : char_to_uint (code c) = code c).
      { unfold char_to_uint, char_to_int.
        destruct (Z.ltb_spec (code c) 128); [|lia].
        apply Z.mod_small. lia. }
      rewrite Eu. unfold flag.
      destruct (Z.leb_spec 0 (code c)); [|lia].
      destruct (Z.ltb_spec (code c) (Z.of_nat (length d0))); [|lia].
      cbn [andb].
      destruct (IH t ltac:(cbn; lia) j (<[Z.to_nat (code c) := 1]> d0) W2
                  ltac:(rewrite length_insert; exact Hl))
        as (d & Ed & Ld & Hd).
      exists d. split; [exact Ed|]. split; [exact Ld|].
      intros b Hb. rewrite (Hd b Hb), is_delim_flag by lia.
      cbn [In]. intuition congruence.
Qed.

Lemma is_delim_zeros (n : nat) (b : Z) : is_delim (replicate n 0) b <> Some true.
Proof.
  unfold is_delim, at_index. destruct (b <? 0); [discriminate|].
  destruct (replicate n 0 !! Z.to_nat b) as [v |] eqn:E; [|discriminate].
  apply lookup_replicate in E. destruct E as [-> _]. discriminate.
Qed.

(** [str_delim_set] on a well-formed specification that is not empty:
    a byte is flagged exactly when the specification denotes it. *)
Lemma delim_set_well_formed (DELIM_NOT_INIT j0 : Z) (delim : list Z) (s : string) :
  Z.of_nat (length delim) = 256 -> well_formed s = true -> s <> EmptyString ->
  exists d, str_delim_set DELIM_NOT_INIT j0 delim s = Some d /\
    forall b, 0 <= b < 256 -> (is_delim d b = Some true <-> In b (denoted s)).
Proof.
  intros Hl W Hne. unfold str_delim_set.
  rewrite (cstr_well_formed s W).
  destruct s as [| c t]; [contradiction|].
  replace (strlen (String c t) =? 0) with false
    by (symmetry; apply Z.eqb_neq; unfold strlen; cbn [String.length]; lia).
  destruct (delim_loop_denoted (String c t) j0 (replicate (length delim) 0) W)
    as (d & Ed & _ & Hd).
  { rewrite length_replicate. exact Hl. }
  exists d. split; [exact Ed|].
  intros b Hb. rewrite (Hd b Hb).
  split; [intros [X | X]; [exfalso; exact (is_delim_zeros _ _ X) | exact X]
         | intros X; right; exact X].
Qed.

End DelimFacts.

(** * The claims *)

(** ** Storage: C1 and C2 *)

Module MatrixClaims.
Import HMatrix MatrixSpec MatrixFacts CIntFacts Triangle TriangleFacts Examples.

Section Claims.
Context {float : Type}.
Variable fzero : float.
Local Abbreviation hmatrix := (hmatrix_t float).

(** What the code satisfies of C2. After [hmatrix_alloc], whether
    [calloc] succeeds or not, the matrix is triangular exactly when the
    two ranges coincide, [size] is [xl * (xl + 1) / 2] then and
    [(x.n - x.i) * (y.n - y.i)] otherwise, and the index that
    [hmatrix_set] computes sends every coordinate of the active rectangle
    into [0, size), is injective (up to the swap of the two coordinates
    when triangular) and reaches every index below [size].  The ranges
    are those of a configured matrix and the products fit in an [int]. *)
Theorem packing_bijection (m0 : hmatrix) (ok : bool) :
  ranges_ok m0 -> fits_int m0 ->
  let m := fst (hmatrix_alloc fzero ok m0) in
  triangular m = same_range m0 /\
  size m = (if same_range m0 then xlen m0 * (xlen m0 + 1) / 2
            else xlen m0 * ylen m0) /\
  (forall a b, in_range (x m) a -> in_range (y m) b ->
     0 <= hmatrix_set_idx m a b < size m) /\
  (forall a b a' b',
     in_range (x m) a -> in_range (y m) b ->
     in_range (x m) a' -> in_range (y m) b' ->
     hmatrix_set_idx m a b = hmatrix_set_idx m a' b' ->
     (a = a' /\ b = b') \/ (triangular m = true /\ a = b' /\ b = a')) /\
  (forall k, 0 <= k < size m ->
     exists a b, in_range (x m) a /\ in_range (y m) b /\ hmatrix_set_idx m a b = k).
Proof.
  intros Hr Hf m.
  pose proof (alloc_shaped fzero m0 ok Hr Hf) as Hs. fold m in Hs.
  pose proof Hs as (Ex & Ey & Et & Esz). rewrite Ex, Ey, Et.
  split; [reflexivity|]. split.
  - rewrite Esz. destruct (same_range m0); [|reflexivity].
    apply tri_size_spec. destruct Hr as [? _]. unfold xlen. lia.
  - split; [|split].
    + intros a b Ha Hb. eapply set_idx_range; eassumption.
    + intros a b a' b' Ha Hb Ha' Hb' E.
      eapply set_idx_inj; eassumption.
    + intros k Hk. eapply set_idx_onto; eassumption.
Qed.


End Claims.

Lemma packing_bijection_witness :
  ranges_ok m3 /\ fits_int m3 /\
  let m := fst (hmatrix_alloc 0 true m3) in
  triangular m = same_range m3 /\
  size m = (if same_range m3 then xlen m3 * (xlen m3 + 1) / 2
            else xlen m3 * ylen m3) /\
  (forall a b, in_range (x m) a -> in_range (y m) b ->
     0 <= hmatrix_set_idx m a b < size m) /\
  (forall a b a' b',
     in_range (x m) a -> in_range (y m) b ->
     in_range (x m) a' -> in_range (y m) b' ->
     hmatrix_set_idx m a b = hmatrix_set_idx m a' b' ->
     (a = a' /\ b = b') \/ (triangular m = true /\ a = b' /\ b = a')) /\
  (forall k, 0 <= k < size m ->
     exists a b, in_range (x m) a /\ in_range (y m) b /\ hmatrix_set_idx m a b = k).
Proof.
  assert (Hr : ranges_ok m3) by (repeat split; vm_compute; congruence).
  assert (Hf : fits_int m3) by (vm_compute; congruence).
  split; [exact Hr|]. split; [exact Hf|].
  exact (packing_bijection 0 m3 true Hr Hf).
Defined.


(** C2 at the input that decides it, a matrix over 46342 strings with
    the full ranges: the ranges coincide and [xl * (xl + 1) / 2] is
    1073813653, which an [int] holds, but the product [xl * (xl - 1)]
    that [hmatrix_alloc] forms first is 2147534622 and exceeds
    [INT_MAX]; converted to [int] it is negative, and the size stored is
    -1073669995, whether [calloc] succeeds or not.  The coordinate (0, 0)
    of the active rectangle has the index 0 and is not in [0, size). *)
Theorem packing_size_overflow :
  ranges_ok m46342 /\ same_range m46342 = true /\
  xlen m46342 * (xlen m46342 + 1) / 2 = 1073813653 /\
  1073813653 <= CInt.INT_MAX /\
  CInt.INT_MAX < xlen m46342 * (xlen m46342 - 1) /\
  forall ok : bool,
    let m := fst (hmatrix_alloc 0 ok m46342) in
    triangular m = true /\
    size m = -1073669995 /\
    size m <> xlen m46342 * (xlen m46342 + 1) / 2 /\
    in_range (x m) 0 /\ in_range (y m) 0 /\
    hmatrix_set_idx m 0 0 = 0 /\
    ~ (0 <= hmatrix_set_idx m 0 0 < size m).
Proof.
  split; [repeat split; vm_compute; congruence|].
  split; [reflexivity|]. split; [reflexivity|].
  split; [vm_compute; congruence|]. split; [reflexivity|].
  intros ok m.
  assert (Es : size m = -1073669995) by (destruct ok; vm_compute; reflexivity).
  assert (Ei : hmatrix_set_idx m 0 0 = 0) by (destruct ok; vm_compute; reflexivity).
  split; [destruct ok; reflexivity|]. split; [exact Es|].
  split; [rewrite Es; vm_compute; discriminate|].
  split; [destruct ok; split; vm_compute; congruence|].
  split; [destruct ok; split; vm_compute; congruence|].
  split; [exact Ei|]. rewrite Ei, Es. lia.
Qed.

(** Outside the matrices that [hmatrix_alloc] leaves the two index
    computations differ: with the flag [triangular] set and the ranges 1:3
    and 0:3, [hmatrix_set] and [hmatrix_get] address different cells. *)
Example idx_differs_off_shape :
  hmatrix_set_idx m_off 2 2 = 3 /\ hmatrix_get_idx m_off 2 2 = 4.
Proof. split; reflexivity. Qed.

End MatrixClaims.

(** ** Compute: C3 *)

Module ComputeClaims.
Import HMatrix MatrixSpec MatrixFacts CIntFacts LoopFacts ComputeSpec
  ComputeFacts Examples.

Section Claims.
Context {float double hstring_t : Type}.
Variable fzero : float.
Variable d2f : double -> float.
Local Abbreviation hmatrix := (hmatrix_t float).

(** C3. [hmatrix_compute] on an allocated matrix and an array [s] that
    covers the ranges returns, and then for every pair [(xi, yi)] of the
    active ranges, with [yi <= xi] when the matrix is triangular, the
    diagonal included, [hmatrix_get] yields at that coordinate the value
    of [measure (s[xi], s[yi])] as the assignment [float f = measure(...)]
    stores it; for a measure whose results are [float]s, as the measures
    of the specification are, that is the result itself.  [measure] is
    called on pairs of the active ranges only, and in a triangular matrix
    on no pair with [yi > xi]. *)
Theorem compute_complete (m0 m : hmatrix) (s : list hstring_t)
  (measure : hstring_t -> hstring_t -> double) :
  ranges_ok m0 -> fits_int m0 ->
  r_n (x m0) <= Z.of_nat (length s) -> r_n (y m0) <= Z.of_nat (length s) ->
  filled (fst (hmatrix_alloc fzero true m0)) m ->
  exists m' calls,
    hmatrix_compute d2f m s measure = Some (m', calls) /\
    (forall xi yi,
       in_range (x m) xi -> in_range (y m) yi ->
       (triangular m = true -> yi <= xi) ->
       exists sx sy, at_index s xi = Some sx /\ at_index s yi = Some sy /\
         hmatrix_get m' xi yi = Some (d2f (measure sx sy))) /\
    (forall (f2d : float -> double) (fmeasure : hstring_t -> hstring_t -> float),
       (forall v, d2f (f2d v) = v) ->
       (forall a b, measure a b = f2d (fmeasure a b)) ->
       forall xi yi,
       in_range (x m) xi -> in_range (y m) yi ->
       (triangular m = true -> yi <= xi) ->
       exists sx sy, at_index s xi = Some sx /\ at_index s yi = Some sy /\
         hmatrix_get m' xi yi = Some (fmeasure sx sy)) /\
    (forall xi yi, In (xi, yi) calls ->
       in_range (x m) xi /\ in_range (y m) yi /\
       (triangular m = true -> yi <= xi)).
Proof.
  intros Hr Hf Hsx Hsy Hm.
  assert (Al : allocated m0 m).
  { eapply filled_allocated; [apply alloc_allocated; assumption | exact Hm]. }
  destruct (compute_all d2f s measure m0 Hr Hf Hsx Hsy m Al)
    as ([m' calls] & E & Al' & Hd & Hc).
  cbn [fst snd] in *.
  pose proof Al as [(Ex & Ey & Et & _) _].
  pose proof Hr as (Hx1 & Hx2 & Hy1 & Hy2).
  exists m', calls. split; [exact E|]. rewrite Ex, Ey, Et.
  assert (Main : forall xi yi,
    in_range (x m0) xi -> in_range (y m0) yi ->
    (same_range m0 = true -> yi <= xi) ->
    exists sx sy, at_index s xi = Some sx /\ at_index s yi = Some sy /\
      hmatrix_get m' xi yi = Some (d2f (measure sx sy))).
  { intros xi yi Ix Iy Ht.
    destruct (at_index_some s xi) as (sx & Esx); [unfold in_range in Ix; lia|].
    destruct (at_index_some s yi) as (sy & Esy); [unfold in_range in Iy; lia|].
    exists sx, sy. split; [exact Esx|]. split; [exact Esy|].
    destruct (Hd xi yi sx sy) as (vs & Hv & Hl); try assumption.
    { split; [exact Ix|]. split; [exact Iy|]. exact Ht. }
    { left. unfold in_range in Ix. lia. }
    destruct Al' as [Hs' _].
    pose proof (set_idx_range m0 m' xi yi Hr Hf Hs' Ix Iy) as Hi.
    unfold hmatrix_get. rewrite (get_idx_set_idx m0 m') by exact Hs'.
    destruct (Z.ltb_spec (hmatrix_set_idx m' xi yi) (size m')) as [_ | ?]; [|lia].
    rewrite Hv. unfold at_index.
    destruct (Z.ltb_spec (hmatrix_set_idx m' xi yi) 0) as [? | _]; [lia|].
    exact Hl. }
  split; [exact Main|]. split.
  - intros f2d fmeasure Hrt Hfm xi yi Ix Iy Ht.
    destruct (Main xi yi Ix Iy Ht) as (sx & sy & Esx & Esy & G).
    exists sx, sy. split; [exact Esx|]. split; [exact Esy|].
    rewrite G, Hfm, Hrt. reflexivity.
  - intros xi yi Hin. apply Hc. exact Hin.
Qed.

End Claims.

Lemma compute_complete_witness :
  let m := fst (hmatrix_alloc 0 true m3) in
  let s := [10; 20; 30] in
  ranges_ok m3 /\ fits_int m3 /\
  r_n (x m3) <= Z.of_nat (length s) /\ r_n (y m3) <= Z.of_nat (length s) /\
  filled m m /\
  exists m' calls,
    hmatrix_compute (fun d => d) m s Z.sub = Some (m', calls) /\
    (forall xi yi,
       in_range (x m) xi -> in_range (y m) yi ->
       (triangular m = true -> yi <= xi) ->
       exists sx sy, at_index s xi = Some sx /\ at_index s yi = Some sy /\
         hmatrix_get m' xi yi = Some (Z.sub sx sy)) /\
    (forall xi yi, In (xi, yi) calls ->
       in_range (x m) xi /\ in_range (y m) yi /\
       (triangular m = true -> yi <= xi)).
Proof.
  assert (Hr : ranges_ok m3) by (repeat split; vm_compute; congruence).
  assert (Hf : fits_int m3) by (vm_compute; congruence).
  assert (H1 : r_n (x m3) <= Z.of_nat (length [10; 20; 30]))
    by (vm_compute; congruence).
  assert (H2 : r_n (y m3) <= Z.of_nat (length [10; 20; 30]))
    by (vm_compute; congruence).
  assert (Hm : filled (fst (hmatrix_alloc 0 true m3)) (fst (hmatrix_alloc 0 true m3)))
    by constructor.
  repeat (split; [assumption|]).
  destruct (compute_complete 0 (fun d => d) m3 _ [10; 20; 30] Z.sub Hr Hf H1 H2 Hm)
    as (m' & calls & E & A & _ & C).
  exists m', calls. split; [exact E|]. split; [exact A | exact C].
Defined.

(** The matrix of the three strings, row by row: the differences of the
    pairs (0,0), (1,0), (2,0), (1,1), (2,1), (2,2). *)
Example compute_m3 :
  hmatrix_compute (fun d => d) (fst (hmatrix_alloc 0 true m3)) [10; 20; 30] Z.sub
  = Some (mk_hmatrix 3 (mk_range 0 3) (mk_range 0 3) true 6
            (Some [0; 10; 20; 0; 10; 0]) None None,
          [(0, 0); (1, 0); (1, 1); (2, 0); (2, 1); (2, 2)]).
Proof. vm_compute. reflexivity. Qed.

End ComputeClaims.

(** ** Range parsing: C4 and C5 *)

Module RangeClaims.
Import HMatrix CString CIntFacts RangeSpec RangeFacts MatrixFacts.

(** C4, as the code has it. On the default range [(0, N)], [N] an [int]
    that is not negative: the empty string and [":"] give [(0, N)];
    ["3:"] gives [(3, N)] when [4 <= N]; [":5"] gives [(0, 5)] when
    [5 <= N]; for a smaller [N] the sanity checks print an error for
    ["3:"] and for [":5"] and give [(0, N)]; ["2:-1"] with [N = 10] gives
    [(2, 9)]; ["7:3"] prints an error and gives [(0, N)]. *)
Theorem parse_range_table (N : Z) :
  0 <= N <= CInt.INT_MAX ->
  parse_range (mk_range 0 N) "" N = (mk_range 0 N, []) /\
  fst (parse_range (mk_range 0 N) ":" N) = mk_range 0 N /\
  (4 <= N -> parse_range (mk_range 0 N) "3:" N = (mk_range 3 N, [])) /\
  (5 <= N -> parse_range (mk_range 0 N) ":5" N = (mk_range 0 5, [])) /\
  parse_range (mk_range 0 10) "2:-1" 10 = (mk_range 2 9, []) /\
  parse_range (mk_range 0 N) "7:3" N =
    (mk_range 0 N, [Error "Invalid range '%s:%s'. Using default '0:%d'."]) /\
  (N < 4 -> parse_range (mk_range 0 N) "3:" N =
     (mk_range 0 N, [Error "Invalid range '%s:%s'. Using default '0:%d'."])) /\
  (N < 5 -> parse_range (mk_range 0 N) ":5" N =
     (mk_range 0 N, [Error "Invalid range '%s:%s'. Using default '0:%d'."])).
Proof.
  intros HN.
  split; [reflexivity|].
  split; [|split; [|split; [|split; [|split; [|split]]]]].
  - rewrite (parse_range_sides N ":" "" "") by (try reflexivity; try discriminate; exact HN).
    change (stored_range N "" "") with (mk_range 0 (if N <? 0 then N + N else N)).
    destruct (Z.ltb_spec N 0); [lia|].
    cbn [fst]. destruct (valid_rangeb N (mk_range 0 N)); reflexivity.
  - intros H4.
    rewrite (parse_range_sides N "3:" "3" "") by (try reflexivity; try discriminate; exact HN).
    change (stored_range N "3" "") with (mk_range 3 (if N <? 0 then N + N else N)).
    change (junk "3") with false. change (junk "") with false.
    destruct (Z.ltb_spec N 0); [lia|].
    assert (V : valid_rangeb N (mk_range 3 N) = true)
      by (apply valid_rangeb_spec; unfold valid_range; cbn; lia).
    rewrite V. reflexivity.
  - intros H5.
    rewrite (parse_range_sides N ":5" "" "5") by (try reflexivity; try discriminate; exact HN).
    change (stored_range N "" "5") with (mk_range 0 5).
    change (junk "5") with false. change (junk "") with false.
    assert (V : valid_rangeb N (mk_range 0 5) = true)
      by (apply valid_rangeb_spec; unfold valid_range; cbn; lia).
    rewrite V. reflexivity.
  - vm_compute. reflexivity.
  - rewrite (parse_range_sides N "7:3" "7" "3") by (try reflexivity; try discriminate; exact HN).
    change (stored_range N "7" "3") with (mk_range 7 3).
    change (junk "7") with false. change (junk "3") with false.
    assert (V : valid_rangeb N (mk_range 7 3) = false).
    { unfold valid_rangeb. cbn. rewrite andb_false_r. reflexivity. }
    rewrite V. reflexivity.
  - intros H4.
    rewrite (parse_range_sides N "3:" "3" "") by (try reflexivity; try discriminate; exact HN).
    change (stored_range N "3" "") with (mk_range 3 (if N <? 0 then N + N else N)).
    change (junk "3") with false. change (junk "") with false.
    destruct (Z.ltb_spec N 0); [lia|].
    assert (V : valid_rangeb N (mk_range 3 N) = false).
    { destruct (valid_rangeb N (mk_range 3 N)) eqn:V; [|reflexivity].
      apply valid_rangeb_spec in V. unfold valid_range in V. cbn in V. lia. }
    rewrite V. reflexivity.
  - intros H5.
    rewrite (parse_range_sides N ":5" "" "5") by (try reflexivity; try discriminate; exact HN).
    change (stored_range N "" "5") with (mk_range 0 5).
    change (junk "5") with false. change (junk "") with false.
    assert (V : valid_rangeb N (mk_range 0 5) = false).
    { destruct (valid_rangeb N (mk_range 0 5)) eqn:V; [|reflexivity].
      apply valid_rangeb_spec in V. unfold valid_range in V. cbn in V. lia. }
    rewrite V. reflexivity.
Qed.

Lemma parse_range_table_witness :
  0 <= 10 <= CInt.INT_MAX /\
  parse_range (mk_range 0 10) "" 10 = (mk_range 0 10, []) /\
  fst (parse_range (mk_range 0 10) ":" 10) = mk_range 0 10 /\
  (4 <= 10 -> parse_range (mk_range 0 10) "3:" 10 = (mk_range 3 10, [])) /\
  (5 <= 10 -> parse_range (mk_range 0 10) ":5" 10 = (mk_range 0 5, [])) /\
  parse_range (mk_range 0 10) "2:-1" 10 = (mk_range 2 9, []) /\
  parse_range (mk_range 0 10) "7:3" 10 =
    (mk_range 0 10, [Error "Invalid range '%s:%s'. Using default '0:%d'."]) /\
  (10 < 4 -> parse_range (mk_range 0 10) "3:" 10 =
     (mk_range 0 10, [Error "Invalid range '%s:%s'. Using default '0:%d'."])) /\
  (10 < 5 -> parse_range (mk_range 0 10) ":5" 10 =
     (mk_range 0 10, [Error "Invalid range '%s:%s'. Using default '0:%d'."])).
Proof.
  assert (H : 0 <= 10 <= CInt.INT_MAX) by (split; vm_compute; congruence).
  split; [exact H|]. exact (parse_range_table 10 H).
Defined.

(** C4 as stated fails for a small [N]: with [N = 2] the range string
    ["3:"] does not give [(3, 2)]; the sanity checks print an error and
    give [(0, 2)]. *)
Lemma parse_range_table_small_N :
  parse_range (mk_range 0 2) "3:" 2 =
    (mk_range 0 2, [Error "Invalid range '%s:%s'. Using default '0:%d'."]) /\
  fst (parse_range (mk_range 0 2) "3:" 2) <> mk_range 3 2.
Proof. split; [vm_compute; reflexivity | vm_compute; discriminate]. Qed.

(** The same for [":5"]: with [N = 2] it does not give [(0, 5)]. *)
Example parse_range_colon_5_small_N :
  parse_range (mk_range 0 2) ":5" 2 =
    (mk_range 0 2, [Error "Invalid range '%s:%s'. Using default '0:%d'."]) /\
  fst (parse_range (mk_range 0 2) ":5" 2) <> mk_range 0 5.
Proof. split; [vm_compute; reflexivity | vm_compute; discriminate]. Qed.

(** C5, as the code has it. On the default range [(0, N)]: the result
    satisfies the constraints or is the full range; a string that is not
    empty and has no [':'] prints an error and gives the full range; a
    side that is not empty and no int (optional white space, an optional
    sign, one or more decimal digits) prints an error and counts as
    missing; and for sides whose ints fit in an [int], when the range
    that the two sides denote violates [0 <= i], [n <= N], [i < n], an
    error is printed and the result is the full range, otherwise the
    result is the range denoted. *)
Theorem parse_range_errors (N : Z) (str : string) :
  0 <= N <= CInt.INT_MAX ->
  let res := parse_range (mk_range 0 N) str N in
  (valid_range N (fst res) \/ fst res = mk_range 0 N) /\
  (cstr str <> EmptyString -> strchr_split (cstr str) ":" = None ->
     res = (mk_range 0 N, [Error "Invalid range string '%s'."])) /\
  (forall l rt,
     cstr str <> EmptyString -> strchr_split (cstr str) ":" = Some (l, rt) ->
     (l <> EmptyString -> number l = None ->
        In (Error "Could not parse range '%s:...'.") (snd res)) /\
     (rt <> EmptyString -> number rt = None ->
        In (Error "Could not parse range '...:%s'.") (snd res)) /\
     (CInt.in_int (side_denotes l 0) -> CInt.in_int (side_denotes rt N) ->
        (~ valid_range N (denoted_range N l rt) ->
           fst res = mk_range 0 N /\
           In (Error "Invalid range '%s:%s'. Using default '0:%d'.") (snd res)) /\
        (valid_range N (denoted_range N l rt) ->
           fst res = denoted_range N l rt))).
Proof.
  intros HN res. split; [|split].
  - unfold res, parse_range.
    destruct (strlen (cstr str) =? 0) eqn:E0; [right; reflexivity|].
    apply strlen_nonempty in E0.
    destruct (strchr_split (cstr str) ":") as [[l rt] |] eqn:Es.
    + fold (parse_range (mk_range 0 N) str N).
      assert (P := parse_range_sides N str l rt HN E0 Es).
      unfold parse_range in P. apply strlen_nonempty in E0.
      rewrite E0, Es in P. rewrite P. cbn [fst].
      destruct (valid_rangeb N (stored_range N l rt)) eqn:V; [left | right; reflexivity].
      apply valid_rangeb_spec. exact V.
    + right. reflexivity.
  - intros Hne Hs. unfold res, parse_range.
    apply strlen_nonempty in Hne. rewrite Hne, Hs. reflexivity.
  - intros l rt Hne Hs. unfold res.
    rewrite (parse_range_sides N str l rt HN Hne Hs). cbn [fst snd].
    split; [|split].
    + intros Hl Hn.
      assert (J : junk l = true) by (apply junk_no_number; split; assumption).
      rewrite J. apply in_or_app. left. left. reflexivity.
    + intros Hr Hn.
      assert (J : junk rt = true) by (apply junk_no_number; split; assumption).
      rewrite J. apply in_or_app. right. apply in_or_app. left. left. reflexivity.
    + intros Il Ir. rewrite (stored_range_denoted N l rt Il Ir). split.
      * intros V. destruct (valid_rangeb N (denoted_range N l rt)) eqn:Vb.
        -- exfalso. apply V. apply valid_rangeb_spec. exact Vb.
        -- split; [reflexivity|].
           apply in_or_app. right. apply in_or_app. right. left. reflexivity.
      * intros V. apply valid_rangeb_spec in V. rewrite V. reflexivity.
Qed.

Lemma parse_range_errors_witness :
  0 <= 10 <= CInt.INT_MAX /\
  let res := parse_range (mk_range 0 10) "2x:15" 10 in
  (valid_range 10 (fst res) \/ fst res = mk_range 0 10) /\
  (cstr "2x:15" <> EmptyString -> strchr_split (cstr "2x:15") ":" = None ->
     res = (mk_range 0 10, [Error "Invalid range string '%s'."])) /\
  (forall l rt,
     cstr "2x:15" <> EmptyString -> strchr_split (cstr "2x:15") ":" = Some (l, rt) ->
     (l <> EmptyString -> number l = None ->
        In (Error "Could not parse range '%s:...'.") (snd res)) /\
     (rt <> EmptyString -> number rt = None ->
        In (Error "Could not parse range '...:%s'.") (snd res)) /\
     (CInt.in_int (side_denotes l 0) -> CInt.in_int (side_denotes rt 10) ->
        (~ valid_range 10 (denoted_range 10 l rt) ->
           fst res = mk_range 0 10 /\
           In (Error "Invalid range '%s:%s'. Using default '0:%d'.") (snd res)) /\
        (valid_range 10 (denoted_range 10 l rt) ->
           fst res = denoted_range 10 l rt))).
Proof.
  assert (H : 0 <= 10 <= CInt.INT_MAX) by (split; vm_compute; congruence).
  split; [exact H|]. exact (parse_range_errors 10 "2x:15" H).
Defined.

(** C5 as stated fails on a side that is no number: ["2x:5"] with
    [N = 10] prints an error for the left side, and the result is
    [(0, 5)], not the full range. *)
Lemma parse_range_2x5 :
  number "2x" = None /\
  parse_range (mk_range 0 10) "2x:5" 10 =
    (mk_range 0 5, [Error "Could not parse range '%s:...'."]) /\
  fst (parse_range (mk_range 0 10) "2x:5" 10) <> mk_range 0 10.
Proof.
  split; [reflexivity|].
  split; [vm_compute; reflexivity | vm_compute; discriminate].
Qed.

(** An int that does not fit in an [int] is stored converted to [int]:
    in ["4294967298:7"] with [N = 10] the left side denotes 2^32 + 2, and
    [parse_range] gives [(2, 7)] and prints nothing. *)
Example parse_range_beyond_int :
  number "4294967298" = Some 4294967298 /\
  ~ valid_range 10 (denoted_range 10 "4294967298" "7") /\
  parse_range (mk_range 0 10) "4294967298:7" 10 = (mk_range 2 7, []).
Proof.
  split; [reflexivity|]. split; [|vm_compute; reflexivity].
  intros (_ & _ & H). vm_compute in H. discriminate.
Qed.

End RangeClaims.

(** ** Splitting: C6 *)

Module SplitClaims.
Import HMatrix CString MatrixSpec MatrixFacts CIntFacts SplitSpec SplitFacts
  Examples.

(** What the code satisfies of C6. For a y range within the first 2^30
    indices: a split string that [sscanf] reads as [blocks] and [index]
    is fatal when [blocks <= 0], [blocks] exceeds the height of the y
    range, the computed height is not positive, or [index] is outside
    [0, blocks).  When the y range has fewer than 2^24 rows, so that the
    division in single precision is exact, and
    [1 <= blocks <= y.n - y.i]: the computed height is the integer above
    [(y.n - y.i) / blocks]; for each [index] in [0, blocks)
    [hmatrix_split] replaces [y] with the block from
    [y.i + index * height] to the smaller of [y.n] and
    [y.i + (index + 1) * height]; the blocks of two different indices do
    not meet and together they make up the y range. *)
Theorem split_disjoint_cover {float : Type} (m : hmatrix_t float) :
  0 <= r_i (y m) <= 2 ^ 30 -> 0 <= r_n (y m) <= 2 ^ 30 ->
  (forall blocks index str,
     sscanf_d_colon_d (cstr str) = Some (blocks, index) ->
     blocks <= 0 \/ blocks > ylen m \/ c_height m blocks <= 0 \/
     index < 0 \/ index >= blocks ->
     exists fmt, hmatrix_split m str = Fatal fmt) /\
  (ylen m < 2 ^ 24 ->
   forall blocks, 1 <= blocks <= ylen m ->
     c_height m blocks = ceil_div (ylen m) blocks /\
     (forall index str,
        sscanf_d_colon_d (cstr str) = Some (blocks, index) ->
        0 <= index < blocks ->
        hmatrix_split m str = Done (set_y m (split_block m blocks index))) /\
     (forall z,
        in_range (y m) z <->
        exists index, 0 <= index < blocks /\
                      in_range (split_block m blocks index) z) /\
     (forall i1 i2 z,
        0 <= i1 < blocks -> 0 <= i2 < blocks -> i1 <> i2 ->
        ~ (in_range (split_block m blocks i1) z /\
           in_range (split_block m blocks i2) z))).
Proof.
  intros Hyi Hyn. split.
  - intros blocks index str Hs H.
    rewrite (hmatrix_split_parsed m str blocks index Hs).
    apply split_blocks_fatal; try assumption.
    apply (sscanf_int _ _ _ Hs).
  - intros Hyl blocks Hb. split; [|split; [|split]].
    + apply c_height_exact; assumption.
    + intros index str Hs Hi.
      rewrite (hmatrix_split_parsed m str blocks index Hs).
      apply split_blocks_done; assumption.
    + intros z. apply split_block_cover; assumption.
    + intros i1 i2 z H1 H2 Hne.
      destruct (Z.lt_trichotomy i1 i2) as [L | [E | L]]; [| contradiction |].
      * apply split_block_disjoint; solve [assumption | lia].
      * intros [A B].
        apply (split_block_disjoint m Hyi Hyn Hyl blocks i2 i1 z);
          solve [assumption | lia | split; assumption].
Qed.

Lemma split_disjoint_cover_witness :
  (0 <= r_i (y m10) <= 2 ^ 30) /\ (0 <= r_n (y m10) <= 2 ^ 30) /\
  ylen m10 < 2 ^ 24 /\ 1 <= 2 <= ylen m10 /\
  sscanf_d_colon_d (cstr "2:1") = Some (2, 1) /\
  hmatrix_split m10 "2:1" = Done (set_y m10 (mk_range 5 10)).
Proof.
  assert (H1 : 0 <= r_i (y m10) <= 2 ^ 30) by (split; vm_compute; congruence).
  assert (H2 : 0 <= r_n (y m10) <= 2 ^ 30) by (split; vm_compute; congruence).
  assert (H3 : ylen m10 < 2 ^ 24) by (vm_compute; congruence).
  assert (H4 : 1 <= 2 <= ylen m10) by (split; vm_compute; congruence).
  assert (H5 : sscanf_d_colon_d (cstr "2:1") = Some (2, 1)) by reflexivity.
  assert (H6 : 0 <= 1 < 2) by lia.
  repeat (split; [assumption|]).
  destruct (split_disjoint_cover m10 H1 H2) as [_ C].
  destruct (C H3 2 H4) as (_ & D & _).
  exact (D 1 "2:1"%string H5 H6).
Defined.

(** C6 at the input that decides it, a matrix over 2^24 + 1 strings with
    the x range 0:1, whose y range of 2^24 + 1 rows is split into one
    block: the conversion to [float] rounds the number of rows
    to 2^24, the computed height is 2^24 where the integer above
    [(y.n - y.i) / blocks] is 2^24 + 1, and [hmatrix_split] with ["1:0"]
    replaces [y] with a range that leaves out the last row, so the only
    block does not make up the y range. *)
Theorem split_beyond_single_precision :
  hmatrix_xrange m_all "0:1" = (m_big, []) /\
  1 <= 1 <= ylen m_big /\
  sscanf_d_colon_d (cstr "1:0") = Some (1, 0) /\
  c_height m_big 1 = 16777216 /\
  ceil_div (ylen m_big) 1 = 16777217 /\
  split_block m_big 1 0 = y m_big /\
  hmatrix_split m_big "1:0" = Done (set_y m_big (mk_range 0 16777216)) /\
  in_range (y m_big) 16777216 /\ ~ in_range (mk_range 0 16777216) 16777216.
Proof.
  split; [vm_compute; reflexivity|].
  split; [split; vm_compute; congruence|].
  split; [reflexivity|]. split; [vm_compute; reflexivity|].
  split; [vm_compute; reflexivity|]. split; [vm_compute; reflexivity|].
  split; [vm_compute; reflexivity|].
  split; [split; vm_compute; congruence|].
  intros [_ H]. vm_compute in H. congruence.
Qed.

(** Scenario E4 of the specification: the two halves of ten rows. *)
Example split_two_blocks :
  hmatrix_split m10 "2:0" = Done (set_y m10 (mk_range 0 5)) /\
  hmatrix_split m10 "2:1" = Done (set_y m10 (mk_range 5 10)).
Proof. split; vm_compute; reflexivity. Qed.

(** Four blocks of five rows have height 2; the block of index 3 starts
    after the last row and is empty. *)
Example split_empty_block :
  hmatrix_split (set_y m10 (mk_range 0 5)) "4:3" =
  Done (set_y m10 (mk_range 6 5)).
Proof. vm_compute. reflexivity. Qed.

End SplitClaims.

(** ** Strings: C7, C8 and C9 *)

Module StrClaims.
Import Str CString DelimSpec Examples.

Section Claims.
Variable DELIM_NOT_INIT : Z.
Variable hash_str : list Z -> Z.
Variable sym_of_hash : Z -> Z.
Variable MurmurHash64B : list Z -> Z -> Z.
Variable sym_bytes : list Z -> list Z.
Variable sizeof_sym : Z.

(** C7 at the inputs that decide it. A ['%'] followed by one hexadecimal
    digit at the end of the string denotes no byte, yet it is not
    skipped: ["%a"] flags the byte 10.  The test of the source skips only
    a ['%'] that is the last character: ["x%"] flags the byte of ['x']
    alone.  The empty string does what [str_delim_reset] does. *)
Theorem delim_set_truncated (j0 : Z) (delim : list Z) :
  denoted "%a" = [] /\
  str_delim_set DELIM_NOT_INIT j0 (delim_initial DELIM_NOT_INIT) "%a"
    = Some (<[10%nat := 1]> (replicate 256 0)) /\
  is_delim (<[10%nat := 1]> (replicate 256 0)) 10 = Some true /\
  str_delim_set DELIM_NOT_INIT j0 (delim_initial DELIM_NOT_INIT) "x%"
    = Some (<[120%nat := 1]> (replicate 256 0)) /\
  str_delim_set DELIM_NOT_INIT j0 delim ""
    = Some (str_delim_reset DELIM_NOT_INIT delim).
Proof. repeat split; reflexivity. Qed.

(** C8. With the space as the only delimiter, [str_symbolize] turns
    ["  foo  bar  "] into two symbols, the hash of ["foo"] and then the
    hash of ["bar"], and these are the two symbols it makes of
    ["foo bar"]. *)
Theorem symbolize_collapse (j0 : Z) (x : str_t) :
  let foo := sym_of_hash (hash_str (bytes_of "foo")) in
  let bar := sym_of_hash (hash_str (bytes_of "bar")) in
  str_delim_set DELIM_NOT_INIT j0 (delim_initial DELIM_NOT_INIT) " "
    = Some space_only /\
  str_symbolize hash_str sym_of_hash true space_only (str_convert x "  foo  bar  ")
    = Some (mk_str TYPE_SYM (Some (Syms [foo; bar])) 2 0 None, []) /\
  str_symbolize hash_str sym_of_hash true space_only (str_convert x "foo bar")
    = Some (mk_str TYPE_SYM (Some (Syms [foo; bar])) 2 0 None, []).
Proof. repeat split; vm_compute; reflexivity. Qed.

(** C9. [str_hash2] does not depend on the order of its arguments; for
    two strings of the same variant whose pointers are set it is the XOR
    of the two hashes that [str_hash1] computes, with no message; for
    variants that differ or a pointer that is NULL it prints a warning and
    returns 0. *)
Theorem hash2_symmetry (x y : str_t) :
  str_hash2 MurmurHash64B sym_bytes sizeof_sym x y
    = str_hash2 MurmurHash64B sym_bytes sizeof_sym y x /\
  (type x = type y -> str x <> None -> str y <> None ->
   str_hash2 MurmurHash64B sym_bytes sizeof_sym x y
     = (Z.lxor (fst (str_hash1 MurmurHash64B sym_bytes sizeof_sym x))
               (fst (str_hash1 MurmurHash64B sym_bytes sizeof_sym y)), [])) /\
  (type x <> type y \/ str x = None \/ str y = None ->
   str_hash2 MurmurHash64B sym_bytes sizeof_sym x y
     = (0, [Warning "Nothing to hash. Strings are missing or incompatible."])).
Proof.
  unfold str_hash2, str_hash1.
  destruct x as [tx [px |] lx ix sx], y as [ty [py |] ly iy sy]; cbn;
    destruct tx, ty; cbn; repeat split;
    try reflexivity; try congruence; try (intros; exfalso; tauto);
    try (unfold ret; f_equal; apply Z.lxor_comm).
  all: intros [H | [H | H]]; congruence.
Qed.

End Claims.

Lemma hash2_symmetry_witness :
  let x := mk_str TYPE_CHAR (Some (Chars [97; 98])) 2 0 None in
  let y := mk_str TYPE_CHAR (Some (Chars [99])) 1 1 None in
  let murmur := fun (key : list Z) (seed : Z) => fold_right Z.add seed key in
  type x = type y /\ str x <> None /\ str y <> None /\
  str_hash2 murmur (fun s => s) 8 x y = str_hash2 murmur (fun s => s) 8 y x /\
  str_hash2 murmur (fun s => s) 8 x y
    = (Z.lxor (fst (str_hash1 murmur (fun s => s) 8 x))
              (fst (str_hash1 murmur (fun s => s) 8 y)), []).
Proof.
  cbv zeta.
  assert (H1 : type (mk_str TYPE_CHAR (Some (Chars [97; 98])) 2 0 None)
               = type (mk_str TYPE_CHAR (Some (Chars [99])) 1 1 None))
    by reflexivity.
  assert (H2 : str (mk_str TYPE_CHAR (Some (Chars [97; 98])) 2 0 None) <> None)
    by discriminate.
  assert (H3 : str (mk_str TYPE_CHAR (Some (Chars [99])) 1 1 None) <> None)
    by discriminate.
  repeat (split; [assumption|]).
  destruct (hash2_symmetry (fun key seed => fold_right Z.add seed key)
              (fun s => s) 8
              (mk_str TYPE_CHAR (Some (Chars [97; 98])) 2 0 None)
              (mk_str TYPE_CHAR (Some (Chars [99])) 1 1 None)) as (A & B & _).
  split; [exact A | exact (B H1 H2 H3)].
Defined.

End StrClaims.

(** ** Initialisation: C10 *)

Module InitClaims.
Import HMatrix Examples.

Section Claims.
Context {float hstring_t : Type}.
Variable fzero : float.
Variable label : hstring_t -> float.
Variable src : hstring_t -> option string.

(** C10, as the code has it. When [calloc] fails for the labels or for
    the sources, [hmatrix_init] prints one error and returns to its
    caller: the error is not fatal. *)
Theorem init_calloc_failure (m0 : hmatrix_t float) (calloc_labels calloc_srcs : bool)
  (s : list hstring_t) (n : Z) :
  0 <= n -> calloc_labels = false \/ calloc_srcs = false ->
  exists r, hmatrix_init fzero label src (Some m0) calloc_labels calloc_srcs s n
    = Some (r, [Error "Failed to initialize matrix for similarity values"]).
Proof.
  intros Hn H. unfold hmatrix_init.
  destruct (Z.ltb_spec n 0); [lia|].
  destruct calloc_labels, calloc_srcs; cbn;
    try (eexists; reflexivity).
  destruct H; discriminate.
Qed.

End Claims.

Lemma init_calloc_failure_witness :
  0 <= 3 /\ (false = false \/ true = false) /\
  exists r, hmatrix_init 0 (fun h : Z => h) (fun _ => None) (Some m3) false true
              [1; 2; 3] 3
    = Some (r, [Error "Failed to initialize matrix for similarity values"]).
Proof.
  assert (H1 : 0 <= 3) by lia.
  assert (H2 : false = false \/ true = false) by (left; reflexivity).
  split; [exact H1|]. split; [exact H2|].
  exact (init_calloc_failure 0 (fun h : Z => h) (fun _ => None) m3 false true
           [1; 2; 3] 3 H1 H2).
Defined.

(** C10 as stated fails: when [calloc] fails for the labels the caller
    receives a matrix object, the one whose [labels] is NULL. *)
Lemma init_returns_partial_object :
  hmatrix_init 0 (fun h : Z => h) (fun _ => None) (Some m3) false true [1; 2; 3] 3
  = Some (Some (mk_hmatrix 3 (mk_range 0 3) (mk_range 0 3) true 0 None None
                  (Some [None; None; None])),
          [Error "Failed to initialize matrix for similarity values"]).
Proof. reflexivity. Qed.

End InitClaims.

(** * Further properties of the code *)

(** ** The loop of [hmatrix_init] *)

Module InitFacts.
Import HMatrix LoopFacts.

Section Init.
Context {float hstring_t : Type}.
Variable fzero : float.
Variable label : hstring_t -> float.
Variable src : hstring_t -> option string.
Variable s : list hstring_t.

(** Writing the next element of a half-filled array. *)
Lemma insert_next {A B} (f : A -> B) (l : list A) (d : B) (i k : nat) (h : A) :
  l !! i = Some h ->
  <[i := f h]> (map f (take i l) ++ replicate (S k) d)
  = map f (take (S i) l) ++ replicate k d.
Proof.
  intros Hl.
  assert (Hi : (i < length l)%nat) by (eapply lookup_lt_Some; exact Hl).
  assert (Hlen : length (map f (take i l)) = i).
  { rewrite length_map, length_take. lia. }
  rewrite insert_app_r_alt by lia. rewrite Hlen, Nat.sub_diag. cbn.
  rewrite (take_S_r l i h Hl), map_app, <- app_assoc. reflexivity.
Qed.

(** The loop of [hmatrix_init] fills the two arrays from the strings. *)
Lemma copy_loop (n : Z) :
  0 <= n <= Z.of_nat (length s) ->
  for_int 0 n (copy_details label src s)
    (replicate (Z.to_nat n) fzero, replicate (Z.to_nat n) None)
  = Some (map label (take (Z.to_nat n) s), map src (take (Z.to_nat n) s)).
Proof.
  intros Hn.
  destruct (for_int_inv
    (fun i (st : list float * list (option string)) =>
       0 <= i <= n /\
       fst st = map label (take (Z.to_nat i) s) ++ replicate (Z.to_nat (n - i)) fzero /\
       snd st = map src (take (Z.to_nat i) s) ++ replicate (Z.to_nat (n - i)) None)
    (copy_details label src s) n
    (replicate (Z.to_nat n) fzero, replicate (Z.to_nat n) None))
    as ([lab sr] & E & _ & H1 & H2).
  - cbn. rewrite Z.sub_0_r. split; [lia|]. split; reflexivity.
  - intros i [lab sr] Hi (_ & H1 & H2). cbn [fst snd] in *.
    unfold copy_details, at_index.
    destruct (Z.ltb_spec i 0); [lia|].
    destruct (lookup_lt_is_Some_2 s (Z.to_nat i) ltac:(lia)) as [h Hh].
    rewrite Hh. eexists; split; [reflexivity|]. cbn [fst snd].
    split; [lia|].
    replace (Z.to_nat (n - i)) with (S (Z.to_nat (n - (i + 1)))) in H1, H2 by lia.
    replace (Z.to_nat (i + 1)) with (S (Z.to_nat i)) by lia.
    subst lab sr. split; apply insert_next; exact Hh.
  - rewrite E. cbn [fst snd] in *.
    rewrite Z.max_r in H1, H2 by lia.
    rewrite Z.sub_diag in H1, H2. cbn in H1, H2.
    rewrite app_nil_r in H1, H2. subst. reflexivity.
Qed.

End Init.
End InitFacts.

(** ** Cells of an allocated matrix *)

Module CellFacts.
Import HMatrix MatrixSpec MatrixFacts CIntFacts Triangle TriangleFacts.

Section Cells.
Context {float : Type}.
Variable m0 : hmatrix_t float.
Hypothesis Hr : ranges_ok m0.
Hypothesis Hf : fits_int m0.

(** [hmatrix_set] at a coordinate in range writes the cell of its index. *)
Lemma set_in_range (m : hmatrix_t float) vs a b v :
  shaped m0 m -> values m = Some vs -> Z.of_nat (length vs) = Z.max 0 (size m) ->
  in_range (x m0) a -> in_range (y m0) b ->
  hmatrix_set m a b v =
  Some (set_values m (Some (<[Z.to_nat (hmatrix_set_idx m a b) := v]> vs))).
Proof.
  intros Hs Hv Hl Ha Hb.
  pose proof (set_idx_range m0 m a b Hr Hf Hs Ha Hb) as Hi.
  unfold hmatrix_set. rewrite Hv.
  destruct (Z.ltb_spec (hmatrix_set_idx m a b) (size m)) as [_ | ?]; [|lia].
  destruct (Z.leb_spec 0 (hmatrix_set_idx m a b)) as [_ | ?]; [|lia].
  destruct (Z.ltb_spec (hmatrix_set_idx m a b) (Z.of_nat (length vs))) as [_ | ?]; [|lia].
  reflexivity.
Qed.

(** [hmatrix_get] at a coordinate in range reads the cell of the index of
    [hmatrix_set]. *)
Lemma get_in_range (m : hmatrix_t float) vs a b :
  shaped m0 m -> values m = Some vs ->
  in_range (x m0) a -> in_range (y m0) b ->
  hmatrix_get m a b = vs !! Z.to_nat (hmatrix_set_idx m a b).
Proof.
  intros Hs Hv Ha Hb.
  pose proof (set_idx_range m0 m a b Hr Hf Hs Ha Hb) as Hi.
  unfold hmatrix_get. rewrite (get_idx_set_idx m0 m) by exact Hs. rewrite Hv.
  destruct (Z.ltb_spec (hmatrix_set_idx m a b) (size m)) as [_ | ?]; [|lia].
  unfold at_index.
  destruct (Z.ltb_spec (hmatrix_set_idx m a b) 0) as [? | _]; [lia|]. reflexivity.
Qed.

(** In a triangular matrix the index does not depend on the order of the
    coordinates. *)
Lemma set_idx_swap (m : hmatrix_t float) a b :
  shaped m0 m -> same_range m0 = true ->
  in_range (x m0) a -> in_range (x m0) b ->
  hmatrix_set_idx m b a = hmatrix_set_idx m a b.
Proof.
  intros Hs S Ha Hb. rewrite !(set_idx_tri m0 m) by assumption.
  rewrite Z.min_comm, Z.max_comm. reflexivity.
Qed.

End Cells.
End CellFacts.

(** ** Initialisation *)

Module InitProps.
Import HMatrix InitFacts Examples.

Section Props.
Context {float hstring_t : Type}.
Variable fzero : float.
Variable label : hstring_t -> float.
Variable src : hstring_t -> option string.

(** X1. When the three allocations succeed and the array [s] holds at
    least [n] strings, [hmatrix_init] prints nothing and returns a matrix
    over [n] strings: both ranges are the full range [(0, n)], the matrix
    is triangular, [values] is NULL, and [labels] and [srcs] hold the
    label and the source of the first [n] strings in order.  The field
    [size] is not written: it keeps what the block of [malloc] held. *)
Theorem init_copies_details (raw : hmatrix_t float) (s : list hstring_t) (n : Z) :
  0 <= n <= Z.of_nat (length s) ->
  hmatrix_init fzero label src (Some raw) true true s n =
  Some (Some (mk_hmatrix n (mk_range 0 n) (mk_range 0 n) true (size raw) None
                (Some (map label (take (Z.to_nat n) s)))
                (Some (map src (take (Z.to_nat n) s)))), []).
Proof.
  intros Hn. unfold hmatrix_init.
  destruct (Z.ltb_spec n 0) as [? | _]; [lia|].
  rewrite (copy_loop fzero label src s n Hn). reflexivity.
Qed.

End Props.

Lemma init_copies_details_witness :
  0 <= 2 <= Z.of_nat (length [5; 6; 7]) /\
  hmatrix_init 0 (fun h : Z => h + 1) (fun _ => Some "f"%string) (Some m3) true true
    [5; 6; 7] 2 =
  Some (Some (mk_hmatrix 2 (mk_range 0 2) (mk_range 0 2) true (size m3) None
                (Some (map (fun h : Z => h + 1) (take (Z.to_nat 2) [5; 6; 7])))
                (Some (map (fun _ : Z => Some "f"%string) (take (Z.to_nat 2) [5; 6; 7])))),
        []).
Proof.
  assert (H : 0 <= 2 <= Z.of_nat (length [5; 6; 7])) by (vm_compute; split; congruence).
  split; [exact H|].
  exact (init_copies_details 0 (fun h : Z => h + 1) (fun _ => Some "f"%string) m3
           [5; 6; 7] 2 H).
Defined.

End InitProps.

(** ** Storage *)

Module CellProps.
Import HMatrix MatrixSpec MatrixFacts CIntFacts Triangle TriangleFacts CellFacts
  Examples MoreExamples.

Section Props.
Context {float : Type}.
Variable fzero : float.
Local Abbreviation hmatrix := (hmatrix_t float).

(** X2. [hmatrix_alloc] hands out a matrix of zeros: after a successful
    allocation [hmatrix_get] returns, at every coordinate of the active
    ranges, the zero with which [calloc] fills the array; nothing is
    printed, and the fields [num], [x], [y], [labels] and [srcs] are
    those of the matrix before the call. *)
Theorem alloc_reads_zero (m0 : hmatrix) (a b : Z) :
  ranges_ok m0 -> fits_int m0 ->
  in_range (x m0) a -> in_range (y m0) b ->
  let m := fst (hmatrix_alloc fzero true m0) in
  hmatrix_get m a b = Some fzero /\
  snd (hmatrix_alloc fzero true m0) = [] /\
  num m = num m0 /\ x m = x m0 /\ y m = y m0 /\
  labels m = labels m0 /\ srcs m = srcs m0.
Proof.
  intros Hr Hf Ha Hb m.
  pose proof (alloc_shaped fzero m0 true Hr Hf) as Hs. fold m in Hs.
  pose proof (set_idx_range m0 m a b Hr Hf Hs Ha Hb) as Hi.
  split.
  - rewrite (get_in_range m0 Hr Hf m (replicate (Z.to_nat (size m)) fzero))
      by (assumption || reflexivity).
    apply lookup_replicate_2. lia.
  - unfold m, hmatrix_alloc.
    destruct ((r_n (x m0) =? r_n (y m0)) && (r_i (x m0) =? r_i (y m0)));
      cbn; repeat split; reflexivity.
Qed.




End Props.

Lemma alloc_reads_zero_witness :
  ranges_ok m_rect /\ fits_int m_rect /\
  in_range (x m_rect) 1 /\ in_range (y m_rect) 2 /\
  let m := fst (hmatrix_alloc 0 true m_rect) in
  hmatrix_get m 1 2 = Some 0 /\
  snd (hmatrix_alloc 0 true m_rect) = [] /\
  num m = num m_rect /\ x m = x m_rect /\ y m = y m_rect /\
  labels m = labels m_rect /\ srcs m = srcs m_rect.
Proof.
  assert (Hr : ranges_ok m_rect) by (repeat split; vm_compute; congruence).
  assert (Hf : fits_int m_rect) by (split; vm_compute; congruence).
  assert (Ha : in_range (x m_rect) 1) by (split; vm_compute; congruence).
  assert (Hb : in_range (y m_rect) 2) by (split; vm_compute; congruence).
  repeat (split; [assumption|]).
  exact (alloc_reads_zero 0 m_rect 1 2 Hr Hf Ha Hb).
Defined.




End CellProps.

(** ** Numbers in decimal are read back *)

Module DecimalFacts.
Import CString DecimalSpec CIntFacts HMatrix RangeSpec RangeFacts.

Lemma code_digit d : 0 <= d <= 9 -> code (digit d) = 48 + d.
Proof.
  intros H. unfold code, digit. rewrite N_ascii_embedding by lia. lia.
Qed.

Lemma isdigit_digit d : 0 <= d <= 9 -> isdigit (digit d) = true.
Proof.
  intros H. unfold isdigit. rewrite code_digit by exact H.
  apply andb_true_iff. split; [apply Z.leb_le | apply Z.leb_le]; lia.
Qed.

Lemma append_assoc (a b c : string) : ((a ++ b) ++ c = a ++ (b ++ c))%string.
Proof. induction a as [| x a IH]; [reflexivity | cbn; rewrite IH; reflexivity]. Qed.

Lemma append_empty (s : string) : (s ++ EmptyString)%string = s.
Proof. induction s as [| c s IH]; [reflexivity | cbn; rewrite IH; reflexivity]. Qed.

Lemma all_digits_app s t :
  all_digits (s ++ t) = all_digits s && all_digits t.
Proof.
  induction s as [| c s IH]; [reflexivity|]. cbn. rewrite IH, andb_assoc. reflexivity.
Qed.

Lemma decimal_fuel_digits (fuel : nat) :
  forall n, 0 <= n -> (0 < fuel)%nat ->
  all_digits (decimal_fuel fuel n) = true /\ decimal_fuel fuel n <> EmptyString.
Proof.
  induction fuel as [| k IH]; intros n Hn Hf; [lia|].
  cbn [decimal_fuel]. destruct (Z.ltb_spec n 10).
  - cbn. rewrite isdigit_digit by lia. split; [reflexivity | discriminate].
  - split.
    + rewrite all_digits_app. cbn.
      rewrite isdigit_digit by (pose proof (Z.mod_pos_bound n 10); lia).
      destruct k as [| k']; [reflexivity|].
      destruct (IH (n / 10)) as [H1 _];
        [apply Z.div_pos; lia | lia | rewrite H1; reflexivity].
    + destruct (decimal_fuel k (n / 10)); discriminate.
Qed.

Lemma decimal_digits n : 0 <= n ->
  all_digits (decimal n) = true /\ decimal n <> EmptyString.
Proof. intros Hn. apply decimal_fuel_digits; [exact Hn | lia]. Qed.

(** Reading back the digits of a number. *)
Lemma scan_decimal_fuel (fuel : nat) :
  forall n s, 0 <= n < 2 ^ Z.of_nat fuel ->
  scan_digits 0 (decimal_fuel fuel n ++ s) = scan_digits n s.
Proof.
  induction fuel as [| k IH]; intros n s Hn.
  - cbn in Hn. assert (n = 0) as -> by lia. reflexivity.
  - cbn [decimal_fuel]. destruct (Z.ltb_spec n 10).
    + cbn [append scan_digits]. rewrite isdigit_digit, code_digit by lia.
      f_equal. lia.
    + rewrite append_assoc. rewrite IH.
      * cbn [append scan_digits].
        pose proof (Z.mod_pos_bound n 10 ltac:(lia)).
        rewrite isdigit_digit, code_digit by lia.
        f_equal. pose proof (Z.div_mod n 10). lia.
      * rewrite Nat2Z.inj_succ, Z.pow_succ_r in Hn by lia.
        split; [apply Z.div_pos; lia|].
        apply Z.div_lt_upper_bound; lia.
Qed.

Lemma decimal_fuel_enough n : 0 <= n -> 0 <= n < 2 ^ Z.of_nat (S (Z.to_nat (Z.log2 n))).
Proof.
  intros Hn. split; [exact Hn|].
  destruct (Z.eq_dec n 0) as [-> | NZ]; [reflexivity|].
  rewrite Nat2Z.inj_succ, Z2Nat.id by apply Z.log2_nonneg.
  apply Z.log2_spec. lia.
Qed.

Lemma scan_decimal n : 0 <= n -> scan_digits 0 (decimal n) = (n, EmptyString).
Proof.
  intros Hn. rewrite <- (append_empty (decimal n)). unfold decimal.
  rewrite scan_decimal_fuel; [reflexivity | apply decimal_fuel_enough; exact Hn].
Qed.

Lemma digit_char (c : ascii) :
  isdigit c = true ->
  isspace c = false /\ (code c =? 45) = false /\ (code c =? 43) = false /\
  (code c =? 0) = false /\ Ascii.eqb c ":" = false.
Proof.
  unfold isdigit, isspace. intros H. apply andb_true_iff in H.
  destruct H as [H1 H2]. apply Z.leb_le in H1, H2.
  repeat split; try (apply Z.eqb_neq; lia).
  - apply orb_false_iff. split; [apply Z.eqb_neq; lia|].
    apply andb_false_iff. right. apply Z.leb_gt. lia.
  - apply Ascii.eqb_neq. intros ->. change (code ":") with 58 in H2. lia.
Qed.

(** [strtol] on a decimal number reads all of it. *)
Lemma strtol_digits (s : string) :
  all_digits s = true -> s <> EmptyString ->
  strtol s = (clamp_long (fst (scan_digits 0 s)), snd (scan_digits 0 s)) /\
  strtol (String "-" s) =
    (clamp_long (- fst (scan_digits 0 s)), snd (scan_digits 0 s)).
Proof.
  intros Hd Hne. destruct s as [| c t]; [contradiction|].
  cbn [all_digits] in Hd. apply andb_true_iff in Hd. destruct Hd as [Hc _].
  destruct (digit_char c Hc) as (S1 & S2 & S3 & _).
  split.
  - unfold strtol. cbn [skip_space]. rewrite S1. cbn [scan_sign]. rewrite S2, S3.
    cbn [starts_with_digit]. rewrite Hc.
    destruct (scan_digits 0 (String c t)). reflexivity.
  - unfold strtol. cbn [skip_space]. change (isspace "-") with false. cbv iota.
    cbn [scan_sign]. change (code "-" =? 45) with true. cbv iota.
    cbn [starts_with_digit]. rewrite Hc.
    destruct (scan_digits 0 (String c t)). reflexivity.
Qed.

Lemma strtol_signed z :
  CInt.in_int z -> strtol (signed_decimal z) = (z, EmptyString).
Proof.
  intros Hz. unfold signed_decimal. int_bounds.
  destruct (Z.ltb_spec z 0).
  - destruct (decimal_digits (- z)) as [Hd Hne]; [lia|].
    destruct (strtol_digits _ Hd Hne) as [_ E]. rewrite E.
    rewrite scan_decimal by lia. cbn [fst snd]. f_equal.
    unfold clamp_long, CInt.LONG_MIN, CInt.LONG_MAX. lia.
  - destruct (decimal_digits z) as [Hd Hne]; [lia|].
    destruct (strtol_digits _ Hd Hne) as [E _]. rewrite E.
    rewrite scan_decimal by lia. cbn [fst snd]. f_equal.
    unfold clamp_long, CInt.LONG_MIN, CInt.LONG_MAX. lia.
Qed.

Lemma cstr_digits (a b : string) :
  all_digits a = true -> cstr (a ++ b) = (a ++ cstr b)%string.
Proof.
  induction a as [| c a IH]; [reflexivity|]. cbn [all_digits append cstr].
  intros H. apply andb_true_iff in H. destruct H as [Hc Ha].
  destruct (digit_char c Hc) as (_ & _ & _ & N0 & _). rewrite N0, (IH Ha).
  reflexivity.
Qed.

Lemma cstr_signed z : cstr (signed_decimal z) = signed_decimal z.
Proof.
  unfold signed_decimal. destruct (Z.ltb_spec z 0).
  - cbn [cstr]. change (code "-" =? 0) with false. cbv iota. f_equal.
    destruct (decimal_digits (- z)) as [Hd _]; [lia|].
    rewrite <- (append_empty (decimal (- z))) at 1.
    rewrite cstr_digits by exact Hd. apply append_empty.
  - destruct (decimal_digits z) as [Hd _]; [lia|].
    rewrite <- (append_empty (decimal z)) at 1.
    rewrite cstr_digits by exact Hd. apply append_empty.
Qed.

Lemma strchr_digits (a b : string) :
  all_digits a = true ->
  strchr_split (a ++ String ":" b) ":" = Some (a, b).
Proof.
  induction a as [| c a IH]; [reflexivity|]. cbn [all_digits append strchr_split].
  intros H. apply andb_true_iff in H. destruct H as [Hc Ha].
  destruct (digit_char c Hc) as (_ & _ & _ & _ & N). rewrite N, (IH Ha).
  reflexivity.
Qed.

Lemma signed_nonempty z : (strlen (signed_decimal z) =? 0) = false.
Proof.
  apply strlen_nonempty. unfold signed_decimal.
  destruct (Z.ltb_spec z 0); [discriminate|].
  apply decimal_digits. lia.
Qed.

(** [parse_range] on the string of two numbers. *)
Lemma parse_range_numbers (r : range_t) (i n N : Z) :
  0 <= N <= CInt.INT_MAX -> 0 <= i <= CInt.INT_MAX -> CInt.in_int n ->
  parse_range r (colon_string i n) N = range_checks (mk_range i n) N.
Proof.
  intros HN Hi Hn.
  destruct (decimal_digits i) as [Hd Hne]; [lia|].
  unfold parse_range, colon_string.
  rewrite cstr_digits by exact Hd. cbn [cstr]. change (code ":" =? 0) with false.
  cbv iota. rewrite cstr_signed.
  assert (E0 : (strlen (decimal i ++ String ":" (signed_decimal n)) =? 0) = false).
  { apply strlen_nonempty. destruct (decimal i); [contradiction | discriminate]. }
  rewrite E0, (strchr_digits _ _ Hd).
  assert (Ei : strtol (decimal i) = (i, EmptyString)).
  { destruct (strtol_digits _ Hd Hne) as [E _]. rewrite E, scan_decimal by lia.
    cbn [fst snd]. f_equal. int_bounds.
    unfold clamp_long, CInt.LONG_MIN, CInt.LONG_MAX. lia. }
  assert (Eli : (strlen (decimal i) =? 0) = false) by (apply strlen_nonempty; exact Hne).
  unfold parse_side. rewrite Ei, Eli, (strtol_signed n Hn), signed_nonempty.
  change (strlen EmptyString =? 0) with true. cbv iota.
  rewrite !bind_eq. unfold ret, set_n, set_i. cbn [fst snd app r_i r_n].
  rewrite !to_int_id by (int_bounds; lia).
  destruct (range_checks (mk_range i n) N). reflexivity.
Qed.

(** [%d] on a decimal number followed by a character that is no digit. *)
Lemma scan_d_decimal (n : Z) (rest : string) :
  0 <= n <= CInt.INT_MAX -> starts_with_digit rest = false ->
  scan_d (decimal n ++ rest) = Some (n, rest).
Proof.
  intros Hn Hr. destruct (decimal_digits n) as [Hd Hne]; [lia|].
  assert (Es : scan_digits 0 (decimal n ++ rest) = (n, rest)).
  { unfold decimal. rewrite scan_decimal_fuel by (apply decimal_fuel_enough; lia).
    destruct rest as [| c t]; [reflexivity|]. cbn in Hr. cbn [scan_digits].
    rewrite Hr. reflexivity. }
  destruct (decimal n) as [| c t] eqn:Ed; [contradiction|].
  cbn [all_digits] in Hd. apply andb_true_iff in Hd. destruct Hd as [Hc _].
  destruct (digit_char c Hc) as (S1 & S2 & S3 & _).
  unfold scan_d. cbn [append skip_space]. rewrite S1. cbn [scan_sign].
  rewrite S2, S3. cbn [starts_with_digit]. rewrite Hc.
  cbn [append] in Es. rewrite Es. f_equal. f_equal.
  int_bounds. rewrite to_int_id; unfold clamp_long, CInt.LONG_MIN, CInt.LONG_MAX;
    int_bounds; lia.
Qed.

Lemma sscanf_colon_string (a b : Z) :
  0 <= a <= CInt.INT_MAX -> 0 <= b <= CInt.INT_MAX ->
  sscanf_d_colon_d (cstr (colon_string a b)) = Some (a, b).
Proof.
  intros Ha Hb. unfold colon_string.
  destruct (decimal_digits a) as [Hd _]; [lia|].
  rewrite cstr_digits by exact Hd. cbn [cstr]. change (code ":" =? 0) with false.
  cbv iota. rewrite cstr_signed.
  unfold sscanf_d_colon_d. rewrite scan_d_decimal by (exact Ha || reflexivity).
  change (code ":" =? 58) with true. cbv iota.
  unfold signed_decimal. destruct (Z.ltb_spec b 0); [lia|].
  rewrite <- (append_empty (decimal b)).
  rewrite scan_d_decimal by (exact Hb || reflexivity). reflexivity.
Qed.

End DecimalFacts.

(** ** Ranges under [hmatrix_xrange] and [hmatrix_yrange] *)

Module WithinFacts.
Import HMatrix CString CIntFacts RangeSpec RangeFacts MatrixSpec ConfigFacts.

Lemma set_x_same {float} (m : hmatrix_t float) : set_x m (x m) = m.
Proof. destruct m; reflexivity. Qed.

Lemma set_y_same {float} (m : hmatrix_t float) : set_y m (y m) = m.
Proof. destruct m; reflexivity. Qed.

(** A range that satisfies the constraints or is the full range stays
    so. *)
Lemma parse_range_within (r : range_t) (str : string) (N : Z) :
  0 <= N <= CInt.INT_MAX ->
  valid_range N r \/ r = mk_range 0 N ->
  valid_range N (fst (parse_range r str N)) \/
  fst (parse_range r str N) = mk_range 0 N.
Proof.
  intros HN Hr.
  assert (Hi : CInt.in_int (r_n r)).
  { destruct Hr as [(? & ? & ?) | ->]; cbn; int_bounds; lia. }
  destruct (parse_range_keeps r str N HN Hi) as [-> | [V | ->]].
  - exact Hr.
  - left. exact V.
  - right. reflexivity.
Qed.

End WithinFacts.

(** ** Range strings *)

Module RangeProps.
Import HMatrix CString CIntFacts RangeSpec RangeFacts MatrixSpec ConfigFacts
  WithinFacts DecimalSpec DecimalFacts Examples.

(** X6. [hmatrix_xrange] and [hmatrix_yrange] keep the ranges of a matrix
    inside its strings: when a range satisfies [0 <= i < n <= num] or is
    the full range [(0, num)] before the call, so it does after the call,
    whatever the range string; the call changes no other field of the
    matrix; and the empty string changes nothing and prints nothing. *)
Theorem ranges_stay_within {float} (m : hmatrix_t float) (str : string) :
  0 <= num m <= CInt.INT_MAX ->
  valid_range (num m) (x m) \/ x m = mk_range 0 (num m) ->
  valid_range (num m) (y m) \/ y m = mk_range 0 (num m) ->
  let mx := fst (hmatrix_xrange m str) in
  let my := fst (hmatrix_yrange m str) in
  (valid_range (num mx) (x mx) \/ x mx = mk_range 0 (num mx)) /\
  mx = set_x m (x mx) /\
  (valid_range (num my) (y my) \/ y my = mk_range 0 (num my)) /\
  my = set_y m (y my) /\
  hmatrix_xrange m EmptyString = (m, []) /\
  hmatrix_yrange m EmptyString = (m, []).
Proof.
  intros HN Hx Hy. cbv zeta. unfold hmatrix_xrange, hmatrix_yrange.
  rewrite !bind_eq. unfold ret. cbn [fst snd x y num set_x set_y].
  split; [apply parse_range_within; assumption|].
  split; [reflexivity|].
  split; [apply parse_range_within; assumption|].
  split; [reflexivity|].
  assert (E : forall r N, parse_range r EmptyString N = (r, [])) by reflexivity.
  rewrite !E. cbn [fst snd app]. rewrite set_x_same, set_y_same.
  split; reflexivity.
Qed.

(** X7. The range string [":"] stands for the full range whatever the
    range was before: [parse_range] returns [(0, N)].  It does so in
    silence when there is at least one string; for [N = 0] the full range
    [(0, 0)] fails the sanity checks and the error for an invalid range
    is printed. *)
Theorem colon_is_full_range (r : range_t) (N : Z) :
  0 <= N <= CInt.INT_MAX ->
  parse_range r ":" N =
    (mk_range 0 N,
     if N =? 0 then [Error "Invalid range '%s:%s'. Using default '0:%d'."] else []).
Proof.
  intros HN. unfold parse_range.
  assert (E1 : cstr ":" = ":"%string) by reflexivity.
  assert (E2 : strchr_split ":" ":" = Some (EmptyString, EmptyString)) by reflexivity.
  assert (E3 : forall r0 d st f, parse_side r0 EmptyString d st f = (st r0 d, []))
    by reflexivity.
  rewrite E1, E2. change (strlen ":" =? 0) with false. cbv iota.
  rewrite !bind_eq, !E3. cbn [fst snd app].
  rewrite (range_checks_spec (set_n (set_i r 0) N) N HN)
    by (cbn; int_bounds; lia).
  cbn [set_n set_i r_i r_n].
  destruct (Z.ltb_spec N 0) as [? | _]; [lia|].
  unfold valid_rangeb. cbn [r_i r_n].
  destruct (Z.eqb_spec N 0) as [-> | NZ]; [reflexivity|].
  destruct (Z.leb_spec N N) as [_ | ?]; [|lia].
  destruct (Z.ltb_spec 0 N) as [_ | ?]; [|lia].
  reflexivity.
Qed.

(** X8. A range read back.  For a range with [0 <= i < n <= N], the
    range string of [i] and [n] in decimal parses to that range without a
    message, whatever the range was before; and so does the string whose
    right number is the negative [n - N], the end counted back from
    [N]. *)
Theorem parse_range_round_trip (r : range_t) (i n N : Z) :
  0 <= i < n -> n <= N <= CInt.INT_MAX ->
  parse_range r (colon_string i n) N = (mk_range i n, []) /\
  (n < N -> parse_range r (colon_string i (n - N)) N = (mk_range i n, [])).
Proof.
  intros Hi Hn.
  assert (HN : 0 <= N <= CInt.INT_MAX) by lia.
  assert (V : valid_rangeb N (mk_range i n) = true).
  { apply valid_rangeb_spec. unfold valid_range. cbn. lia. }
  split.
  - rewrite parse_range_numbers by (int_bounds; lia).
    rewrite (range_checks_spec (mk_range i n) N HN) by (cbn; int_bounds; lia).
    cbn [r_i r_n]. destruct (Z.ltb_spec n 0); [lia|]. rewrite V. reflexivity.
  - intros Hlt. rewrite parse_range_numbers by (int_bounds; lia).
    rewrite (range_checks_spec (mk_range i (n - N)) N HN) by (cbn; int_bounds; lia).
    cbn [r_i r_n]. destruct (Z.ltb_spec (n - N) 0); [|lia].
    replace (N + (n - N)) with n by lia. rewrite V. reflexivity.
Qed.

Lemma ranges_stay_within_witness :
  let mx := fst (hmatrix_xrange m10 "2:5") in
  let my := fst (hmatrix_yrange m10 "2:5") in
  0 <= num m10 <= CInt.INT_MAX /\
  (valid_range (num m10) (x m10) \/ x m10 = mk_range 0 (num m10)) /\
  (valid_range (num m10) (y m10) \/ y m10 = mk_range 0 (num m10)) /\
  (valid_range (num mx) (x mx) \/ x mx = mk_range 0 (num mx)) /\
  mx = set_x m10 (x mx) /\
  (valid_range (num my) (y my) \/ y my = mk_range 0 (num my)) /\
  my = set_y m10 (y my) /\
  hmatrix_xrange m10 EmptyString = (m10, []) /\
  hmatrix_yrange m10 EmptyString = (m10, []).
Proof.
  assert (HN : 0 <= num m10 <= CInt.INT_MAX) by (split; vm_compute; congruence).
  assert (Hx : valid_range (num m10) (x m10) \/ x m10 = mk_range 0 (num m10))
    by (right; reflexivity).
  assert (Hy : valid_range (num m10) (y m10) \/ y m10 = mk_range 0 (num m10))
    by (right; reflexivity).
  split; [exact HN|]. split; [exact Hx|]. split; [exact Hy|].
  exact (ranges_stay_within m10 "2:5" HN Hx Hy).
Defined.

Lemma colon_is_full_range_witness :
  0 <= 0 <= CInt.INT_MAX /\
  parse_range (mk_range 1 2) ":" 0 =
    (mk_range 0 0,
     if 0 =? 0 then [Error "Invalid range '%s:%s'. Using default '0:%d'."] else []).
Proof.
  assert (HN : 0 <= 0 <= CInt.INT_MAX) by (split; vm_compute; congruence).
  split; [exact HN|]. exact (colon_is_full_range (mk_range 1 2) 0 HN).
Defined.

Lemma parse_range_round_trip_witness :
  0 <= 2 < 5 /\ 5 <= 10 <= CInt.INT_MAX /\
  colon_string 2 5 = "2:5"%string /\ colon_string 2 (5 - 10) = "2:-5"%string /\
  parse_range (mk_range 0 10) (colon_string 2 5) 10 = (mk_range 2 5, []) /\
  (5 < 10 ->
   parse_range (mk_range 0 10) (colon_string 2 (5 - 10)) 10 = (mk_range 2 5, [])).
Proof.
  assert (Hi : 0 <= 2 < 5) by lia.
  assert (Hn : 5 <= 10 <= CInt.INT_MAX) by (split; vm_compute; congruence).
  split; [exact Hi|]. split; [exact Hn|].
  split; [reflexivity|]. split; [reflexivity|].
  exact (parse_range_round_trip (mk_range 0 10) 2 5 10 Hi Hn).
Defined.

End RangeProps.

(** ** Splitting *)

Module SplitProps.
Import HMatrix CString MatrixSpec MatrixFacts CIntFacts SplitSpec SplitFacts
  DecimalSpec DecimalFacts Examples.

(** X9. A split read back.  For a y range within the first 2^24
    indices, [hmatrix_split] with the split string of [blocks] and
    [index] in decimal, [1 <= blocks <= y.n - y.i] and
    [0 <= index < blocks], replaces [y] with the block of that index and
    changes nothing else. *)
Theorem split_round_trip {float : Type} (m : hmatrix_t float) (blocks index : Z) :
  0 <= r_i (y m) -> r_i (y m) <= r_n (y m) < 2 ^ 24 ->
  1 <= blocks <= ylen m -> 0 <= index < blocks ->
  hmatrix_split m (colon_string blocks index) =
  Done (set_y m (split_block m blocks index)).
Proof.
  intros Hi Hn Hb Hidx.
  change (2 ^ 24) with 16777216 in Hn.
  assert (Hyi : 0 <= r_i (y m) <= 2 ^ 30) by (change (2 ^ 30) with 1073741824; lia).
  assert (Hyn : 0 <= r_n (y m) <= 2 ^ 30) by (change (2 ^ 30) with 1073741824; lia).
  assert (Hyl : ylen m < 2 ^ 24)
    by (unfold ylen; change (2 ^ 24) with 16777216; lia).
  assert (Hbi : 0 <= blocks <= CInt.INT_MAX) by (unfold ylen in Hb; int_bounds; lia).
  assert (Hii : 0 <= index <= CInt.INT_MAX) by (unfold ylen in Hb; int_bounds; lia).
  rewrite (hmatrix_split_parsed m _ blocks index (sscanf_colon_string _ _ Hbi Hii)).
  apply (split_blocks_done m Hyi Hyn Hyl); assumption.
Qed.

(** X10. Splitting gives up the triangle.  On a matrix whose two ranges
    are the same, over at most 46340 strings, [hmatrix_split] with two
    or more blocks leaves a y range that differs from the x range, so
    [hmatrix_alloc] then allocates a rectangle: [triangular] is false and
    [size] is the width of the x range times the height of the block. *)
Theorem split_is_rectangular {float : Type} (fzero : float) (m : hmatrix_t float)
  (blocks index : Z) (str : string) (ok : bool) :
  y m = x m -> 0 <= r_i (x m) <= r_n (x m) -> r_n (x m) <= 46340 ->
  2 <= blocks <= ylen m -> 0 <= index < blocks ->
  sscanf_d_colon_d (cstr str) = Some (blocks, index) ->
  exists m', hmatrix_split m str = Done m' /\
    x m' = x m /\ y m' = split_block m blocks index /\
    let ma := fst (hmatrix_alloc fzero ok m') in
    triangular ma = false /\ size ma = xlen m * ylen m'.
Proof.
  intros Exy Hx Hn Hb Hi Es.
  assert (Hyi : 0 <= r_i (y m) <= 2 ^ 30)
    by (rewrite Exy; change (2 ^ 30) with 1073741824; lia).
  assert (Hyn : 0 <= r_n (y m) <= 2 ^ 30)
    by (rewrite Exy; change (2 ^ 30) with 1073741824; lia).
  assert (Hyl : ylen m < 2 ^ 24)
    by (unfold ylen; rewrite Exy; change (2 ^ 24) with 16777216; lia).
  rewrite (hmatrix_split_parsed m str blocks index Es).
  rewrite (split_blocks_done m Hyi Hyn Hyl blocks index) by lia.
  eexists; split; [reflexivity|]. split; [reflexivity|]. split; [reflexivity|].
  set (m' := set_y m (split_block m blocks index)).
  pose proof (ceil_div_bounds (ylen m) blocks ltac:(lia)) as [[H1 H2] [H3 H4]].
  assert (Hy' : y m' = split_block m blocks index) by reflexivity.
  assert (Hx' : x m' = x m) by reflexivity.
  unfold split_block in Hy'.
  set (h := ceil_div (ylen m) blocks) in *.
  assert (Hih : 0 <= index * h <= ylen m + blocks) by nia.
  assert (Ns : same_range m' = false).
  { unfold same_range. rewrite Hx', Hy'. cbn [r_i r_n].
    apply andb_false_iff.
    destruct (Z.eq_dec index 0) as [-> | Ni].
    - left. apply Z.eqb_neq. unfold ylen in *. rewrite Exy in *. nia.
    - right. apply Z.eqb_neq. rewrite Exy. nia. }
  assert (Hr : ranges_ok m').
  { unfold ranges_ok. rewrite Hx', Hy'. cbn [r_i r_n].
    unfold ylen in *. rewrite Exy in *. int_bounds. lia. }
  assert (Hf : fits_int m').
  { unfold fits_int. rewrite Ns. unfold xlen, ylen. rewrite Hx', Hy'. cbn [r_i r_n].
    unfold ylen in *. rewrite Exy in *. int_bounds. nia. }
  pose proof (alloc_shaped fzero m' ok Hr Hf) as (_ & _ & Et & Esz).
  cbv zeta. rewrite Et, Esz, Ns. split; [reflexivity|].
  unfold xlen. rewrite Hx'. reflexivity.
Qed.

Lemma split_round_trip_witness :
  0 <= r_i (y m10) /\ r_i (y m10) <= r_n (y m10) < 2 ^ 24 /\
  1 <= 2 <= ylen m10 /\ 0 <= 1 < 2 /\
  colon_string 2 1 = "2:1"%string /\
  hmatrix_split m10 (colon_string 2 1) = Done (set_y m10 (split_block m10 2 1)).
Proof.
  assert (Hi : 0 <= r_i (y m10)) by (vm_compute; congruence).
  assert (Hn : r_i (y m10) <= r_n (y m10) < 2 ^ 24) by (split; vm_compute; congruence).
  assert (Hb : 1 <= 2 <= ylen m10) by (split; vm_compute; congruence).
  assert (Hx : 0 <= 1 < 2) by lia.
  repeat (split; [assumption|]). split; [reflexivity|].
  exact (split_round_trip m10 2 1 Hi Hn Hb Hx).
Defined.

Lemma split_is_rectangular_witness :
  y m10 = x m10 /\ 0 <= r_i (x m10) <= r_n (x m10) /\ r_n (x m10) <= 46340 /\
  2 <= 2 <= ylen m10 /\ 0 <= 1 < 2 /\
  sscanf_d_colon_d (cstr "2:1") = Some (2, 1) /\
  exists m', hmatrix_split m10 "2:1" = Done m' /\
    x m' = x m10 /\ y m' = split_block m10 2 1 /\
    let ma := fst (hmatrix_alloc 0 true m') in
    triangular ma = false /\ size ma = xlen m10 * ylen m'.
Proof.
  assert (Exy : y m10 = x m10) by reflexivity.
  assert (Hx : 0 <= r_i (x m10) <= r_n (x m10)) by (split; vm_compute; congruence).
  assert (Hn : r_n (x m10) <= 46340) by (vm_compute; congruence).
  assert (Hb : 2 <= 2 <= ylen m10) by (split; vm_compute; congruence).
  assert (Hi : 0 <= 1 < 2) by lia.
  assert (Es : sscanf_d_colon_d (cstr "2:1") = Some (2, 1)) by reflexivity.
  repeat (split; [assumption|]).
  exact (split_is_rectangular 0 m10 2 1 "2:1" true Exy Hx Hn Hb Hi Es).
Defined.

End SplitProps.

(** ** The calls of [measure] *)

Module CallFacts.
Import HMatrix MatrixSpec MatrixFacts CIntFacts LoopFacts ComputeSpec ComputeFacts
  Triangle TriangleFacts.

Section Calls.
Context {float double hstring_t : Type}.
Variable d2f : double -> float.
Variable s : list hstring_t.
Variable measure : hstring_t -> hstring_t -> double.
Variable m0 : hmatrix_t float.

Hypothesis Hr : ranges_ok m0.
Hypothesis Hf : fits_int m0.
Hypothesis Hsx : r_n (x m0) <= Z.of_nat (length s).
Hypothesis Hsy : r_n (y m0) <= Z.of_nat (length s).

Local Abbreviation kept := (ComputeSpec.kept m0).
Local Abbreviation compute_inv := (ComputeSpec.compute_inv d2f s measure m0).

Local Abbreviation evaluated := (CallSpec.evaluated m0).
Local Abbreviation calls_inv := (CallSpec.calls_inv m0).

(** What an iteration adds to the calls. *)
Lemma compute_cell_calls (i j : Z) (st st' : hmatrix_t float * list (Z * Z)) :
  0 <= i < xlen m0 -> 0 <= j < ylen m0 ->
  shaped m0 (fst st) ->
  compute_cell d2f s measure i j st = Some st' ->
  snd st' = snd st ++
    (if same_range m0 && (j + r_i (y m0) >? i + r_i (x m0)) then []
     else [(i + r_i (x m0), j + r_i (y m0))]).
Proof.
  intros Hi Hj (Ex & Ey & Et & _) E. destruct st as [mm calls]. cbn [fst snd] in *.
  pose proof Hr as (Hx1 & Hx2 & Hy1 & Hy2). unfold xlen, ylen in Hi, Hj.
  unfold compute_cell in E. rewrite Ex, Ey, Et in E.
  rewrite !add_exact in E by (int_bounds; lia).
  destruct (same_range m0 && (j + r_i (y m0) >? i + r_i (x m0))).
  - injection E as <-. cbn. rewrite app_nil_r. reflexivity.
  - destruct (at_index s (i + r_i (x m0))); [|discriminate].
    destruct (at_index s (j + r_i (y m0))); [|discriminate].
    destruct (hmatrix_set mm _ _ _); [|discriminate].
    injection E as <-. reflexivity.
Qed.

Lemma tri_size_succ i : tri_size (i + 1) = tri_size i + (i + 1).
Proof.
  unfold tri_size. pose proof (twice_half i) as A. pose proof (twice_half (i + 1)) as B.
  replace (i + 1 - 1) with i in * by lia. nia.
Qed.

Lemma calls_step (i j : Z) (calls : list (Z * Z)) :
  0 <= i < xlen m0 -> 0 <= j < ylen m0 ->
  calls_inv i j calls ->
  calls_inv i (j + 1)
    (calls ++ (if same_range m0 && (j + r_i (y m0) >? i + r_i (x m0)) then []
               else [(i + r_i (x m0), j + r_i (y m0))])).
Proof.
  intros Hi Hj (Nd & Hin & Hc).
  pose proof Hr as (Hx1 & Hx2 & Hy1 & Hy2). unfold xlen, ylen in Hi, Hj.
  replace (j + 1 + r_i (y m0)) with (j + r_i (y m0) + 1) by lia.
  remember (i + r_i (x m0)) as xi eqn:Exi.
  remember (j + r_i (y m0)) as yi eqn:Eyi.
  destruct (same_range m0 && (yi >? xi)) eqn:Skip.
  - apply andb_true_iff in Skip. destruct Skip as [S1 S2].
    destruct (same_range_true _ S1) as [En Ei].
    rewrite app_nil_r. split; [exact Nd|]. split.
    + intros a b. rewrite Hin. split; intros [K B]; (split; [exact K|]).
      * unfold before in *. lia.
      * destruct K as (_ & _ & K). specialize (K S1). unfold before in *. lia.
    + rewrite Hc. unfold CallSpec.evaluated. rewrite S1. lia.
  - assert (Kn : kept xi yi).
    { split; [unfold in_range; lia|]. split; [unfold in_range; lia|].
      intros S1. rewrite S1 in Skip. cbn in Skip. lia. }
    split; [|split].
    + apply NoDup_app. split; [exact Nd|]. split; [|apply NoDup_singleton].
      intros [a b] H1 H2. apply list_elem_of_In in H1.
      apply list_elem_of_singleton in H2. injection H2 as -> ->.
      apply Hin in H1. destruct H1 as [_ B]. unfold before in B. lia.
    + intros a b. rewrite in_app_iff, Hin. cbn [In]. split.
      * intros [[K B] | [E | []]].
        -- split; [exact K|]. unfold before in *. lia.
        -- injection E as <- <-. split; [exact Kn|]. unfold before. lia.
      * intros [K B].
        destruct (Z.eq_dec a xi) as [-> | Na].
        -- destruct (Z.eq_dec b yi) as [-> | Nb].
           ++ right. left. reflexivity.
           ++ left. split; [exact K|]. unfold before in *. lia.
        -- left. split; [exact K|]. unfold before in *. lia.
    + rewrite length_app, Nat2Z.inj_add, Hc. cbn [length].
      unfold CallSpec.evaluated. destruct (same_range m0) eqn:S1; [|lia].
      destruct (same_range_true _ S1) as [En Ei].
      cbn in Skip. lia.
Qed.

Lemma calls_next_row (i : Z) (calls : list (Z * Z)) :
  0 <= i < xlen m0 ->
  calls_inv i (Z.max 0 (ylen m0)) calls -> calls_inv (i + 1) 0 calls.
Proof.
  intros Hi (Nd & Hin & Hc). split; [exact Nd|]. split.
  - intros a b. rewrite Hin. split; intros [K B]; (split; [exact K|]);
      destruct K as (Ka & Kb & _); unfold before, in_range, ylen in *; lia.
  - rewrite Hc. unfold CallSpec.evaluated. destruct (same_range m0) eqn:S1.
    + destruct (same_range_true _ S1) as [En Ei].
      rewrite tri_size_succ. unfold xlen, ylen in *. lia.
    + lia.
Qed.

(** The loops of [hmatrix_compute] return, and the calls they have made
    are the kept pairs, each once. *)
Lemma compute_calls (m : hmatrix_t float) :
  allocated m0 m ->
  exists st', hmatrix_compute d2f m s measure = Some st' /\
    compute_inv (r_n (x m0)) (0 + r_i (y m0)) st' /\
    calls_inv (xlen m0) 0 (snd st').
Proof.
  intros Al. pose proof Al as [(Ex & Ey & _) _].
  pose proof Hr as (Hx1 & Hx2 & Hy1 & Hy2).
  unfold hmatrix_compute. rewrite Ex, Ey.
  rewrite !sub_exact by (int_bounds; lia). fold (xlen m0) (ylen m0).
  destruct (for_int_inv
              (fun i st => compute_inv (i + r_i (x m0)) (0 + r_i (y m0)) st /\
                           calls_inv i 0 (snd st))
              (fun i => for_int 0 (ylen m0) (compute_cell d2f s measure i))
              (xlen m0) (m, []))
    as (st' & E & HP & HC).
  - split.
    + split; [exact Al|]. split.
      * intros a b sx sy (Ka & Kb & _) B. unfold before, in_range in *. lia.
      * intros a b [].
    + split; [constructor|]. split.
      * intros a b. split; [intros []|].
        intros [(Ka & Kb & _) B]. unfold before, in_range in *. lia.
      * unfold CallSpec.evaluated, tri_size. cbn. destruct (same_range m0); reflexivity.
  - intros i st1 Hi [H1 C1].
    destruct (for_int_inv
                (fun j st => compute_inv (i + r_i (x m0)) (j + r_i (y m0)) st /\
                             calls_inv i j (snd st))
                (compute_cell d2f s measure i) (ylen m0) st1)
      as (st2 & E2 & HP2 & HC2).
    + split; assumption.
    + intros j st Hj [H2 C2].
      destruct (compute_cell_step d2f s measure m0 Hr Hf Hsx Hsy i j st Hi Hj H2)
        as (st3 & E3 & H3).
      exists st3. split; [exact E3|]. split; [exact H3|].
      rewrite (compute_cell_calls i j st st3 Hi Hj) by (exact E3 || apply H2).
      apply calls_step; assumption.
    + exists st2. split; [exact E2|]. split.
      * replace (i + 1 + r_i (x m0)) with (i + r_i (x m0) + 1) by lia.
        apply compute_inv_next_row. exact HP2.
      * apply calls_next_row; assumption.
  - exists st'. split; [exact E|].
    replace (Z.max 0 (xlen m0)) with (xlen m0) in * by (unfold xlen; lia).
    split; [|exact HC].
    replace (r_n (x m0)) with (xlen m0 + r_i (x m0)) by (unfold xlen; lia).
    exact HP.
Qed.

End Calls.

End CallFacts.

(** ** Configurations stay inside the strings *)

Module PipelineFacts.
Import HMatrix CString MatrixSpec MatrixFacts CIntFacts RangeSpec RangeFacts
  SplitSpec SplitFacts ConfigSpec ConfigFacts.

(** [hmatrix_split] changes the y range only, and does not raise its
    end. *)
Lemma split_shrinks {float} (m m' : hmatrix_t float) (sp : string) :
  hmatrix_split m sp = Done m' ->
  m' = set_y m (y m') /\ r_n (y m') <= r_n (y m).
Proof.
  unfold hmatrix_split.
  destruct (strlen (cstr sp) =? 0).
  { intros H. injection H as <-. split; [destruct m; reflexivity | lia]. }
  destruct (sscanf_d_colon_d (cstr sp)) as [[blocks index] |]; [|discriminate].
  unfold hmatrix_split_blocks.
  destruct (_ || _); [discriminate|].
  destruct (_ || _); [discriminate|].
  destruct (_ || _); [discriminate|].
  intros H. injection H as <-. split; [reflexivity|]. cbn [y set_y r_n].
  match goal with |- (if ?a >? ?b then _ else _) <= _ =>
    destruct (Z.gtb_spec a b); lia end.
Qed.

(** A configuration keeps the ranges inside the strings. *)
Lemma configure_within {float} (m0 m : hmatrix_t float) (xs ys sp : string) :
  0 <= num m0 <= CInt.INT_MAX ->
  x m0 = mk_range 0 (num m0) -> y m0 = mk_range 0 (num m0) ->
  configure m0 xs ys sp = Some m ->
  r_n (x m) <= num m0 /\ r_n (y m) <= num m0.
Proof.
  intros HN Ex Ey. unfold configure, hmatrix_xrange, hmatrix_yrange.
  rewrite !bind_eq. unfold ret. cbn [fst set_x set_y x y num].
  set (N := num m0) in *.
  pose proof (parse_range_keeps (x m0) xs N HN) as Px.
  pose proof (parse_range_keeps (y m0) ys N HN) as Py.
  rewrite Ex in Px. rewrite Ey in Py. cbn [r_n] in Px, Py.
  specialize (Px ltac:(int_bounds; lia)). specialize (Py ltac:(int_bounds; lia)).
  cbv zeta in Px, Py. rewrite Ex, Ey.
  set (rx := fst (parse_range (mk_range 0 N) xs N)) in *.
  set (ry := fst (parse_range (mk_range 0 N) ys N)) in *.
  assert (Bx : r_n rx <= N).
  { destruct Px as [-> | [(? & ? & ?) | ->]]; cbn; lia. }
  assert (By : r_n ry <= N).
  { destruct Py as [-> | [(? & ? & ?) | ->]]; cbn; lia. }
  destruct (hmatrix_split _ sp) as [m3 | f] eqn:Es; [|discriminate].
  intros H. injection H as <-.
  apply split_shrinks in Es. destruct Es as [E1 E2].
  rewrite E1. cbn [x y set_y set_x] in *. lia.
Qed.

End PipelineFacts.

(** ** The compute loops *)

Module ComputeProps.
Import HMatrix MatrixSpec MatrixFacts CIntFacts LoopFacts ComputeSpec ComputeFacts
  CellFacts CallFacts ConfigSpec ConfigFacts PipelineFacts InitFacts Examples.

Section Props.
Context {float double hstring_t : Type}.
Variable fzero : float.
Variable d2f : double -> float.
Local Abbreviation hmatrix := (hmatrix_t float).

(** X11. After [hmatrix_compute] on a triangular matrix, [hmatrix_get]
    returns at every coordinate of the active ranges, in whichever order
    the two indices come, the value of [measure] on the string of the
    larger index and the string of the smaller one: the half that the
    loops skip reads as the mirror image of the half they fill. *)
Theorem compute_symmetric_read (m0 m : hmatrix) (s : list hstring_t)
  (measure : hstring_t -> hstring_t -> double) :
  ranges_ok m0 -> fits_int m0 ->
  r_n (x m0) <= Z.of_nat (length s) -> r_n (y m0) <= Z.of_nat (length s) ->
  filled (fst (hmatrix_alloc fzero true m0)) m ->
  triangular m = true ->
  exists m' calls,
    hmatrix_compute d2f m s measure = Some (m', calls) /\
    forall xi yi, in_range (x m) xi -> in_range (y m) yi ->
      exists sx sy,
        at_index s (Z.max xi yi) = Some sx /\ at_index s (Z.min xi yi) = Some sy /\
        hmatrix_get m' xi yi = Some (d2f (measure sx sy)).
Proof.
  intros Hr Hf Hsx Hsy Hm T.
  assert (Al : allocated m0 m).
  { eapply filled_allocated; [apply alloc_allocated; assumption | exact Hm]. }
  destruct (compute_all d2f s measure m0 Hr Hf Hsx Hsy m Al)
    as ([m' calls] & E & Al' & Hd & Hc).
  cbn [fst snd] in *.
  pose proof Al as [(Ex & Ey & Et & _) _].
  pose proof Hr as (Hx1 & Hx2 & Hy1 & Hy2).
  exists m', calls. split; [exact E|]. rewrite Ex, Ey.
  rewrite Et in T. destruct (same_range_true _ T) as [En Ei].
  intros xi yi Ix Iy.
  assert (Ia : in_range (x m0) (Z.max xi yi)) by (unfold in_range in *; lia).
  assert (Ib : in_range (y m0) (Z.min xi yi)) by (unfold in_range in *; lia).
  destruct (at_index_some s (Z.max xi yi)) as (sx & Esx); [unfold in_range in Ia; lia|].
  destruct (at_index_some s (Z.min xi yi)) as (sy & Esy); [unfold in_range in Ib; lia|].
  exists sx, sy. split; [exact Esx|]. split; [exact Esy|].
  destruct (Hd (Z.max xi yi) (Z.min xi yi) sx sy) as (vs & Hv & Hl); try assumption.
  { split; [exact Ia|]. split; [exact Ib|]. lia. }
  { left. unfold in_range in Ia. lia. }
  destruct Al' as [Hs' _].
  rewrite (get_in_range m0 Hr Hf m' vs) by assumption.
  destruct (Z.le_ge_cases yi xi).
  - rewrite Z.max_l, Z.min_r in Hl by lia. exact Hl.
  - rewrite Z.max_r, Z.min_l in Hl by lia.
    rewrite (set_idx_swap m0 Hr Hf m' xi yi) in Hl;
      [exact Hl | exact Hs' | exact T | exact Ix | unfold in_range in *; lia].
Qed.


(** X13. From the strings to the values: for a batch of at most 46340
    strings, the matrix that [hmatrix_init] returns, configured with any
    x range string, y range string and split string that is not fatal,
    then allocated, is filled by [hmatrix_compute] without a failed
    [assert], an access outside an array or an [int] that overflows;
    afterwards every pair of the active ranges, with [yi <= xi] when the
    matrix is triangular, reads as the value of [measure] on its two
    strings. *)
Theorem configured_compute (label : hstring_t -> float)
  (src : hstring_t -> option string) (raw mi mc : hmatrix) (s : list hstring_t)
  (msgs : list msg) (xs ys sp : string)
  (measure : hstring_t -> hstring_t -> double) :
  Z.of_nat (length s) <= 46340 ->
  hmatrix_init fzero label src (Some raw) true true s (Z.of_nat (length s))
    = Some (Some mi, msgs) ->
  configure mi xs ys sp = Some mc ->
  let m := fst (hmatrix_alloc fzero true mc) in
  exists m' calls,
    hmatrix_compute d2f m s measure = Some (m', calls) /\
    forall xi yi, in_range (x m) xi -> in_range (y m) yi ->
      (triangular m = true -> yi <= xi) ->
      exists sx sy, at_index s xi = Some sx /\ at_index s yi = Some sy /\
        hmatrix_get m' xi yi = Some (d2f (measure sx sy)).
Proof.
  intros Hn Ei Hc m.
  unfold hmatrix_init in Ei.
  destruct (Z.ltb_spec (Z.of_nat (length s)) 0) as [? | _]; [lia|].
  rewrite copy_loop in Ei by lia. unfold ret in Ei. injection Ei as Emi _.
  assert (En : num mi = Z.of_nat (length s)) by (rewrite <- Emi; reflexivity).
  assert (Exi : x mi = mk_range 0 (num mi)) by (rewrite <- Emi; reflexivity).
  assert (Eyi : y mi = mk_range 0 (num mi)) by (rewrite <- Emi; reflexivity).
  destruct (configure_fits mi mc xs ys sp) as [Hr Hf];
    [lia | assumption | assumption | assumption |].
  destruct (configure_within mi mc xs ys sp) as [Bx By];
    [int_bounds; lia | assumption | assumption | assumption |].
  rewrite En in Bx, By.
  assert (Al : allocated mc m) by (apply alloc_allocated; assumption).
  destruct (compute_all d2f s measure mc Hr Hf Bx By m Al)
    as ([m' calls] & E & Al' & Hd & _).
  cbn [fst snd] in *.
  pose proof Al as [(Ex & Ey & Et & _) _].
  pose proof Hr as (Hx1 & Hx2 & Hy1 & Hy2).
  exists m', calls. split; [exact E|]. rewrite Ex, Ey, Et.
  intros xi yi Ix Iy Ht.
  destruct (at_index_some s xi) as (sx & Esx); [unfold in_range in Ix; lia|].
  destruct (at_index_some s yi) as (sy & Esy); [unfold in_range in Iy; lia|].
  exists sx, sy. split; [exact Esx|]. split; [exact Esy|].
  destruct (Hd xi yi sx sy) as (vs & Hv & Hl); try assumption.
  { split; [exact Ix|]. split; [exact Iy|]. exact Ht. }
  { left. unfold in_range in Ix. lia. }
  destruct Al' as [Hs' _].
  rewrite (get_in_range mc Hr Hf m' vs) by assumption. exact Hl.
Qed.

End Props.

Lemma compute_symmetric_read_witness :
  let m := fst (hmatrix_alloc 0 true m3) in
  let s := [10; 20; 30] in
  ranges_ok m3 /\ fits_int m3 /\
  r_n (x m3) <= Z.of_nat (length s) /\ r_n (y m3) <= Z.of_nat (length s) /\
  filled m m /\ triangular m = true /\
  exists m' calls,
    hmatrix_compute (fun d => d) m s Z.sub = Some (m', calls) /\
    forall xi yi, in_range (x m) xi -> in_range (y m) yi ->
      exists sx sy,
        at_index s (Z.max xi yi) = Some sx /\ at_index s (Z.min xi yi) = Some sy /\
        hmatrix_get m' xi yi = Some (Z.sub sx sy).
Proof.
  assert (Hr : ranges_ok m3) by (repeat split; vm_compute; congruence).
  assert (Hf : fits_int m3) by (vm_compute; congruence).
  assert (H1 : r_n (x m3) <= Z.of_nat (length [10; 20; 30]))
    by (vm_compute; congruence).
  assert (H2 : r_n (y m3) <= Z.of_nat (length [10; 20; 30]))
    by (vm_compute; congruence).
  assert (Hm : filled (fst (hmatrix_alloc 0 true m3)) (fst (hmatrix_alloc 0 true m3)))
    by constructor.
  assert (Ht : triangular (fst (hmatrix_alloc 0 true m3)) = true) by reflexivity.
  repeat (split; [assumption|]).
  exact (compute_symmetric_read 0 (fun d => d) m3 _ [10; 20; 30] Z.sub
           Hr Hf H1 H2 Hm Ht).
Defined.


Lemma configured_compute_witness :
  let s := [10; 20; 30] in
  let mi := mk_hmatrix 3 (mk_range 0 3) (mk_range 0 3) true 0 None
              (Some [10; 20; 30]) (Some [None; None; None]) in
  let mc := set_y (set_x mi (mk_range 0 2)) (mk_range 1 3) in
  let m := fst (hmatrix_alloc 0 true mc) in
  Z.of_nat (length s) <= 46340 /\
  hmatrix_init 0 (fun h : Z => h) (fun _ => None) (Some m3) true true s
    (Z.of_nat (length s)) = Some (Some mi, []) /\
  configure mi "0:2" "1:" "" = Some mc /\
  exists m' calls,
    hmatrix_compute (fun d => d) m s Z.sub = Some (m', calls) /\
    forall xi yi, in_range (x m) xi -> in_range (y m) yi ->
      (triangular m = true -> yi <= xi) ->
      exists sx sy, at_index s xi = Some sx /\ at_index s yi = Some sy /\
        hmatrix_get m' xi yi = Some (Z.sub sx sy).
Proof.
  assert (Hn : Z.of_nat (length [10; 20; 30]) <= 46340) by (vm_compute; congruence).
  assert (Ei : hmatrix_init 0 (fun h : Z => h) (fun _ : Z => @None string) (Some m3)
                 true true [10; 20; 30] (Z.of_nat (length [10; 20; 30]))
               = Some (Some (mk_hmatrix 3 (mk_range 0 3) (mk_range 0 3) true 0 None
                               (Some [10; 20; 30]) (Some [None; None; None])), []))
    by reflexivity.
  assert (Ec : configure (mk_hmatrix 3 (mk_range 0 3) (mk_range 0 3) true 0 None
                            (Some [10; 20; 30]) (Some [None; None; None]))
                 "0:2" "1:" "" =
               Some (set_y (set_x (mk_hmatrix 3 (mk_range 0 3) (mk_range 0 3) true 0
                                     None (Some [10; 20; 30])
                                     (Some [None; None; None]))
                              (mk_range 0 2)) (mk_range 1 3)))
    by reflexivity.
  split; [exact Hn|]. split; [exact Ei|]. split; [exact Ec|].
  exact (configured_compute 0 (fun d => d) (fun h : Z => h) (fun _ => None) m3 _ _
           [10; 20; 30] [] "0:2" "1:" "" Z.sub Hn Ei Ec).
Defined.

End ComputeProps.

(** ** Delimiter tables *)

Module TableFacts.
Import Str CString DelimSpec TableSpec DelimFacts.

Lemma code_range (c : ascii) : 0 <= code c < 256.
Proof.
  unfold code. pose proof (N_ascii_bounded c) as H. lia.
Qed.

Lemma flag_in (d : list Z) (k : Z) :
  Z.of_nat (length d) = 256 -> 0 <= k < 256 ->
  flag d k = Some (<[Z.to_nat k := 1]> d).
Proof.
  intros Hl Hk. unfold flag.
  destruct (Z.leb_spec 0 k) as [_ | ?]; [|lia].
  destruct (Z.ltb_spec k (Z.of_nat (length d))) as [_ | ?]; [|lia].
  reflexivity.
Qed.

Lemma flag_binary (d : list Z) (k : Z) :
  Z.of_nat (length d) = 256 -> 0 <= k < 256 -> binary d ->
  exists d', flag d k = Some d' /\ Z.of_nat (length d') = 256 /\ binary d'.
Proof.
  intros Hl Hk Hb. unfold flag.
  destruct (Z.leb_spec 0 k) as [_ | ?]; [|lia].
  destruct (Z.ltb_spec k (Z.of_nat (length d))) as [_ | ?]; [|lia].
  eexists; split; [reflexivity|]. split.
  - rewrite length_insert. exact Hl.
  - apply Forall_insert; [exact Hb | right; reflexivity].
Qed.

Lemma sscanf_x_range c1 c2 v : sscanf_x c1 c2 = Some v -> 0 <= v < 256.
Proof.
  unfold sscanf_x. destruct (hexval c1) as [h1 |] eqn:E1.
  - apply hexval_range in E1.
    destruct (hexval c2) as [h2 |] eqn:E2.
    + apply hexval_range in E2. intros H. injection H as <-. lia.
    + intros H. injection H as <-. lia.
  - intros H. injection H as <-. lia.
Qed.

(** [sscanf] stores a number at every escape. *)
Lemma sscanf_x_stores c1 c2 : exists v, sscanf_x c1 c2 = Some v.
Proof.
  unfold sscanf_x. destruct (hexval c1); [destruct (hexval c2)|]; eexists; reflexivity.
Qed.

(** The loop of [str_delim_set] does not depend on what [j] holds when
    it starts. *)
Lemma delim_loop_ignores_j (s : string) :
  forall (j j' : Z) (d : list Z), delim_loop s j d = delim_loop s j' d.
Proof.
  induction s as [s IH] using string_length_ind. intros j j' d.
  destruct s as [| c t]; [reflexivity|].
  cbn [delim_loop]. destruct (negb (code c =? 37)).
  - destruct (flag d _); [|reflexivity]. apply IH. cbn; lia.
  - destruct t as [| c1 t1]; [reflexivity|].
    destruct (sscanf_x_stores (code c1)
                (match t1 with String c2 _ => code c2 | EmptyString => 0 end))
      as [v Ev].
    rewrite Ev. destruct (flag d v); [|reflexivity].
    destruct t1 as [| c2 t2]; [reflexivity|]. apply IH. cbn; lia.
Qed.

Lemma ascii_uint (c : ascii) : (code c <? 128) = true -> char_to_uint (code c) = code c.
Proof.
  intros H. apply Z.ltb_lt in H. pose proof (code_range c).
  unfold char_to_uint, char_to_int.
  destruct (Z.ltb_spec (code c) 128); [|lia]. apply Z.mod_small. lia.
Qed.

(** On a specification of ASCII characters the loop of [str_delim_set]
    stays inside the table when [j] does. *)
Lemma delim_loop_safe (s : string) :
  forall (j : Z) (d0 : list Z),
  ascii_only s = true -> Z.of_nat (length d0) = 256 -> 0 <= j < 256 -> binary d0 ->
  exists d, delim_loop s j d0 = Some d /\ Z.of_nat (length d) = 256 /\ binary d.
Proof.
  induction s as [s IH] using string_length_ind. intros j d0 Ha Hl Hj Hb.
  destruct s as [| c t]; [exists d0; cbn; auto|].
  cbn [ascii_only] in Ha. apply andb_true_iff in Ha. destruct Ha as [Hc Ht].
  cbn [delim_loop]. destruct (negb (code c =? 37)).
  - rewrite (ascii_uint c Hc).
    destruct (flag_binary d0 (code c) Hl) as (d1 & E1 & L1 & B1);
      [pose proof (code_range c); apply Z.ltb_lt in Hc; lia | exact Hb |].
    rewrite E1. apply IH; [cbn; lia | assumption..].
  - destruct t as [| c1 t1]; [exists d0; auto|].
    cbn [ascii_only] in Ht. apply andb_true_iff in Ht. destruct Ht as [Hc1 Ht1].
    set (c2 := match t1 with String c2 _ => code c2 | EmptyString => 0 end).
    set (j' := match sscanf_x (code c1) c2 with Some v => v | None => j end).
    assert (Hj' : 0 <= j' < 256).
    { unfold j'. destruct (sscanf_x (code c1) c2) eqn:E; [|exact Hj].
      eapply sscanf_x_range; exact E. }
    destruct (flag_binary d0 j' Hl Hj' Hb) as (d1 & E1 & L1 & B1).
    rewrite E1. destruct t1 as [| c2' t2]; [exists d1; auto|].
    cbn [ascii_only] in Ht1. apply andb_true_iff in Ht1. destruct Ht1 as [_ Ht2].
    apply IH; [cbn; lia | assumption..].
Qed.

Lemma ascii_only_cstr s : ascii_only s = true -> ascii_only (cstr s) = true.
Proof.
  induction s as [| c t IH]; [reflexivity|]. cbn.
  intros H. apply andb_true_iff in H. destruct H as [Hc Ht].
  destruct (code c =? 0); [reflexivity|]. cbn. rewrite Hc, (IH Ht). reflexivity.
Qed.

Lemma binary_zeros n : binary (replicate n 0).
Proof. apply Forall_replicate. left. reflexivity. Qed.

(** A character outside ASCII that stands for itself is an index outside
    the table. *)
Lemma delim_loop_high (p : string) :
  forall (c : ascii) (t : string) (j : Z) (d0 : list Z),
  literal p = true -> 128 <= code c -> Z.of_nat (length d0) = 256 ->
  delim_loop (p ++ String c t)%string j d0 = None.
Proof.
  induction p as [| a p IH]; intros c t j d0 Hp Hc Hl.
  - cbn [append delim_loop].
    destruct (Z.eqb_spec (code c) 37) as [? | _]; [lia|]. cbn [negb].
    pose proof (code_range c).
    unfold flag, char_to_uint, char_to_int.
    destruct (Z.ltb_spec (code c) 128); [lia|].
    replace ((code c - 256) mod 4294967296) with (code c - 256 + 4294967296).
    2: { apply Z.mod_unique with (q := -1); lia. }
    rewrite Hl.
    destruct (Z.ltb_spec (code c - 256 + 4294967296) 256); [lia|].
    rewrite andb_false_r. reflexivity.
  - cbn [literal] in Hp. apply andb_true_iff in Hp. destruct Hp as [Hp Hp'].
    apply andb_true_iff in Hp. destruct Hp as [Hp Ha3].
    apply andb_true_iff in Hp. destruct Hp as [Ha1 Ha2].
    cbn [append delim_loop]. rewrite Ha3. rewrite (ascii_uint a Ha2).
    rewrite flag_in by (apply Z.ltb_lt in Ha1, Ha2; lia).
    apply IH; [assumption.. |]. rewrite length_insert. exact Hl.
Qed.

Section Table.
Variable DELIM_NOT_INIT : Z.

(** The state of the table that [str_has_delim] reports. *)
Lemma has_delim_binary (d : list Z) :
  DELIM_NOT_INIT <> 0 -> DELIM_NOT_INIT <> 1 ->
  Z.of_nat (length d) = 256 -> binary d ->
  str_has_delim DELIM_NOT_INIT d = true.
Proof.
  intros N0 N1 Hl Hb. unfold str_has_delim.
  destruct d as [| v d']; [cbn in Hl; lia|]. cbn.
  apply Forall_cons in Hb. destruct Hb as [[-> | ->] _].
  - destruct (Z.eqb_spec 0 DELIM_NOT_INIT); [congruence | reflexivity].
  - destruct (Z.eqb_spec 1 DELIM_NOT_INIT); [congruence | reflexivity].
Qed.

Lemma has_delim_reset (d : list Z) :
  str_has_delim DELIM_NOT_INIT (str_delim_reset DELIM_NOT_INIT d) = false.
Proof.
  unfold str_has_delim, str_delim_reset.
  destruct d as [| v d']; [reflexivity|]. cbn.
  rewrite Z.eqb_refl. reflexivity.
Qed.

End Table.

Lemma flag_keeps_binary (d d1 : list Z) (k : Z) :
  flag d k = Some d1 -> binary d -> binary d1 /\ length d1 = length d.
Proof.
  unfold flag. destruct (_ && _); [|discriminate].
  intros H Hb. injection H as <-. split.
  - apply Forall_insert; [exact Hb | right; reflexivity].
  - apply length_insert.
Qed.

(** Whatever the specification, the table that the loop of
    [str_delim_set] returns holds zeros and ones. *)
Lemma delim_loop_binary (s : string) :
  forall (j : Z) (d0 d : list Z),
  delim_loop s j d0 = Some d -> binary d0 -> binary d /\ length d = length d0.
Proof.
  induction s as [s IH] using string_length_ind. intros j d0 d E Hb.
  destruct s as [| c t]; [cbn in E; injection E as <-; auto|].
  cbn [delim_loop] in E. destruct (negb (code c =? 37)).
  - destruct (flag d0 _) as [d1 |] eqn:E1; [|discriminate].
    destruct (flag_keeps_binary _ _ _ E1 Hb) as [B1 L1].
    rewrite <- L1. eapply IH; [| exact E | exact B1]. cbn; lia.
  - destruct t as [| c1 t1]; [injection E as <-; auto|].
    destruct (flag d0 _) as [d1 |] eqn:E1; [|discriminate].
    destruct (flag_keeps_binary _ _ _ E1 Hb) as [B1 L1].
    destruct t1 as [| c2 t2]; [injection E as <-; auto|].
    rewrite <- L1. eapply IH; [| exact E | exact B1]. cbn; lia.
Qed.

End TableFacts.

(** ** The delimiter table *)

Module TableProps.
Import Str CString DelimSpec TableSpec DelimFacts TableFacts Examples.

Section Props.
Variable DELIM_NOT_INIT : Z.

(** X14. On a specification of ASCII characters, escapes well formed or
    not, [str_delim_set] writes inside the table of 256 entries, provided
    the uninitialised variable [j] holds a value below 256: the call
    returns a table of 256 entries, each 0 or 1 when the specification is
    not empty. *)
Theorem delim_set_in_table (j0 : Z) (delim : list Z) (s : string) :
  ascii_only s = true -> 0 <= j0 < 256 -> Z.of_nat (length delim) = 256 ->
  exists d, str_delim_set DELIM_NOT_INIT j0 delim s = Some d /\
    Z.of_nat (length d) = 256 /\
    (cstr s <> EmptyString -> binary d).
Proof.
  intros Ha Hj Hl. unfold str_delim_set.
  destruct (strlen (cstr s) =? 0) eqn:E.
  - eexists; split; [reflexivity|]. split.
    + unfold str_delim_reset. rewrite length_insert. exact Hl.
    + intros N. apply RangeFacts.strlen_nonempty in N. congruence.
  - destruct (delim_loop_safe (cstr s) j0 (replicate (length delim) 0))
      as (d & Ed & Ld & Bd).
    + apply ascii_only_cstr. exact Ha.
    + rewrite length_replicate. exact Hl.
    + exact Hj.
    + apply binary_zeros.
    + exists d. split; [exact Ed|]. split; [exact Ld|]. intros _. exact Bd.
Qed.


(** X16. The uninitialised [j] does not reach the table.  With the C
    library that the program runs with, [sscanf] stores a number at every
    escape, also when no hexadecimal digit follows the ['%'], so
    [str_delim_set] returns the same table whatever [j] held at the
    start; and on the specification of a ['%'] and two characters of
    which the first is no hexadecimal digit, the number stored is 0 and
    the byte that [str_delim_set] flags is the byte 0. *)
Theorem delim_set_bad_escape (j0 j1 : Z) (delim : list Z) (s : string)
  (c1 c2 : ascii) :
  hexval (code c1) = None -> code c1 <> 0 -> Z.of_nat (length delim) = 256 ->
  str_delim_set DELIM_NOT_INIT j0 delim s = str_delim_set DELIM_NOT_INIT j1 delim s /\
  str_delim_set DELIM_NOT_INIT j0 delim (String "%" (String c1 (String c2 EmptyString)))
  = Some (<[0%nat := 1]> (replicate 256 0)).
Proof.
  intros Hh Hc Hl. split.
  - unfold str_delim_set. destruct (strlen (cstr s) =? 0); [reflexivity|].
    apply delim_loop_ignores_j.
  - unfold str_delim_set.
    assert (E256 : length delim = 256%nat) by lia. rewrite E256.
    cbn [cstr]. change (code "%" =? 0) with false. cbv iota.
    destruct (Z.eqb_spec (code c1) 0) as [? | _]; [contradiction|].
    assert (Ef : flag (replicate 256 0) 0 = Some (<[0%nat := 1]> (replicate 256 0)))
      by reflexivity.
    destruct (code c2 =? 0) eqn:E2.
    + change (strlen (String "%" (String c1 EmptyString)) =? 0) with false. cbv iota.
      cbn [delim_loop]. change (negb (code "%" =? 37)) with false. cbv iota.
      unfold sscanf_x. rewrite Hh, Ef. reflexivity.
    + change (strlen (String "%" (String c1 (String c2 EmptyString))) =? 0) with false.
      cbv iota.
      cbn [delim_loop]. change (negb (code "%" =? 37)) with false. cbv iota.
      unfold sscanf_x. rewrite Hh, Ef. reflexivity.
Qed.

(** X17. A character outside ASCII that stands for itself in the
    specification is converted from [char], which is signed, to
    [unsigned int], an index far beyond the 256 entries: when such a
    character follows characters of ASCII that stand for themselves,
    [str_delim_set] writes outside the table. *)
Theorem delim_set_high_byte (j0 : Z) (delim : list Z) (p : string) (c : ascii)
  (t : string) :
  literal p = true -> 128 <= code c -> Z.of_nat (length delim) = 256 ->
  str_delim_set DELIM_NOT_INIT j0 delim (p ++ String c t)%string = None.
Proof.
  intros Hp Hc Hl. unfold str_delim_set.
  assert (Ec : forall q, literal q = true ->
            cstr (q ++ String c t)%string = (q ++ String c (cstr t))%string).
  { induction q as [| a q IH]; cbn [append cstr literal].
    - intros _. destruct (Z.eqb_spec (code c) 0); [lia | reflexivity].
    - intros H. apply andb_true_iff in H. destruct H as [H Hq].
      apply andb_true_iff in H. destruct H as [H _].
      apply andb_true_iff in H. destruct H as [H0 _]. apply Z.ltb_lt in H0.
      destruct (Z.eqb_spec (code a) 0); [lia|]. rewrite (IH Hq). reflexivity. }
  rewrite (Ec p Hp).
  assert (En : (strlen (p ++ String c (cstr t)) =? 0) = false).
  { apply RangeFacts.strlen_nonempty. destruct p; discriminate. }
  rewrite En. apply delim_loop_high; [exact Hp | exact Hc |].
  rewrite length_replicate. exact Hl.
Qed.

End Props.

Lemma delim_set_in_table_witness :
  ascii_only "%zz %2" = true /\ 0 <= 7 < 256 /\
  Z.of_nat (length (delim_initial 42)) = 256 /\
  exists d, str_delim_set 42 7 (delim_initial 42) "%zz %2" = Some d /\
    Z.of_nat (length d) = 256 /\
    (cstr "%zz %2" <> EmptyString -> binary d).
Proof.
  assert (Ha : ascii_only "%zz %2" = true) by reflexivity.
  assert (Hj : 0 <= 7 < 256) by lia.
  assert (Hl : Z.of_nat (length (delim_initial 42)) = 256) by reflexivity.
  repeat (split; [assumption|]).
  exact (delim_set_in_table 42 7 (delim_initial 42) "%zz %2" Ha Hj Hl).
Defined.


Lemma delim_set_bad_escape_witness :
  hexval (code "z") = None /\ code "z" <> 0 /\
  Z.of_nat (length (delim_initial 42)) = 256 /\
  str_delim_set 42 7 (delim_initial 42) "%41%zz"
    = str_delim_set 42 300 (delim_initial 42) "%41%zz" /\
  str_delim_set 42 7 (delim_initial 42) "%zz"
  = Some (<[0%nat := 1]> (replicate 256 0)).
Proof.
  assert (Hh : hexval (code "z") = None) by reflexivity.
  assert (Hc : code "z" <> 0) by (vm_compute; congruence).
  assert (Hl : Z.of_nat (length (delim_initial 42)) = 256) by reflexivity.
  repeat (split; [assumption|]).
  exact (delim_set_bad_escape 42 7 300 (delim_initial 42) "%41%zz" "z" "z" Hh Hc Hl).
Defined.

Lemma delim_set_high_byte_witness :
  literal " " = true /\ 128 <= code (ascii_of_nat 200) /\
  Z.of_nat (length (delim_initial 42)) = 256 /\
  str_delim_set 42 7 (delim_initial 42)
    (" " ++ String (ascii_of_nat 200) EmptyString)%string = None.
Proof.
  assert (Hp : literal " " = true) by reflexivity.
  assert (Hc : 128 <= code (ascii_of_nat 200)) by (vm_compute; congruence).
  assert (Hl : Z.of_nat (length (delim_initial 42)) = 256) by reflexivity.
  repeat (split; [assumption|]).
  exact (delim_set_high_byte 42 7 (delim_initial 42) " " (ascii_of_nat 200)
           EmptyString Hp Hc Hl).
Defined.

End TableProps.

(** ** The loops of [str_symbolize] *)

Module WordFacts.
Import Str CString DelimSpec TableSpec DelimFacts TableFacts WordSpec LoopFacts.

Lemma is_delim_byte (delim : list Z) (b : Z) :
  Z.of_nat (length delim) = 256 -> byte b ->
  is_delim delim b = Some (flagged delim b).
Proof.
  intros Hl Hb. unfold flagged, is_delim, at_index. unfold byte in Hb.
  destruct (Z.ltb_spec b 0); [lia|].
  destruct (lookup_lt_is_Some_2 delim (Z.to_nat b)) as [v Hv]; [lia|].
  rewrite Hv. destruct (negb (v =? 0)); reflexivity.
Qed.

(** The first delimiter of the table: the lowest byte flagged, or 256. *)
Lemma find_dlm_from (delim : list Z) :
  Z.of_nat (length delim) = 256 ->
  forall (k : nat) (s : Z),
  Z.of_nat k + s = 257 -> 0 <= s <= 256 ->
  (forall b, 0 <= b < s -> flagged delim b = false) ->
  exists dlm, find_dlm k s delim = Some dlm /\ 0 <= dlm <= 256 /\
    (forall b, 0 <= b < dlm -> flagged delim b = false) /\
    (dlm < 256 -> flagged delim dlm = true).
Proof.
  intros Hl. induction k as [| k IH]; intros s Hk Hs Hlow; [lia|].
  cbn [find_dlm].
  assert (Hm : byte (s mod 256)) by (apply Z.mod_pos_bound; lia).
  rewrite (is_delim_byte delim _ Hl Hm).
  destruct (Z.ltb_spec s 256) as [Lt | Ge].
  - rewrite Z.mod_small by lia. rewrite andb_true_r.
    destruct (flagged delim s) eqn:F; cbn [negb].
    + exists s. split; [reflexivity|]. split; [lia|]. split; [exact Hlow|]. auto.
    + apply IH; [lia | lia |].
      intros b Hb. destruct (Z.eq_dec b s) as [-> | ?]; [exact F | apply Hlow; lia].
  - rewrite andb_false_r. exists s. split; [reflexivity|].
    split; [lia|]. split; [exact Hlow | lia].
Qed.

Lemma find_dlm_spec (delim : list Z) :
  Z.of_nat (length delim) = 256 ->
  exists dlm, find_dlm 257 0 delim = Some dlm /\ 0 <= dlm <= 256 /\
    (forall b, 0 <= b < dlm -> flagged delim b = false) /\
    (dlm < 256 -> flagged delim dlm = true).
Proof.
  intros Hl. apply find_dlm_from; [exact Hl | reflexivity | lia | intros b; lia].
Qed.

Lemma squeezed_snoc isd dlmb l b :
  squeezed isd dlmb (l ++ [b]) = squeeze_step isd dlmb (squeezed isd dlmb l) b.
Proof. unfold squeezed. rewrite fold_left_app. reflexivity. Qed.

Lemma take_succ {A} (l : list A) (i : Z) (b : A) :
  0 <= i -> l !! Z.to_nat i = Some b ->
  take (Z.to_nat (i + 1)) l = take (Z.to_nat i) l ++ [b].
Proof.
  intros Hi Hb. replace (Z.to_nat (i + 1)) with (S (Z.to_nat i)) by lia.
  apply take_S_r. exact Hb.
Qed.

(** A write at [j] into a buffer whose first [j] bytes are [out]. *)
Lemma buffer_write (out c : list Z) (v : Z) :
  (length out < length c)%nat ->
  <[length out := v]> (out ++ drop (length out) c) =
  (out ++ [v]) ++ drop (length (out ++ [v])) c.
Proof.
  intros Hlt.
  destruct (lookup_lt_is_Some_2 c (length out) Hlt) as [x0 Hx].
  rewrite insert_app_r_alt by lia. rewrite Nat.sub_diag.
  rewrite (drop_S c x0 (length out) Hx). cbn [insert list_insert].
  rewrite <- app_assoc. rewrite length_app. cbn [length app].
  replace (length out + 1)%nat with (S (length out)) by lia. reflexivity.
Qed.

(** The first loop of [str_symbolize] squeezes the first [n] bytes into
    the start of the buffer. *)
Lemma squeeze_loop (delim : list Z) (dlm : Z) (c : list Z) (n : Z) :
  Z.of_nat (length delim) = 256 -> 0 <= dlm <= 256 ->
  Forall byte c -> 0 <= n <= Z.of_nat (length c) ->
  let out := squeezed (flagged delim) (int_to_byte dlm) (take (Z.to_nat n) c) in
  for_int 0 n (squeeze delim dlm) (c, 0)
    = Some (out ++ drop (length out) c, Z.of_nat (length out)) /\
  Z.of_nat (length out) <= n /\ Forall byte out.
Proof.
  intros Hl Hd Hc Hn out.
  set (isd := flagged delim) in *. set (dlmb := int_to_byte dlm) in *.
  assert (Hdb : byte dlmb) by (apply Z.mod_pos_bound; lia).
  destruct (for_int_inv
    (fun i (st : list Z * Z) =>
       let o := squeezed isd dlmb (take (Z.to_nat i) c) in
       st = (o ++ drop (length o) c, Z.of_nat (length o)) /\
       Z.of_nat (length o) <= i /\ Forall byte o)
    (squeeze delim dlm) n (c, 0)) as (st' & E & HP).
  - cbv zeta. change (take (Z.to_nat 0) c) with (@nil Z).
    unfold squeezed. cbn. split; [reflexivity|]. split; [lia | constructor].
  - intros i st Hi (-> & Hj & Ho).
    set (o := squeezed isd dlmb (take (Z.to_nat i) c)) in *.
    destruct (lookup_lt_is_Some_2 c (Z.to_nat i)) as [b Hb]; [lia|].
    assert (Bb : byte b) by exact (Forall_lookup_1 _ _ _ _ Hc Hb).
    rewrite (take_succ c i b) by (lia || exact Hb).
    cbv zeta. rewrite squeezed_snoc. fold o. clearbody o.
    unfold squeeze at 1. unfold at_index at 1.
    destruct (Z.ltb_spec i 0); [lia|].
    rewrite lookup_app_r by lia. rewrite lookup_drop.
    replace (length o + (Z.to_nat i - length o))%nat with (Z.to_nat i) by lia.
    rewrite Hb. rewrite (is_delim_byte delim b Hl Bb). fold isd.
    unfold squeeze_step.
    destruct (isd b) eqn:Fb.
    + destruct (Z.eqb_spec (Z.of_nat (length o)) 0) as [Z0 | NZ].
      * assert (o = []) as -> by (destruct o; [reflexivity | cbn in Z0; lia]).
        cbn [list.last]. eexists; split; [reflexivity|].
        split; [reflexivity|]. split; [cbn; lia | constructor].
      * unfold at_index.
        destruct (Z.ltb_spec (Z.of_nat (length o) - 1) 0); [lia|].
        rewrite lookup_app_l by lia.
        replace (Z.to_nat (Z.of_nat (length o) - 1)) with (pred (length o)) by lia.
        rewrite <- last_lookup.
        destruct (list.last o) as [p |] eqn:Lp.
        2: { apply last_None in Lp. subst o. cbn in NZ. lia. }
        assert (Bp : byte p).
        { rewrite last_lookup in Lp. exact (Forall_lookup_1 _ _ _ _ Ho Lp). }
        rewrite (is_delim_byte delim p Hl Bp). fold isd.
        destruct (isd p).
        -- eexists; split; [reflexivity|]. split; [reflexivity|]. split; [lia | exact Ho].
        -- eexists; split; [reflexivity|].
           rewrite Nat2Z.id. rewrite buffer_write by lia.
           split; [f_equal; rewrite length_app; cbn; lia|].
           split; [rewrite length_app; cbn; lia|].
           apply Forall_app. split; [exact Ho | apply Forall_singleton; exact Hdb].
    + eexists; split; [reflexivity|].
      rewrite Nat2Z.id. rewrite buffer_write by lia.
      split; [f_equal; rewrite length_app; cbn; lia|].
      split; [rewrite length_app; cbn; lia|].
      apply Forall_app. split; [exact Ho | apply Forall_singleton; exact Bb].
  - rewrite Z.max_r in HP by lia. destruct HP as (-> & H1 & H2).
    split; [exact E|]. split; assumption.
Qed.

Section Extract.
Variable h : list Z -> Z.
Variable dlm : Z.

Lemma extract_fold_snoc (l : list Z) (b : Z) :
  fold_left (extract_step h dlm) (l ++ [b]) ([], []) =
  extract_step h dlm (fold_left (extract_step h dlm) l ([], [])) b.
Proof. rewrite fold_left_app. reflexivity. Qed.

(** The bytes between [wstart] and [i] of a buffer that starts with
    [pre ++ cur]. *)
Lemma slice_cur (pre cur rest : list Z) :
  slice ((pre ++ cur) ++ rest) (Z.of_nat (length pre))
        (Z.of_nat (length pre) + Z.of_nat (length cur)) = cur.
Proof.
  unfold slice. rewrite Nat2Z.id.
  replace (Z.to_nat (Z.of_nat (length pre) + Z.of_nat (length cur) - Z.of_nat (length pre)))
    with (length cur) by lia.
  rewrite <- app_assoc. rewrite drop_app_length. apply take_app_length.
Qed.

Variable hash_str : list Z -> Z.
Variable sym_of_hash : Z -> Z.
Hypothesis Hh : forall w, h w = sym_of_hash (hash_str w).

(** The second loop of [str_symbolize] on a buffer that starts with the
    [j] bytes [out]: it stays within the [n / 2 + 1] symbols allocated,
    and writes the symbols [extracted]. *)
Lemma extract_loop (out rest : list Z) (n : Z) :
  Z.of_nat (length out) <= n ->
  exists w,
    for_int 0 (Z.of_nat (length out) + 1)
      (extract hash_str sym_of_hash (out ++ rest) (Z.of_nat (length out)) dlm
         (Z.quot n 2 + 1)) (0, [])
    = Some (w, extracted h dlm out).
Proof.
  intros Hn. set (j := Z.of_nat (length out)) in *.
  assert (Hq : n / 2 = Z.quot n 2) by (symmetry; apply Z.quot_div_nonneg; lia).
  destruct (for_int_inv
    (fun i (st : Z * list Z) =>
       (i <= j /\ exists pre cur,
          take (Z.to_nat i) out = pre ++ cur /\
          fst st = Z.of_nat (length pre) /\
          fold_left (extract_step h dlm) (take (Z.to_nat i) out) ([], [])
            = (cur, snd st) /\
          2 * Z.of_nat (length (snd st)) <= Z.of_nat (length pre)) \/
       (i = j + 1 /\ snd st = extracted h dlm out))
    (extract hash_str sym_of_hash (out ++ rest) j dlm (Z.quot n 2 + 1))
    (j + 1) (0, [])) as ([w sym] & E & HP).
  - left. split; [lia|]. exists [], []. cbn. repeat split; lia.
  - intros i [wstart sym] Hi [(Hij & pre & cur & Et & Ew & Ef & Hcap) | [? _]]; [|lia].
    cbn [fst snd] in *. subst wstart.
    assert (Hlen : i = Z.of_nat (length pre) + Z.of_nat (length cur)).
    { apply (f_equal (@length Z)) in Et. rewrite length_take, length_app in Et.
      unfold j in *. lia. }
    assert (Hbuf : out ++ rest = (pre ++ cur) ++ (drop (Z.to_nat i) out ++ rest)).
    { rewrite <- Et, app_assoc, take_drop. reflexivity. }
    assert (Hsl : slice (out ++ rest) (Z.of_nat (length pre)) i = cur).
    { rewrite Hbuf, Hlen. apply slice_cur. }
    assert (Hgt : (i - Z.of_nat (length pre) >? 0) = (0 <? Z.of_nat (length cur))).
    { rewrite Z.gtb_ltb. f_equal. lia. }
    assert (Hc1 : (Z.of_nat (length sym) <? Z.quot n 2 + 1) = true).
    { apply Z.ltb_lt. rewrite <- Hq.
      assert (Z.of_nat (length sym) <= n / 2); [|lia].
      apply Z.div_le_lower_bound; lia. }
    unfold extract. rewrite Hsl, Hgt, Hc1.
    destruct (Z.eqb_spec i j) as [Eij | Nij].
    + (* the last iteration: the end of the buffer *)
      assert (Eo : take (Z.to_nat i) out = out) by (apply take_ge; unfold j in *; lia).
      rewrite Eo in Ef. cbn [andb].
      destruct (0 <? Z.of_nat (length cur)) eqn:Ne.
      * eexists; split; [reflexivity|]. right. split; [lia|]. cbn [snd].
        unfold extracted. rewrite Ef, Ne, Hh. reflexivity.
      * eexists; split; [reflexivity|]. right. split; [lia|]. cbn [snd].
        unfold extracted. rewrite Ef, Ne. reflexivity.
    + destruct (lookup_lt_is_Some_2 out (Z.to_nat i)) as [b Hb]; [unfold j in *; lia|].
      unfold at_index. destruct (Z.ltb_spec i 0); [lia|].
      rewrite lookup_app_l by (unfold j in *; lia). rewrite Hb.
      assert (Ef' : fold_left (extract_step h dlm) (take (Z.to_nat (i + 1)) out) ([], [])
                    = if (char_to_int b =? dlm) && (0 <? Z.of_nat (length cur))
                      then ([], sym ++ [h cur]) else (cur ++ [b], sym)).
      { rewrite (take_succ out i b) by (lia || exact Hb).
        rewrite extract_fold_snoc, Ef. reflexivity. }
      destruct ((char_to_int b =? dlm) && (0 <? Z.of_nat (length cur))) eqn:Em.
      * eexists; split; [reflexivity|]. left. split; [lia|].
        exists (take (Z.to_nat (i + 1)) out), []. cbn [fst snd].
        split; [rewrite app_nil_r; reflexivity|].
        assert (Hl1 : Z.of_nat (length (take (Z.to_nat (i + 1)) out)) = i + 1).
        { rewrite length_take. unfold j in *. lia. }
        split; [lia|]. split; [rewrite Ef', Hh; reflexivity|].
        rewrite length_app, Hl1. cbn [length].
        apply andb_true_iff in Em. destruct Em as [_ Em]. apply Z.ltb_lt in Em. lia.
      * eexists; split; [reflexivity|]. left. split; [lia|].
        exists pre, (cur ++ [b]). cbn [fst snd].
        split; [rewrite (take_succ out i b) by (lia || exact Hb);
                rewrite Et, app_assoc; reflexivity|].
        split; [reflexivity|]. split; [exact Ef' | exact Hcap].
  - exists w. rewrite E. f_equal. f_equal.
    destruct HP as [[? _] | [_ HP]]; [lia | exact HP].
Qed.

End Extract.

Section Words.
Variable isd : Z -> bool.

(** The words, read from the left. *)
Lemma words_fold (c : list Z) :
  forall ws cur,
  ws ++ words_from isd cur c =
  (let (ws', cur') := fold_left (word_step isd) c (ws, cur) in
   ws' ++ match cur' with [] => [] | _ => [cur'] end).
Proof.
  induction c as [| b t IH]; intros ws cur; [reflexivity|].
  cbn [words_from fold_left word_step].
  destruct (isd b).
  - destruct cur as [| a cur'].
    + apply IH.
    + rewrite <- IH, <- app_assoc. reflexivity.
  - apply IH.
Qed.

Lemma word_fold_snoc (l : list Z) (b : Z) :
  fold_left (word_step isd) (l ++ [b]) ([], []) =
  word_step isd (fold_left (word_step isd) l ([], [])) b.
Proof. rewrite fold_left_app. reflexivity. Qed.

Variable h : list Z -> Z.
Variable dlm : Z.

(** With a first delimiter in ASCII, the second loop finds in the
    squeezed bytes the words of the bytes read. *)
Lemma squeezed_words (c : list Z) :
  0 <= dlm < 128 -> isd dlm = true -> Forall byte c ->
  extracted h dlm (squeezed isd dlm c) = map h (words isd c).
Proof.
  intros Hd Fd Hc.
  assert (J : forall l, Forall byte l ->
    let st := fold_left (word_step isd) l ([], []) in
    Forall (fun b => isd b = false) (snd st) /\
    fold_left (extract_step h dlm) (squeezed isd dlm l) ([], [])
      = (snd st, map h (fst st)) /\
    match snd st with
    | [] => squeezed isd dlm l = [] \/ list.last (squeezed isd dlm l) = Some dlm
    | _ => list.last (squeezed isd dlm l) = list.last (snd st)
    end).
  { induction l as [| b l IH] using rev_ind; intros Hl.
    - cbn. split; [constructor|]. split; [reflexivity | left; reflexivity].
    - apply Forall_app in Hl. destruct Hl as [Hl Hb].
      rewrite Forall_singleton in Hb.
      specialize (IH Hl). cbv zeta in IH. cbv zeta.
      rewrite word_fold_snoc, squeezed_snoc.
      destruct (fold_left (word_step isd) l ([], [])) as [ws cur].
      cbn [fst snd] in IH. destruct IH as (Hn & Hf & Hlast).
      unfold word_step, squeeze_step. destruct (isd b) eqn:Fb.
      + destruct cur as [| a cur'].
        * cbn [fst snd]. split; [constructor|].
          destruct Hlast as [E0 | Hlast].
          -- rewrite E0 in Hf |- *. cbn [list.last].
             split; [exact Hf | left; reflexivity].
          -- rewrite Hlast, Fd. split; [exact Hf | right; exact Hlast].
        * cbn [fst snd]. split; [constructor|].
          destruct (list.last (a :: cur')) as [p |] eqn:Lp.
          2: { apply last_None in Lp. discriminate. }
          rewrite Hlast.
          assert (Fp : isd p = false).
          { rewrite last_lookup in Lp. exact (Forall_lookup_1 _ _ _ _ Hn Lp). }
          rewrite Fp. rewrite extract_fold_snoc, Hf. split.
          -- unfold extract_step.
             assert (Ec : char_to_int dlm = dlm).
             { unfold char_to_int. destruct (Z.ltb_spec dlm 128); [reflexivity | lia]. }
             rewrite Ec, Z.eqb_refl. cbn [andb length].
             destruct (Z.ltb_spec 0 (Z.of_nat (S (length cur')))); [|lia].
             rewrite map_app. reflexivity.
          -- right. apply last_snoc.
      + cbn [fst snd]. split; [apply Forall_app; split;
                                [exact Hn | apply Forall_singleton; exact Fb]|].
        rewrite extract_fold_snoc, Hf. split.
        * unfold extract_step.
          assert (Ne : (char_to_int b =? dlm) = false).
          { apply Z.eqb_neq. unfold char_to_int, byte in *.
            destruct (Z.ltb_spec b 128); [|lia].
            intros ->. congruence. }
          rewrite Ne. reflexivity.
        * rewrite !last_snoc. destruct (cur ++ [b]) eqn:E; [|reflexivity].
          destruct cur; discriminate. }
  specialize (J c Hc). cbv zeta in J. destruct J as (_ & Hf & _).
  unfold extracted, words. rewrite Hf.
  pose proof (words_fold c [] []) as W. cbn [app] in W. rewrite W.
  destruct (fold_left (word_step isd) c ([], [])) as [ws cur]. cbn [fst snd].
  destruct cur as [| a cur'].
  - cbn. rewrite app_nil_r. reflexivity.
  - cbn [length]. destruct (Z.ltb_spec 0 (Z.of_nat (S (length cur')))); [|lia].
    rewrite map_app. reflexivity.
Qed.

(** With a first delimiter outside ASCII, or none, the comparison of the
    second loop never holds. *)
Lemma extract_no_split (out : list Z) :
  128 <= dlm -> Forall byte out ->
  fold_left (extract_step h dlm) out ([], []) = (out, []).
Proof.
  intros Hd. induction out as [| b l IH] using rev_ind; intros Ho; [reflexivity|].
  apply Forall_app in Ho. destruct Ho as [Hl Hb]. rewrite Forall_singleton in Hb.
  rewrite extract_fold_snoc, (IH Hl). unfold extract_step.
  assert (Ne : (char_to_int b =? dlm) = false).
  { apply Z.eqb_neq. unfold char_to_int, byte in *.
    destruct (Z.ltb_spec b 128); lia. }
  rewrite Ne. reflexivity.
Qed.

(** The words do not depend on what the table holds for values that are
    no bytes. *)
Lemma words_from_ext (isd' : Z -> bool) (c : list Z) :
  (forall b, byte b -> isd b = isd' b) -> Forall byte c ->
  forall cur, words_from isd cur c = words_from isd' cur c.
Proof.
  intros He. induction c as [| b t IH]; intros Hc cur; [reflexivity|].
  apply Forall_cons in Hc. destruct Hc as [Hb Ht].
  cbn [words_from]. rewrite <- (He b Hb).
  destruct (isd b); [destruct cur|]; rewrite (IH Ht); reflexivity.
Qed.

End Words.

Section Symbolize.
Variable hash_str : list Z -> Z.
Variable sym_of_hash : Z -> Z.

Local Abbreviation symbol := (fun w : list Z => sym_of_hash (hash_str w)).

(** What [str_symbolize] returns on a buffer of bytes: the symbols that
    the second loop finds in the squeezed bytes, NULL when there is
    none. *)
Lemma symbolize_loops (delim : list Z) (x : str_t) (c : list Z) :
  Z.of_nat (length delim) = 256 ->
  str x = Some (Chars c) -> 0 <= len x <= Z.of_nat (length c) -> Forall byte c ->
  exists dlm syms,
    0 <= dlm <= 256 /\
    (forall b, 0 <= b < dlm -> flagged delim b = false) /\
    (dlm < 256 -> flagged delim dlm = true) /\
    Forall byte (squeezed (flagged delim) (int_to_byte dlm) (take (Z.to_nat (len x)) c)) /\
    syms = extracted symbol dlm
             (squeezed (flagged delim) (int_to_byte dlm) (take (Z.to_nat (len x)) c)) /\
    str_symbolize hash_str sym_of_hash true delim x =
    Some (mk_str TYPE_SYM (match syms with [] => None | _ :: _ => Some (Syms syms) end)
            (Z.of_nat (length syms)) (idx x) (src x), []).
Proof.
  intros Hl Hx Hn Hc.
  destruct (find_dlm_spec delim Hl) as (dlm & Ed & Hd & Hlow & Hat).
  exists dlm. eexists. split; [exact Hd|]. split; [exact Hlow|]. split; [exact Hat|].
  destruct (squeeze_loop delim dlm c (len x) Hl Hd Hc Hn) as (Es & Hj & Ho).
  split; [exact Ho|]. split; [reflexivity|].
  set (out := squeezed _ _ _) in *.
  destruct (extract_loop symbol dlm hash_str sym_of_hash (fun w => eq_refl)
              out (drop (length out) c) (len x) Hj) as (w & Ee).
  unfold str_symbolize. cbn [negb]. rewrite Ed, Hx, Es, Ee. reflexivity.
Qed.

End Symbolize.

Lemma bytes_of_byte (s : string) : Forall byte (bytes_of s).
Proof.
  unfold bytes_of. apply Forall_map. apply Forall_forall. intros c _.
  apply code_range.
Qed.

Lemma bytes_of_length (s : string) : Z.of_nat (length (bytes_of s)) = strlen s.
Proof.
  unfold bytes_of, strlen. rewrite length_map. f_equal.
  induction s as [| c t IH]; [reflexivity | cbn; f_equal; exact IH].
Qed.

End WordFacts.

(** ** Words *)

Module WordProps.
Import Str CString DelimSpec TableSpec DelimFacts TableFacts WordSpec WordFacts
  Examples MoreExamples.

Section Props.
Variable DELIM_NOT_INIT : Z.
Variable hash_str : list Z -> Z.
Variable sym_of_hash : Z -> Z.

Local Abbreviation symbol := (fun w : list Z => sym_of_hash (hash_str w)).

(** X18. [str_symbolize] splits a string into its words.  When the table
    flags at least one character of ASCII, the symbols returned are the
    hashes of the maximal runs of bytes that are no delimiters, in the
    order of the string: runs of delimiters, at the start, at the end or
    between two words, yield no symbol, and the array of [len / 2 + 1]
    symbols is never exceeded.  The result has the index and the source
    of the string and the number of words as its length; for a string
    without a word the pointer to the symbols is NULL, what [realloc]
    returns for the size 0. *)
Theorem symbolize_words (delim : list Z) (x : str_t) (c : list Z) :
  Z.of_nat (length delim) = 256 ->
  str x = Some (Chars c) -> 0 <= len x <= Z.of_nat (length c) -> Forall byte c ->
  (exists b, 0 <= b < 128 /\ flagged delim b = true) ->
  let syms := map symbol (words (flagged delim) (take (Z.to_nat (len x)) c)) in
  str_symbolize hash_str sym_of_hash true delim x =
  Some (mk_str TYPE_SYM (match syms with [] => None | _ :: _ => Some (Syms syms) end)
          (Z.of_nat (length syms)) (idx x) (src x), []).
Proof.
  intros Hl Hx Hn Hc (b0 & Hb0 & Fb0) syms.
  destruct (symbolize_loops hash_str sym_of_hash delim x c Hl Hx Hn Hc)
    as (dlm & syms' & Hd & Hlow & Hat & _ & Es & E).
  assert (Hd' : 0 <= dlm < 128).
  { destruct (Z_lt_le_dec b0 dlm) as [Lt | Ge]; [|lia].
    rewrite Hlow in Fb0 by lia. discriminate. }
  assert (Eb : int_to_byte dlm = dlm) by (apply Z.mod_small; lia).
  rewrite Eb in Es.
  rewrite squeezed_words in Es;
    [| exact Hd' | apply Hat; lia | apply Forall_take; exact Hc].
  rewrite E, Es. reflexivity.
Qed.

(** X19. When every delimiter of the table is a byte outside ASCII,
    [str_symbolize] does not split: the bytes of the squeezed string are
    compared as [char], which is signed, with the first delimiter as
    [int], and no byte compares equal, so the string yields one symbol at
    most, the hash of all bytes left by the first loop; with no symbol
    the pointer to the symbols is NULL, what [realloc] returns for the
    size 0. *)
Theorem symbolize_high_delimiters (delim : list Z) (x : str_t) (c : list Z) :
  Z.of_nat (length delim) = 256 ->
  str x = Some (Chars c) -> 0 <= len x <= Z.of_nat (length c) -> Forall byte c ->
  (forall b, 0 <= b < 128 -> flagged delim b = false) ->
  exists syms,
    str_symbolize hash_str sym_of_hash true delim x =
    Some (mk_str TYPE_SYM (match syms with [] => None | _ :: _ => Some (Syms syms) end)
            (Z.of_nat (length syms)) (idx x) (src x), []) /\
    (length syms <= 1)%nat.
Proof.
  intros Hl Hx Hn Hc Hhigh.
  destruct (symbolize_loops hash_str sym_of_hash delim x c Hl Hx Hn Hc)
    as (dlm & syms & Hd & Hlow & Hat & Ho & Es & E).
  assert (Hd' : 128 <= dlm).
  { destruct (Z_lt_le_dec dlm 128) as [Lt | Ge]; [|lia].
    rewrite Hhigh in Hat by lia. specialize (Hat ltac:(lia)). discriminate. }
  exists syms. split; [exact E|].
  rewrite Es. unfold extracted. rewrite extract_no_split by assumption.
  destruct (0 <? _); cbn; lia.
Qed.

(** X20. From the delimiter specification to the words.  After
    [str_delim_set] with a well-formed specification that denotes at
    least one character of ASCII, [str_symbolize] turns the structure
    that [str_convert] makes of a C string into the hashes of the words
    of the string, the delimiters being the bytes that the specification
    denotes; the result has index 0 and no source, and for a string
    without a word the pointer to the symbols is NULL, what [realloc]
    returns for the size 0. *)
Theorem delimiters_to_words (j0 : Z) (delim0 : list Z) (spec text : string)
  (x : str_t) :
  Z.of_nat (length delim0) = 256 ->
  well_formed spec = true -> spec <> EmptyString ->
  (exists b, 0 <= b < 128 /\ In b (denoted spec)) ->
  let syms := map symbol (words (delimiter_of spec) (bytes_of (cstr text))) in
  exists d,
    str_delim_set DELIM_NOT_INIT j0 delim0 spec = Some d /\
    str_symbolize hash_str sym_of_hash true d (str_convert x text) =
    Some (mk_str TYPE_SYM (match syms with [] => None | _ :: _ => Some (Syms syms) end)
            (Z.of_nat (length syms)) 0 None, []).
Proof.
  intros Hl Hw Hne (b0 & Hb0 & Ib0) syms.
  destruct (delim_set_well_formed DELIM_NOT_INIT j0 delim0 spec Hl Hw Hne)
    as (d & Ed & Hd).
  exists d. split; [exact Ed|].
  assert (Hld : Z.of_nat (length d) = 256).
  { unfold str_delim_set in Ed.
    destruct (strlen (cstr spec) =? 0) eqn:E0.
    - rewrite cstr_well_formed in E0 by exact Hw.
      apply RangeFacts.strlen_nonempty in Hne. congruence.
    - destruct (delim_loop_binary _ _ _ _ Ed (binary_zeros _)) as [_ Hlen].
      rewrite Hlen, length_replicate. exact Hl. }
  assert (Hfl : forall b, byte b -> flagged d b = delimiter_of spec b).
  { intros b Hb. unfold flagged, delimiter_of.
    destruct (existsb (Z.eqb b) (denoted spec)) eqn:Ex.
    - apply existsb_exists in Ex. destruct Ex as (b' & Hin & Eq).
      apply Z.eqb_eq in Eq. subst b'.
      apply (Hd b Hb) in Hin. rewrite Hin. reflexivity.
    - destruct (is_delim d b) as [[|] |] eqn:Ei; try reflexivity.
      apply (Hd b Hb) in Ei.
      assert (existsb (Z.eqb b) (denoted spec) = true); [|congruence].
      apply existsb_exists. exists b. split; [exact Ei | apply Z.eqb_refl]. }
  pose proof (bytes_of_byte (cstr text)) as Hby.
  pose proof (bytes_of_length (cstr text)) as Hlen.
  assert (Hc : Forall byte (bytes_of (cstr text) ++ [0])).
  { apply Forall_app. split; [exact Hby|]. apply Forall_singleton. unfold byte. lia. }
  assert (Hn : 0 <= len (str_convert x text)
               <= Z.of_nat (length (bytes_of (cstr text) ++ [0]))).
  { cbn [str_convert len]. rewrite length_app. cbn [length]. lia. }
  destruct (symbolize_loops hash_str sym_of_hash d (str_convert x text)
              (bytes_of (cstr text) ++ [0]) Hld eq_refl Hn Hc)
    as (dlm & syms' & Hdl & Hlow & Hat & _ & Es & E).
  assert (Fb0 : flagged d b0 = true).
  { rewrite Hfl by (unfold byte; lia). unfold delimiter_of.
    apply existsb_exists. exists b0. split; [exact Ib0 | apply Z.eqb_refl]. }
  assert (Hd' : 0 <= dlm < 128).
  { destruct (Z_lt_le_dec b0 dlm) as [Lt | Ge]; [|lia].
    rewrite Hlow in Fb0 by lia. discriminate. }
  assert (Eb : int_to_byte dlm = dlm) by (apply Z.mod_small; lia).
  rewrite Eb in Es. cbn [str_convert len] in Es.
  rewrite <- Hlen, Nat2Z.id, take_app_length in Es.
  rewrite squeezed_words in Es; [| exact Hd' | apply Hat; lia | exact Hby].
  unfold words in Es. rewrite (words_from_ext _ (delimiter_of spec)) in Es by assumption.
  rewrite E, Es. reflexivity.
Qed.

End Props.

Lemma symbolize_words_witness :
  let x := str_convert a200b " ab  c " in
  let c := bytes_of " ab  c " ++ [0] in
  Z.of_nat (length space_only) = 256 /\
  str x = Some (Chars c) /\ 0 <= len x <= Z.of_nat (length c) /\ Forall byte c /\
  (exists b, 0 <= b < 128 /\ flagged space_only b = true) /\
  words (flagged space_only) (take (Z.to_nat (len x)) c) = [[97; 98]; [99]] /\
  let syms := map (fun w => sum_hash w + 1)
                (words (flagged space_only) (take (Z.to_nat (len x)) c)) in
  str_symbolize sum_hash (fun v => v + 1) true space_only x =
  Some (mk_str TYPE_SYM (match syms with [] => None | _ :: _ => Some (Syms syms) end)
          (Z.of_nat (length syms)) (idx x) (src x), []).
Proof.
  assert (Hl : Z.of_nat (length space_only) = 256) by reflexivity.
  assert (Hx : str (str_convert a200b " ab  c ")
               = Some (Chars (bytes_of " ab  c " ++ [0]))) by reflexivity.
  assert (Hn : 0 <= len (str_convert a200b " ab  c ")
               <= Z.of_nat (length (bytes_of " ab  c " ++ [0])))
    by (split; vm_compute; congruence).
  assert (Hc : Forall byte (bytes_of " ab  c " ++ [0])).
  { repeat (apply Forall_cons; split; [split; vm_compute; congruence|]).
    apply Forall_nil_2. }
  assert (Hb : exists b, 0 <= b < 128 /\ flagged space_only b = true).
  { exists 32. split; [lia | reflexivity]. }
  repeat (split; [assumption|]). split; [reflexivity|].
  exact (symbolize_words sum_hash (fun v => v + 1) space_only
           (str_convert a200b " ab  c ") _ Hl Hx Hn Hc Hb).
Defined.

Lemma symbolize_high_delimiters_witness :
  Z.of_nat (length high_only) = 256 /\
  str a200b = Some (Chars [97; 200; 98]) /\
  0 <= len a200b <= Z.of_nat (length [97; 200; 98]) /\
  Forall byte [97; 200; 98] /\
  (forall b, 0 <= b < 128 -> flagged high_only b = false) /\
  words (flagged high_only) [97; 200; 98] = [[97]; [98]] /\
  exists syms,
    str_symbolize sum_hash (fun v => v + 1) true high_only a200b =
    Some (mk_str TYPE_SYM (match syms with [] => None | _ :: _ => Some (Syms syms) end)
            (Z.of_nat (length syms)) (idx a200b) (src a200b), []) /\
    (length syms <= 1)%nat.
Proof.
  assert (Hl : Z.of_nat (length high_only) = 256) by reflexivity.
  assert (Hx : str a200b = Some (Chars [97; 200; 98])) by reflexivity.
  assert (Hn : 0 <= len a200b <= Z.of_nat (length [97; 200; 98]))
    by (split; vm_compute; congruence).
  assert (Hc : Forall byte [97; 200; 98]).
  { repeat (apply Forall_cons; split; [split; vm_compute; congruence|]).
    apply Forall_nil_2. }
  assert (Hh : forall b, 0 <= b < 128 -> flagged high_only b = false).
  { intros b Hb. unfold flagged, is_delim, at_index, high_only.
    destruct (Z.ltb_spec b 0); [lia|].
    rewrite list_lookup_insert_ne by lia.
    rewrite lookup_replicate_2 by lia. reflexivity. }
  repeat (split; [assumption|]). split; [reflexivity|].
  exact (symbolize_high_delimiters sum_hash (fun v => v + 1) high_only a200b _
           Hl Hx Hn Hc Hh).
Defined.

Lemma delimiters_to_words_witness :
  Z.of_nat (length (delim_initial 42)) = 256 /\
  well_formed " %2c" = true /\ " %2c"%string <> EmptyString /\
  (exists b, 0 <= b < 128 /\ In b (denoted " %2c")) /\
  words (delimiter_of " %2c") (bytes_of (cstr "ab, c")) = [[97; 98]; [99]] /\
  let syms := map (fun w => sum_hash w + 1)
                (words (delimiter_of " %2c") (bytes_of (cstr "ab, c"))) in
  exists d,
    str_delim_set 42 7 (delim_initial 42) " %2c" = Some d /\
    str_symbolize sum_hash (fun v => v + 1) true d (str_convert a200b "ab, c") =
    Some (mk_str TYPE_SYM (match syms with [] => None | _ :: _ => Some (Syms syms) end)
            (Z.of_nat (length syms)) 0 None, []).
Proof.
  assert (Hl : Z.of_nat (length (delim_initial 42)) = 256) by reflexivity.
  assert (Hw : well_formed " %2c" = true) by reflexivity.
  assert (Hne : " %2c"%string <> EmptyString) by congruence.
  assert (Hb : exists b, 0 <= b < 128 /\ In b (denoted " %2c")).
  { exists 32. split; [lia | left; reflexivity]. }
  repeat (split; [assumption|]). split; [reflexivity|].
  exact (delimiters_to_words 42 sum_hash (fun v => v + 1) 7 (delim_initial 42)
           " %2c" "ab, c" a200b Hl Hw Hne Hb).
Defined.

(** A string of delimiters alone has no word: the result has the length
    0 and a NULL pointer. *)
Example symbolize_no_word :
  str_symbolize sum_hash (fun v => v + 1) true space_only (str_convert a200b "  ")
  = Some (mk_str TYPE_SYM None 0 0 None, []).
Proof. vm_compute. reflexivity. Qed.

End WordProps.

(** ** Hashes of converted strings *)

Module HashFacts.
Import Str CString WordFacts.

Section Hash.
Variable MurmurHash64B : list Z -> Z -> Z.
Variable sym_bytes : list Z -> list Z.

(** The bytes hashed of a converted string are its characters. *)
Lemma hash_mem_convert (x : str_t) (s : string) :
  hash_mem MurmurHash64B sym_bytes (Chars (bytes_of (cstr s) ++ [0]))
    (1 * len (str_convert x s))
  = MurmurHash64B (bytes_of (cstr s)) 12648430.
Proof.
  unfold hash_mem. cbn [mem_bytes str_convert len].
  rewrite Z.mul_1_l, <- bytes_of_length, Nat2Z.id, take_app_length. reflexivity.
Qed.

End Hash.
End HashFacts.

Module HashProps.
Import Str CString HashFacts.

Section Props.
Variable MurmurHash64B : list Z -> Z -> Z.
Variable sym_bytes : list Z -> list Z.
Variable sizeof_sym : Z.

Local Abbreviation hash1 := (str_hash1 MurmurHash64B sym_bytes sizeof_sym).
Local Abbreviation hash2 := (str_hash2 MurmurHash64B sym_bytes sizeof_sym).

(** X21. The hash of a converted string covers its characters and
    nothing else: [str_hash1] after [str_convert] is [MurmurHash64B] with
    the seed [0xc0ffee] on the bytes of the C string, without the NUL
    that ends it and without what follows the NUL, and [str_hash2] of two
    converted strings is the XOR of the two; no warning is printed. *)
Theorem hash_of_converted (x y : str_t) (s t : string) :
  hash1 (str_convert x s) = (MurmurHash64B (bytes_of (cstr s)) 12648430, []) /\
  hash2 (str_convert x s) (str_convert y t) =
    (Z.lxor (MurmurHash64B (bytes_of (cstr s)) 12648430)
            (MurmurHash64B (bytes_of (cstr t)) 12648430), []).
Proof.
  split.
  - unfold str_hash1. cbn [type str str_convert]. rewrite hash_mem_convert. reflexivity.
  - unfold str_hash2. cbn [type str str_convert]. rewrite !hash_mem_convert. reflexivity.
Qed.

(** X22. [str_hash2] of a string with itself is 0, without a warning,
    for every string whose pointer is set: the value that the function
    returns, with a warning, when there is nothing to hash. *)
Theorem hash2_self (x : str_t) :
  str x <> None ->
  hash2 x x = (0, []) /\
  fst (hash2 x x) = fst (hash2 x (mk_str (type x) None (len x) (idx x) (src x))).
Proof.
  intros Hx. unfold str_hash2.
  destruct (type x), (str x) as [p |]; try contradiction; cbn [type str];
    rewrite Z.lxor_nilpotent; split; reflexivity.
Qed.

End Props.

Lemma hash2_self_witness :
  let x := mk_str TYPE_CHAR (Some (Chars [97; 98])) 2 0 None in
  let murmur := fun (key : list Z) (seed : Z) => fold_right Z.add seed key in
  str x <> None /\
  str_hash2 murmur (fun s => s) 8 x x = (0, []) /\
  fst (str_hash2 murmur (fun s => s) 8 x x) =
  fst (str_hash2 murmur (fun s => s) 8 x (mk_str (type x) None (len x) (idx x) (src x))).
Proof.
  assert (H : str (mk_str TYPE_CHAR (Some (Chars [97; 98])) 2 0 None) <> None)
    by (simpl; congruence).
  split; [exact H|].
  exact (hash2_self (fun (key : list Z) (seed : Z) => fold_right Z.add seed key)
           (fun s => s) 8 _ H).
Defined.

End HashProps.

(** ** The output interface *)

Module OutputFacts.
Import CString Output OutputSpec.

Lemma code_pos (c : ascii) : 0 <= code c.
Proof. unfold code. lia. Qed.

(** In a C string, which holds no NUL, [strcasecmp] is 0 exactly on
    strings that are the same in lower case. *)
Lemma strcasecmp_zero (a : string) :
  forall b, cstr a = a -> cstr b = b ->
  strcasecmp a b = 0 <-> lowercase a = lowercase b.
Proof.
  assert (NZ : forall x t, cstr (String x t) = String x t ->
                 0 < tolower (code x) /\ cstr t = t).
  { intros x t H. cbn in H. destruct (Z.eqb_spec (code x) 0); [discriminate|].
    injection H as H. split; [|exact H].
    pose proof (code_pos x). unfold tolower.
    destruct ((65 <=? code x) && (code x <=? 90)); lia. }
  induction a as [| x a IH]; intros [| y b] Ha Hb; cbn [strcasecmp lowercase].
  - split; reflexivity.
  - destruct (NZ y b Hb) as [? _]. split; [lia | discriminate].
  - destruct (NZ x a Ha) as [? _]. split; [lia | discriminate].
  - destruct (NZ x a Ha) as [? Ha']. destruct (NZ y b Hb) as [? Hb'].
    unfold lowercase. cbn [list_ascii_of_string map].
    destruct (Z.eqb_spec (tolower (code x)) (tolower (code y))) as [E | N].
    + rewrite (IH b Ha' Hb'). unfold lowercase. rewrite E. split.
      * intros ->. reflexivity.
      * intros H1. injection H1 as H1. exact H1.
    + split; [lia|]. intros H1. injection H1 as H1 _. contradiction.
Qed.

Lemma cstr_idem s : cstr (cstr s) = cstr s.
Proof.
  induction s as [| c t IH]; [reflexivity|]. cbn.
  destruct (code c =? 0) eqn:E; [reflexivity|]. cbn. rewrite E, IH. reflexivity.
Qed.

(** [output_config] returns within two calls, with the table of a
    module. *)
Lemma output_config_table (fuel : nat) (func : output_t) (format : string) :
  (2 <= fuel)%nat ->
  exists md msgs, output_config fuel func format = Some (table md, msgs).
Proof.
  intros Hf. destruct fuel as [| [| k]]; [lia | lia |].
  cbn [output_config].
  destruct (strcasecmp (cstr format) "text" =? 0); [exists Text; eexists; reflexivity|].
  destruct (strcasecmp (cstr format) "libsvm" =? 0);
    [exists Libsvm; eexists; reflexivity|].
  change (strcasecmp (cstr "text") "text" =? 0) with true.
  exists Text. eexists. reflexivity.
Qed.

End OutputFacts.

Module OutputProps.
Import CString Output OutputSpec OutputFacts.

(** X23. [output_config] selects an output module by its name without
    regard to case: a name that is ["text"] in lower case selects the
    text module, one that is ["libsvm"] the libsvm module, both in
    silence; any other name prints one error and selects the text module
    through one call of [output_config] itself, which ends there.  The
    three pointers of the table are set together, whatever the table held
    before. *)
Theorem output_config_selects (fuel : nat) (func : output_t) (format : string) :
  (2 <= fuel)%nat ->
  output_config fuel func format =
  Some (table (fst (selected format)),
        if snd (selected format) then []
        else [Error "Unknown ouptut format '%s', using 'text' instead."]).
Proof.
  intros Hf. destruct fuel as [| [| k]]; [lia | lia |].
  assert (Et : cstr "text" = "text"%string) by reflexivity.
  assert (El : cstr "libsvm" = "libsvm"%string) by reflexivity.
  pose proof (strcasecmp_zero (cstr format) "text" (cstr_idem format) Et) as Ht.
  pose proof (strcasecmp_zero (cstr format) "libsvm" (cstr_idem format) El) as Hl.
  cbn [output_config]. unfold selected.
  destruct (Z.eqb_spec (strcasecmp (cstr format) "text") 0) as [E1 | N1].
  - apply Ht in E1. destruct (decide _); [reflexivity | contradiction].
  - destruct (decide (lowercase (cstr format) = lowercase "text")) as [E1 | _];
      [apply Ht in E1; contradiction|].
    destruct (Z.eqb_spec (strcasecmp (cstr format) "libsvm") 0) as [E2 | N2].
    + apply Hl in E2. destruct (decide _); [reflexivity | contradiction].
    + destruct (decide (lowercase (cstr format) = lowercase "libsvm")) as [E2 | _];
        [apply Hl in E2; contradiction|].
      change (strcasecmp (cstr "text") "text" =? 0) with true. reflexivity.
Qed.

(** X24. Once [output_config] has returned, with whatever name, the
    wrappers [output_open], [output_write] and [output_close] call the
    three functions of one and the same module, none through a NULL
    pointer; before any [output_config] the table holds NULL pointers and
    each wrapper calls through one. *)
Theorem wrappers_after_config {A M : Type} (fuel : nat) (func : output_t)
  (format : string) (name : A) (m : M) :
  (2 <= fuel)%nat ->
  (exists func' msgs md,
     output_config fuel func format = Some (func', msgs) /\
     output_open func' name = output_open (table md) name /\
     output_write func' m = output_write (table md) m /\
     output_close func' = output_close (table md) /\
     output_open func' name <> None /\ output_write func' m <> None /\
     output_close func' <> None) /\
  output_open func_initial name = None /\
  output_write func_initial m = None /\
  output_close func_initial = None.
Proof.
  intros Hf. split; [|repeat split; reflexivity].
  destruct (output_config_table fuel func format Hf) as (md & msgs & E).
  exists (table md), msgs, md. split; [exact E|].
  repeat (split; [reflexivity|]).
  destruct md; cbn; repeat split; discriminate.
Qed.

Lemma output_config_selects_witness :
  (2 <= 2)%nat /\
  selected "LibSVM" = (Libsvm, true) /\ selected "csv" = (Text, false) /\
  output_config 2 func_initial "LibSVM" =
  Some (table (fst (selected "LibSVM")),
        if snd (selected "LibSVM") then []
        else [Error "Unknown ouptut format '%s', using 'text' instead."]).
Proof.
  assert (H : (2 <= 2)%nat) by lia.
  split; [exact H|]. split; [reflexivity|]. split; [reflexivity|].
  exact (output_config_selects 2 func_initial "LibSVM" H).
Defined.

Lemma wrappers_after_config_witness :
  (2 <= 2)%nat /\
  (exists func' msgs md,
     output_config 2 func_initial "csv" = Some (func', msgs) /\
     output_open func' "out.txt"%string = output_open (table md) "out.txt"%string /\
     output_write func' 0 = output_write (table md) 0 /\
     output_close func' = output_close (table md) /\
     output_open func' "out.txt"%string <> None /\ output_write func' 0 <> None /\
     output_close func' <> None) /\
  output_open func_initial "out.txt"%string = None /\
  output_write func_initial 0 = None /\
  output_close func_initial = None.
Proof.
  assert (H : (2 <= 2)%nat) by lia.
  split; [exact H|].
  exact (wrappers_after_config 2 func_initial "csv" "out.txt"%string 0 H).
Defined.

End OutputProps.

(** ** What the compute loops leave alone *)

Module FrameFacts.
Import HMatrix.

(** A property that every iteration keeps is kept by the loop. *)
Lemma for_loop_keeps {St} (Q : St -> Prop) (body : Z -> St -> option St) :
  (forall i st st', body i st = Some st' -> Q st -> Q st') ->
  forall (steps : nat) (lo : Z) (st st' : St),
  for_loop steps lo body st = Some st' -> Q st -> Q st'.
Proof.
  intros Hb. induction steps as [| k IH]; intros lo st st' E HQ.
  - cbn in E. injection E as <-. exact HQ.
  - cbn in E. destruct (body lo st) as [st1 |] eqn:E1; [|discriminate].
    eapply IH; [exact E | eapply Hb; eassumption].
Qed.

Section Frame.
Context {float double hstring_t : Type}.
Variable d2f : double -> float.
Variable s : list hstring_t.
Variable measure : hstring_t -> hstring_t -> double.

(** [hmatrix_set] writes to [values] only. *)
Lemma set_changes_values_only (m m' : hmatrix_t float) (a b : Z) (v : float) :
  hmatrix_set m a b v = Some m' -> m' = set_values m (values m').
Proof.
  unfold hmatrix_set. destruct (_ <? _); [|discriminate].
  destruct (values m) as [vs |]; [|discriminate].
  destruct (_ && _); [|discriminate].
  intros H. injection H as <-. reflexivity.
Qed.

Lemma compute_cell_changes_values_only (m : hmatrix_t float) (i j : Z)
  (st st' : hmatrix_t float * list (Z * Z)) :
  compute_cell d2f s measure i j st = Some st' ->
  fst st = set_values m (values (fst st)) ->
  fst st' = set_values m (values (fst st')).
Proof.
  destruct st as [mm calls]. unfold compute_cell. cbn [fst].
  destruct (triangular mm && _).
  - intros H. injection H as <-. auto.
  - destruct (at_index s _); [|discriminate].
    destruct (at_index s _); [|discriminate].
    destruct (hmatrix_set mm _ _ _) as [m1 |] eqn:E; [|discriminate].
    intros H Hm. injection H as <-. cbn [fst].
    apply set_changes_values_only in E. rewrite E, Hm. reflexivity.
Qed.

End Frame.
End FrameFacts.

Module FrameProps.
Import HMatrix FrameFacts Examples.

(** X25. [hmatrix_compute] writes to the array of values and to nothing
    else: whenever it returns, on any matrix and any strings, the matrix
    has the [num], the ranges, the mode, the size, the labels and the
    sources that it had before the call. *)
Theorem compute_changes_values_only {float double hstring_t : Type}
  (d2f : double -> float) (m m' : hmatrix_t float) (s : list hstring_t)
  (measure : hstring_t -> hstring_t -> double) (calls : list (Z * Z)) :
  hmatrix_compute d2f m s measure = Some (m', calls) ->
  m' = set_values m (values m').
Proof.
  unfold hmatrix_compute, for_int. intros E.
  apply (for_loop_keeps
           (fun st : hmatrix_t float * list (Z * Z) =>
              fst st = set_values m (values (fst st)))
           _ ) in E.
  - exact E.
  - intros i st st' Ei HQ.
    apply (for_loop_keeps
             (fun st : hmatrix_t float * list (Z * Z) =>
                fst st = set_values m (values (fst st)))
             (compute_cell d2f s measure i)) in Ei.
    + exact Ei.
    + intros j st1 st2 Ej HQ1.
      eapply compute_cell_changes_values_only; eassumption.
    + exact HQ.
  - destruct m; reflexivity.
Qed.

Lemma compute_changes_values_only_witness :
  let m := fst (hmatrix_alloc 0 true m3) in
  let m' := mk_hmatrix 3 (mk_range 0 3) (mk_range 0 3) true 6
              (Some [0; 10; 20; 0; 10; 0]) None None in
  let calls := [(0, 0); (1, 0); (1, 1); (2, 0); (2, 1); (2, 2)] in
  hmatrix_compute (fun d => d) m [10; 20; 30] Z.sub = Some (m', calls) /\
  m' = set_values m (values m').
Proof.
  assert (E : hmatrix_compute (fun d => d) (fst (hmatrix_alloc 0 true m3))
                [10; 20; 30] Z.sub
              = Some (mk_hmatrix 3 (mk_range 0 3) (mk_range 0 3) true 6
                        (Some [0; 10; 20; 0; 10; 0]) None None,
                      [(0, 0); (1, 0); (1, 1); (2, 0); (2, 1); (2, 2)]))
    by reflexivity.
  split; [exact E|].
  exact (compute_changes_values_only (fun d => d) _ _ [10; 20; 30] Z.sub _ E).
Defined.

End FrameProps.
